(** * cs-api: duplicate prevention and asynchronous lifecycle of search units

    A shallow embedding of the Convex functions (convex/functions.ts, stored
    with convex/crons.ts), of the service layer that calls them
    (lib/research, lib/linkedin, lib/jobs and their storage modules), of the
    route POST /api/jobs/process-unprocessed and of the embedding helpers.

    Modelling conventions.
    - A Convex table is the list of its documents in creation order.  No
      function of the repository deletes a document, so the position of a
      document in that list identifies it: [_id] is modelled as that position
      and [_creationTime] order is list order.
    - [Date.now()] is an integer number of milliseconds, a [Z].  Inside one
      Convex mutation or query every read of the clock gives the same value,
      so such a function takes one [now]; a service function that makes
      several Convex calls takes one clock value per call.
    - [numResults] and batch sizes, JavaScript numbers used as counts, are
      integers.
    - A JavaScript exception is a [Thrown] outcome; calls into external
      providers (search, language model, embedding) are parameters giving
      their outcome.
    - Convex checks the arguments of a call against the argument validator
      of the function, and every document it writes against the validator
      that convex/schema.ts declares for the table; a call or a write that
      does not pass throws, as does a patch of a document that does not exist.
      Of what the functions modelled here send and write, three things do not
      pass: the arguments of the service wrapper updateResearchReport, the
      boolean the LinkedIn service gives for [isProcessed], and, on job
      results and LinkedIn profiles, the strings the functions write to
      [isProcessed] (and the three embeddings of a job), which schema.ts does
      not declare.  The first two are fixed by the code of the functions; the
      validators of the two tables are a parameter, [Results.Schema], with the
      one of schema.ts as [Results.shipped].
    - Telemetry fields ([model], [responseTime], [costDollars], [provider] of
      a search) and stored embedding vectors are not read by any function
      modelled here and are left out of the documents. *)

From Stdlib Require Import ZArith String Floats.
From stdpp Require Import base decidable option list strings pretty.

Local Open Scope Z_scope.

(** ** Outcomes of computations that may throw *)

Inductive Outcome (A : Type) : Type :=
  | Returned (a : A)
  | Thrown (msg : string).
Arguments Returned {A} a.
Arguments Thrown {A} msg.

(** ** The document store *)

Module Db.
Section Table.
Context {A : Type}.

(** [ctx.db.insert(table, doc)]: the new document is the newest one. *)
Definition insert (t : list A) (d : A) : nat * list A :=
  (length t, t ++ [d]).

(** [ctx.db.get(id)]. *)
Definition get (t : list A) (i : nat) : option A := t !! i.

(** [ctx.db.patch(id, fields)]: throws ([None]) when the document does not
    exist. *)
Definition patch (i : nat) (f : A -> A) (t : list A) : option (list A) :=
  match t !! i with
  | Some d => Some (<[i := f d]> t)
  | None => None
  end.

(** [.withIndex(ix, q => q.eq(..)...).first()]: among the documents whose
    index fields equal the arguments, the one created first (Convex scans
    an index in ascending order unless told otherwise). *)
Fixpoint scan (p : A -> bool) (i : nat) (t : list A) : option (nat * A) :=
  match t with
  | [] => None
  | d :: t' => if p d then Some (i, d) else scan p (S i) t'
  end.
Definition first (p : A -> bool) (t : list A) : option (nat * A) := scan p 0%nat t.

(** [.withIndex(ix, ...).order("desc").first()]: the one created last. *)
Fixpoint scan_desc (p : A -> bool) (i : nat) (t : list A) : option (nat * A) :=
  match t with
  | [] => None
  | d :: t' =>
      match scan_desc p (S i) t' with
      | Some r => Some r
      | None => if p d then Some (i, d) else None
      end
  end.
Definition first_desc (p : A -> bool) (t : list A) : option (nat * A) :=
  scan_desc p 0%nat t.

(** The documents of a table with their ids. *)
Definition docs (t : list A) : list (nat * A) := imap pair t.

(** [.filter(pred).take(n)]: the first [n] documents, in creation order,
    that satisfy the predicate. *)
Definition filter_take (p : A -> bool) (n : nat) (t : list A) : list (nat * A) :=
  take n (List.filter (fun x => p (snd x)) (docs t)).

(** [.withIndex("by_created").order("desc").take(n)], the clock being
    monotone. *)
Definition take_desc (n : nat) (t : list A) : list (nat * A) :=
  take n (rev (docs t)).
End Table.
End Db.

(** ** Search units: research reports, LinkedIn searches, job searches *)

Inductive Status : Set := pending | complete | failed.

Global Instance Status_eq_dec : EqDecision Status.
Proof. solve_decision. Defined.

(** The [data] field ([v.any()]): [{}] at creation of a research report or
    LinkedIn search, [null] at creation of a job search, the result once
    complete, [{ error }] once failed. *)
Inductive Data (R : Type) : Type :=
  | DataEmpty
  | DataNull
  | DataResult (r : R)
  | DataError (msg : string).
Arguments DataEmpty {R}.
Arguments DataNull {R}.
Arguments DataResult {R} r.
Arguments DataError {R} msg.

(** JavaScript truthiness of a [data] value: only [null] is falsy. *)
Definition data_truthy {R} (d : Data R) : bool :=
  match d with DataNull => false | _ => true end.

Record SearchUnit (K R : Type) : Type := mkUnit {
  params : K;
  data : Data R;
  status : option Status;
  expiresAt : option Z;
  userId : option string;
  createdAt : Z;
  updatedAt : Z
}.
Arguments mkUnit {K R}.
Arguments params {K R}.
Arguments data {K R}.
Arguments status {K R}.
Arguments expiresAt {K R}.
Arguments userId {K R}.
Arguments createdAt {K R}.
Arguments updatedAt {K R}.

(** [existing.expiresAt && existing.expiresAt < now]: an absent or zero
    [expiresAt] is falsy. *)
Definition expired_at_read (e : option Z) (now : Z) : bool :=
  match e with
  | Some x => negb (x =? 0) && (x <? now)
  | None => false
  end.

(** [q.lt(q.field("expiresAt"), now)] in a Convex filter: a missing field
    is [undefined], which Convex orders below every number. *)
Definition expired_in_filter (e : option Z) (now : Z) : bool :=
  match e with
  | Some x => x <? now
  | None => true
  end.

Definition status_is {K R} (s : Status) (d : SearchUnit K R) : bool :=
  bool_decide (status d = Some s).

Definition fiveMinutes : Z := 5 * 60 * 1000.
Definition oneDay : Z := 24 * 60 * 60 * 1000.
Definition sevenDays : Z := 7 * 24 * 60 * 60 * 1000.

(** The answer of a find-or-create service call. [isExisting] is absent
    from the answer for a new unit, which is modelled as [false]. *)
Record Response (I R : Type) : Type := mkResponse {
  unitId : I;
  responseStatus : Status;
  isExisting : bool;
  result : option (Data R)
}.
Arguments mkResponse {I R}.
Arguments unitId {I R}.
Arguments responseStatus {I R}.
Arguments isExisting {I R}.
Arguments result {I R}.

(** *** The lifecycle shared by research reports and LinkedIn searches

    [findExistingResearch] / [findExistingLinkedInSearch],
    [createPendingResearch] / [createPendingLinkedInSearch],
    [updateResearchReport] / [updateLinkedInSearchResults],
    [cleanupExpiredEntries] / [cleanupExpiredLinkedInEntries] and
    [performResearch] / [searchLinkedInProfessionals] are the same code up
    to the table, the key fields and the staleness threshold. *)

Module Lifecycle.
Section Lifecycle.
Context {K R : Type} `{EqDecision K}.
Variable threshold : Z.

Local Abbreviation Unit := (SearchUnit K R).

Definition key_is (k : K) (d : Unit) : bool := bool_decide (params d = k).

(** createPendingResearch / createPendingLinkedInSearch (mutation): the
    document they insert, and the insertion. *)
Definition pending_unit (now : Z) (k : K) (uid : option string) : Unit :=
  let expires := now + fiveMinutes in
  {| params := k; data := DataEmpty; status := Some pending;
     expiresAt := Some expires; userId := uid;
     createdAt := now; updatedAt := now |}.

Definition createPending (now : Z) (k : K) (uid : option string)
    (t : list Unit) : nat * list Unit :=
  Db.insert t (pending_unit now k uid).

(** updateResearchReport / updateLinkedInSearchResults (mutation): patches
    [data], [status] and [updatedAt]. *)
Definition set_result (dat : Data R) (s : Status) (now : Z) (d : Unit) : Unit :=
  {| params := params d; data := dat; status := Some s;
     expiresAt := expiresAt d; userId := userId d;
     createdAt := createdAt d; updatedAt := now |}.

Definition updateResults (now : Z) (id : nat) (dat : Data R) (s : Status)
    (t : list Unit) : option (list Unit) :=
  Db.patch id (set_result dat s now) t.

(** What findExisting* returns: the document, with [status] overridden to
    failed when its pending window has passed, or with [isStale] added. *)
Record Existing : Type := mkExisting {
  ex_id : nat;
  ex_doc : Unit;
  isStale : bool
}.

Definition with_status (s : Status) (d : Unit) : Unit :=
  {| params := params d; data := data d; status := Some s;
     expiresAt := expiresAt d; userId := userId d;
     createdAt := createdAt d; updatedAt := updatedAt d |}.

(** findExistingResearch / findExistingLinkedInSearch (query). *)
Definition findExisting (now : Z) (k : K) (t : list Unit) : option Existing :=
  let ago := now - threshold in
  match Db.first_desc (key_is k) t with
  | None => None
  | Some (i, existing) =>
      if status_is pending existing && expired_at_read (expiresAt existing) now
      then Some (mkExisting i (with_status failed existing) false)
      else if (createdAt existing <? ago) && status_is complete existing
      then Some (mkExisting i existing true)
      else Some (mkExisting i existing false)
  end.

(** cleanupExpiredEntries / cleanupExpiredLinkedInEntries (mutation): every
    pending document whose [expiresAt] is below [now] is patched to failed. *)
Definition expire (now : Z) (d : Unit) : Unit :=
  if status_is pending d && expired_in_filter (expiresAt d) now
  then {| params := params d; data := data d; status := Some failed;
          expiresAt := expiresAt d; userId := userId d;
          createdAt := createdAt d; updatedAt := now |}
  else d.

Definition cleanupExpired (now : Z) (t : list Unit) : list Unit :=
  expire now <$> t.

(** performResearch / searchLinkedInProfessionals, up to the point where
    the answer is returned.  The third component is the id for which the
    background execution was started, if any.  The three clock values are
    those of the cleanup mutation, of the lookup query and of the insert. *)
Definition findOrCreate (tClean tFind tCreate : Z) (k : K) (uid : option string)
    (t : list Unit) : Response nat R * list Unit * option nat :=
  let t1 := cleanupExpired tClean t in
  let create :=
    let '(id, t2) := createPending tCreate k uid t1 in
    (mkResponse id pending false None, t2, Some id) in
  match findExisting tFind k t1 with
  | Some existing =>
      match status (ex_doc existing) with
      | Some complete =>
          if isStale existing then create
          else (mkResponse (ex_id existing) complete true
                  (Some (data (ex_doc existing))), t1, None)
      | Some pending =>
          (mkResponse (ex_id existing) pending true None, t1, None)
      | Some failed => create
      | None => create
      end
  | None => create
  end.

(** What a creating call returns: the new id is the next position, the
    answer is pending and the background execution is started for it. *)
Definition created (tClean tCreate : Z) (k : K) (uid : option string)
    (t : list Unit) : Response nat R * list Unit * option nat :=
  (mkResponse (length t) pending false None,
   cleanupExpired tClean t ++ [pending_unit tCreate k uid],
   Some (length t)).

(** markResearchFailed / markLinkedInSearchFailed. *)
Definition error_text (fallback msg : string) : string :=
  if bool_decide (msg = EmptyString) then fallback else msg.

(** [execute(...).catch(async error => markFailed(id, error.message))]:
    the background promise started by a creating call.  [run] is the
    execution proper; a rejection is turned into a failed unit ([markFailed]
    itself rejects when the document is gone, which nobody awaits). *)
Definition background (fallback : string)
    (run : list Unit -> Outcome (list Unit)) (now : Z) (id : nat)
    (t : list Unit) : list Unit :=
  match run t with
  | Returned t' => t'
  | Thrown msg =>
      match updateResults now id (DataError (error_text fallback msg)) failed t with
      | Some t' => t'
      | None => t
      end
  end.
End Lifecycle.
End Lifecycle.

(** ** Research reports (lib/research/research.ts, research-storage.ts) *)

Module Research.
Inductive ResearchType : Set := structured | completion | streaming.

(** The fields of the [by_research_key] index. *)
Record ResearchKey : Set := mkKey {
  company : string;
  position : string;
  location : string;
  type : ResearchType
}.

Global Instance ResearchType_eq_dec : EqDecision ResearchType.
Proof. solve_decision. Defined.
Global Instance ResearchKey_eq_dec : EqDecision ResearchKey.
Proof. solve_decision. Defined.

(** A finished report: the structured report or the completion text. *)
Definition Report : Set := string.
Abbreviation Reports := (list (SearchUnit ResearchKey Report)).

Definition createPendingResearch := @Lifecycle.createPending ResearchKey Report.
Definition updateResearchReport := @Lifecycle.updateResults ResearchKey Report.
Definition findExistingResearch := @Lifecycle.findExisting ResearchKey Report _ sevenDays.
Definition cleanupExpiredEntries := @Lifecycle.cleanupExpired ResearchKey Report.

(** performResearch, up to its return. *)
Definition performResearch (tClean tFind tCreate : Z) (k : ResearchKey)
    (uid : option string) (t : Reports) : Response nat Report * Reports * option nat :=
  Lifecycle.findOrCreate sevenDays tClean tFind tCreate k uid t.

(** The fields the argument validator of the mutation updateResearchReport
    declares (convex/functions.ts). *)
Definition declared : list string :=
  ["id"; "data"; "titleEmbedding"; "descriptionEmbedding"; "combinedEmbedding";
   "embeddingText"; "status"; "model"; "responseTime"; "costDollars"].

(** The fields updateResearchReport of research-storage.ts sends: its own,
    and the options executeResearch gives it, [model], [responseTime],
    [costDollars], [company], [position] and [location]. *)
Definition sent : list string :=
  ["id"; "data"; "embedding"; "embeddingText"; "status";
   "model"; "responseTime"; "costDollars"; "company"; "position"; "location"].

(** Convex lets a call through when every field of the arguments is
    declared. *)
Definition accepted (fields : list string) : bool :=
  forallb (fun f => bool_decide (f ∈ declared)) fields.

(** updateResearchReport of research-storage.ts: the embedding, then the
    mutation with status complete; whatever throws inside, the wrapper throws
    its own message.  [embed] is the outcome of generateEmbedding. *)
Definition storeReport (embed : Outcome unit) (now : Z) (reportId : nat) (r : Report)
    (t : Reports) : Outcome Reports :=
  match embed with
  | Thrown _ => Thrown "Failed to update research report"
  | Returned _ =>
      if accepted sent
      then match updateResearchReport now reportId (DataResult r) complete t with
           | Some t' => Returned t'
           | None => Thrown "Failed to update research report"
           end
      else Thrown "Failed to update research report"
  end.

(** executeResearch: the provider call chosen by [type], then
    updateResearchReport of research-storage.ts.  [answer] is the outcome of
    createResearchTaskInternal / createResearchCompletionInternal. *)
Definition executeResearch (answer : Outcome Report) (embed : Outcome unit)
    (now : Z) (reportId : nat) (k : ResearchKey) (t : Reports) : Outcome Reports :=
  match type k with
  | streaming =>
      Thrown "Streaming research not yet supported in background execution"
  | _ =>
      match answer with
      | Thrown msg => Thrown msg
      | Returned r => storeReport embed now reportId r t
      end
  end.

(** The background promise of performResearch:
    [executeResearch(...).catch(error => markResearchFailed(reportId, error.message))].
    markResearchFailed sends [id], [data] and [status], which the validator
    declares. *)
Definition researchInBackground (answer : Outcome Report) (embed : Outcome unit)
    (tDone tFail : Z) (reportId : nat) (k : ResearchKey) (t : Reports) : Reports :=
  Lifecycle.background "Research failed"
    (executeResearch answer embed tDone reportId k) tFail reportId t.
End Research.

(** ** LinkedIn searches (lib/linkedin/linkedin.ts, linkedin-storage.ts) *)

Module LinkedIn.
(** The fields of the [by_search_key] index. *)
Record SearchKey : Set := mkKey {
  jobTitle : string;
  userLocation : string;
  numResults : Z
}.

Global Instance SearchKey_eq_dec : EqDecision SearchKey.
Proof. solve_decision. Defined.

(** The summary stored on completion: the number of raw profiles stored. *)
Definition Summary : Set := nat.
Abbreviation Searches := (list (SearchUnit SearchKey Summary)).

Definition createPendingLinkedInSearch := @Lifecycle.createPending SearchKey Summary.
Definition updateLinkedInSearchResults := @Lifecycle.updateResults SearchKey Summary.
Definition findExistingLinkedInSearch := @Lifecycle.findExisting SearchKey Summary _ oneDay.
Definition cleanupExpiredLinkedInEntries := @Lifecycle.cleanupExpired SearchKey Summary.

(** searchLinkedInProfessionals, up to its return. *)
Definition searchLinkedInProfessionals (tClean tFind tCreate : Z) (k : SearchKey)
    (uid : option string) (t : Searches) : Response nat Summary * Searches * option nat :=
  Lifecycle.findOrCreate oneDay tClean tFind tCreate k uid t.

(** A value given for [isProcessed]: a boolean or a string. *)
Inductive JsFlag : Set :=
  | JsBool (b : bool)
  | JsText (s : string).

Global Instance JsFlag_eq_dec : EqDecision JsFlag.
Proof. solve_decision. Defined.

(** The argument validator of the mutation saveLinkedInProfile for
    [isProcessed]:
    [v.union(v.literal("false"), v.literal("pending"), v.literal("true"))]. *)
Definition is_literal (x : JsFlag) : bool :=
  match x with
  | JsText s => bool_decide (s ∈ ["false"; "pending"; "true"])
  | JsBool _ => false
  end.

(** storeLinkedInProfile of linkedin-storage.ts: the call of
    saveLinkedInProfile with [isProcessed: options.isProcessed ?? "true"].
    For [options.isProcessed === "true"] an embedding is made and sent as
    [embedding], a field the argument validator of the mutation does not
    declare.  [saved] is the id the mutation answers with, or its exception,
    when Convex lets the call through; whatever throws inside, the wrapper
    throws its own message. *)
Definition storeLinkedInProfile (isProcessed : option JsFlag) (saved : Outcome nat)
    : Outcome nat :=
  if bool_decide (isProcessed = Some (JsText "true"))
  then Thrown "Failed to store LinkedIn profile"
  else if is_literal (default (JsText "true") isProcessed)
  then match saved with
       | Returned profileId => Returned profileId
       | Thrown _ => Thrown "Failed to store LinkedIn profile"
       end
  else Thrown "Failed to store LinkedIn profile".

(** storeRawLinkedInProfile: [isProcessed: false]. *)
Definition storeRawLinkedInProfile (saved : Outcome nat) : Outcome nat :=
  storeLinkedInProfile (Some (JsBool false)) saved.

(** The loop over the profiles found, each stored in a try/catch of its own:
    [rawProfileIds]. *)
Fixpoint store_profiles (found : list (Outcome nat)) : list nat :=
  match found with
  | [] => []
  | saved :: rest =>
      match storeRawLinkedInProfile saved with
      | Returned profileId => profileId :: store_profiles rest
      | Thrown _ => store_profiles rest
      end
  end.

(** executeLinkedInSearch: [exa] is the outcome of [exa.searchAndContents],
    as the profiles it found, each with what saveLinkedInProfile would answer
    for it; then updateLinkedInSearchResults with status complete and
    [totalFound: rawProfileIds.length].  The wrapper sends [id], [data],
    [status], [model], [responseTime] and [costDollars], which the argument
    validator of the mutation declares. *)
Definition executeLinkedInSearch (exa : Outcome (list (Outcome nat))) (now : Z)
    (searchId : nat) (t : Searches) : Outcome Searches :=
  match exa with
  | Thrown msg => Thrown msg
  | Returned found =>
      let rawProfileIds := store_profiles found in
      match updateLinkedInSearchResults now searchId
              (DataResult (length rawProfileIds)) complete t with
      | Some t' => Returned t'
      | None => Thrown "Failed to update LinkedIn search results"
      end
  end.

(** [executeLinkedInSearch(...).catch(error => markLinkedInSearchFailed(searchId, error.message))]. *)
Definition searchInBackground (exa : Outcome (list (Outcome nat))) (tDone tFail : Z)
    (searchId : nat) (t : Searches) : Searches :=
  Lifecycle.background "LinkedIn search failed"
    (executeLinkedInSearch exa tDone searchId) tFail searchId t.
End LinkedIn.

(** ** Result records: job results and LinkedIn profiles *)

(** A field of type [v.any()] that may be missing or [null]. *)
Inductive JsAny (A : Type) : Type :=
  | JsUndefined
  | JsNull
  | JsObject (a : A).
Arguments JsUndefined {A}.
Arguments JsNull {A}.
Arguments JsObject {A} a.

(** JavaScript truthiness of such a field. *)
Definition js_truthy {A} (x : JsAny A) : bool :=
  match x with JsObject _ => true | _ => false end.

(** [q.neq(q.field(f), null)]: a missing field is [undefined], not [null]. *)
Definition neq_null {A} (x : JsAny A) : bool :=
  match x with JsNull => false | _ => true end.

(** [s || fallback] on strings: the empty string is falsy. *)
Definition str_or (s fallback : string) : string :=
  if bool_decide (s = EmptyString) then fallback else s.

(** [x || undefined] on an optional string. *)
Definition or_undefined (x : option string) : option string :=
  match x with
  | Some s => if bool_decide (s = EmptyString) then None else Some s
  | None => None
  end.

Module Results.
(** [isProcessed]: "false" | "pending" | "true". *)
Inductive Processed : Set := Pfalse | Ppending | Ptrue.

Global Instance Processed_eq_dec : EqDecision Processed.
Proof. solve_decision. Defined.

(** The fields every result record has; [identity] holds the fields proper
    to jobs or to profiles. *)
Record ResultRecord (P Raw AI : Type) : Type := mkRecord {
  identity : P;
  rawData : JsAny Raw;
  aiData : option AI;
  isProcessed : option Processed;
  processingError : option string;
  createdAt : Z;
  updatedAt : Z
}.
Arguments mkRecord {P Raw AI}.
Arguments identity {P Raw AI}.
Arguments rawData {P Raw AI}.
Arguments aiData {P Raw AI}.
Arguments isProcessed {P Raw AI}.
Arguments processingError {P Raw AI}.
Arguments createdAt {P Raw AI}.
Arguments updatedAt {P Raw AI}.

(** The validators convex/schema.ts declares for a table of result
    records, as far as they bear on what the functions write: which of the
    three strings the validator of [isProcessed] lets pass, and whether the
    fields [titleEmbedding], [descriptionEmbedding] and [combinedEmbedding]
    are declared.  Every other field the functions write is declared with a
    validator that the value passes. *)
Record Schema : Set := mkSchema {
  accepts : Processed -> bool;
  embeddings : bool
}.

(** convex/schema.ts as it is, for jobsResults and for linkedinProfiles:
    [isProcessed: v.optional(v.boolean())], which no string passes, and
    [embedding] and [embeddingText] as the only embedding fields. *)
Definition shipped : Schema := mkSchema (fun _ => false) false.

(** The validators the functions themselves declare for their arguments and
    answers (saveJobResult, saveLinkedInProfile, getJobResults,
    findJobByShareLink): [isProcessed] one of the three strings, the three
    embeddings arrays of numbers. *)
Definition tri_state : Schema := mkSchema (fun _ => true) true.

(** A schema under which a record that may be selected may also be marked
    in flight; both schemas above are such. *)
Definition coherent (schema : Schema) : Prop :=
  accepts schema Pfalse = true -> accepts schema Ppending = true.

(** The answer of a process-unprocessed route, as far as the caller reads
    it. *)
Record ApiBody : Set := mkBody {
  success : bool;
  error : option string;
  processedCount : nat;
  failedCount : nat
}.

(** What [fetch] gives the Convex action, as far as the action reads it:
    a rejection; a response that is not [ok] (its status is outside 200 to
    299), with [status], [statusText] and the text of its body; or a response
    that is [ok], with the outcome of [response.json()]. *)
Inductive HttpReply : Set :=
  | FetchRejected (msg : string)
  | NotOk (status : N) (statusText : string) (errorText : string)
  | Ok (json : Outcome ApiBody).

(** The environment variables of the Convex deployment. *)
Record Env : Set := mkEnv {
  CS_API_BASE_URL : option string;
  VERCEL_AUTOMATION_BYPASS_SECRET : option string
}.

Definition env_missing (v : option string) : bool :=
  match v with
  | Some s => bool_decide (s = EmptyString)
  | None => true
  end.

(** The summary a batch run returns. *)
Record BatchSummary : Set := mkSummary {
  processed : nat;
  errors : nat
}.

(** The errors [ctx.db.patch] and [ctx.db.insert] throw for a missing
    document and for a document the schema rejects.  Their messages are made
    by Convex, not by the repository; no function modelled here reads them,
    the functions only pass them on, and the two strings below stand for
    them. *)
Definition missing_document : string := "Update on nonexistent document".
Definition schema_violation : string := "Document does not match the schema".

Section Scheduler.
Context {P Raw AI : Type}.
Variable schema : Schema.

Local Abbreviation Row := (ResultRecord P Raw AI).

(** A stored record passes the schema. *)
Definition valid (d : Row) : bool :=
  match isProcessed d with
  | Some v => accepts schema v
  | None => true
  end.

(** [ctx.db.patch(id, fields)], [ok] saying whether the fields pass the
    schema; the document they are written to passed it when it was stored. *)
Definition write (ok : bool) (i : nat) (f : Row -> Row) (t : list Row)
    : Outcome (list Row) :=
  match Db.patch i f t with
  | None => Thrown missing_document
  | Some t' => if ok then Returned t' else Thrown schema_violation
  end.

(** The selection filter of processUnprocessedJobs and
    processUnprocessedLinkedInProfiles:
    [q.and(q.eq(q.field("isProcessed"), "false"), q.neq(q.field("rawData"), null))]. *)
Definition unprocessed (d : Row) : bool :=
  bool_decide (isProcessed d = Some Pfalse) && neq_null (rawData d).

Definition mark_pending (now : Z) (d : Row) : Row :=
  {| identity := identity d; rawData := rawData d; aiData := aiData d;
     isProcessed := Some Ppending; processingError := processingError d;
     createdAt := createdAt d; updatedAt := now |}.

Definition note_error (msg : string) (now : Z) (d : Row) : Row :=
  {| identity := identity d; rawData := rawData d; aiData := aiData d;
     isProcessed := isProcessed d; processingError := Some msg;
     createdAt := createdAt d; updatedAt := now |}.

(** markJobError / markLinkedInProfileError (internal mutation). *)
Definition mark_error (msg : string) (now : Z) (d : Row) : Row :=
  {| identity := identity d; rawData := rawData d; aiData := aiData d;
     isProcessed := Some Pfalse; processingError := Some msg;
     createdAt := createdAt d; updatedAt := now |}.

Definition markError (now : Z) (id : nat) (msg : string) (t : list Row)
    : Outcome (list Row) :=
  write (accepts schema Pfalse) id (mark_error msg now) t.

(** updateJobResultWithAI (mutation), called with the three embeddings. *)
Definition mark_processed (ai : AI) (now : Z) (d : Row) : Row :=
  {| identity := identity d; rawData := rawData d; aiData := Some ai;
     isProcessed := Some Ptrue; processingError := processingError d;
     createdAt := createdAt d; updatedAt := now |}.

Definition updateWithAI (now : Z) (id : nat) (ai : AI) (t : list Row)
    : Outcome (list Row) :=
  write (accepts schema Ptrue && embeddings schema) id (mark_processed ai now) t.

(** [args.batchSize || default]. *)
Definition batch_size (batchSize : option nat) (default : nat) : nat :=
  match batchSize with
  | Some (S n) => S n
  | _ => default
  end.

(** The loop over the selected records.  The state is the table, the
    actions scheduled with [ctx.scheduler.runAfter(0, ...)] and the two
    counters; [None] is an exception that leaves the mutation (thrown by the
    patch in the catch block, which writes [processingError] and
    [updatedAt]). *)
Fixpoint schedule_each (now : Z) (selected : list (nat * Row))
    (t : list Row) (queue : list nat) (s : BatchSummary)
    : option (list Row * list nat * BatchSummary) :=
  match selected with
  | [] => Some (t, queue, s)
  | (id, _) :: rest =>
      match write (accepts schema Ppending) id (mark_pending now) t with
      | Returned t1 =>
          schedule_each now rest t1 (queue ++ [id])
            (mkSummary (S (processed s)) (errors s))
      | Thrown msg =>
          match Db.patch id (note_error msg now) t with
          | Some t1 =>
              schedule_each now rest t1 queue (mkSummary (processed s) (S (errors s)))
          | None => None
          end
      end
  end.

(** What one round of the loop writes on the record it is at: the patch of
    the try block or, when the schema rejects that one, the patch of the
    catch block. *)
Definition round (now : Z) (d : Row) : Row :=
  if accepts schema Ppending then mark_pending now d
  else note_error schema_violation now d.

(** processUnprocessedJobs (default 50) /
    processUnprocessedLinkedInProfiles (default 5). *)
Definition processUnprocessed (default : nat) (now : Z) (batchSize : option nat)
    (t : list Row) : option (list Row * list nat * BatchSummary) :=
  let n := batch_size batchSize default in
  let selected := Db.filter_take unprocessed n t in
  match selected with
  | [] => Some (t, [], mkSummary 0 0)
  | _ => schedule_each now selected t [] (mkSummary 0 0)
  end.

(** What a batch run over the table [t] with batch size [n] has to
    satisfy: it ends without an exception; the scheduled records are the
    selected ones, at most [n]; each of them was unprocessed and had raw data
    that is not [null]; none of them was processed or pending; each of them is
    pending in the resulting table. *)
Definition sound_batch (n : nat) (t : list Row)
    (out : option (list Row * list nat * BatchSummary)) : Prop :=
  exists t' queue s,
    out = Some (t', queue, s) /\
    queue = fst <$> Db.filter_take unprocessed n t /\
    (length queue <= n)%nat /\
    s = mkSummary (length queue) 0 /\
    (forall i, i ∈ queue ->
       exists d, t !! i = Some d /\ isProcessed d = Some Pfalse /\ rawData d <> JsNull) /\
    (forall i d, t !! i = Some d ->
       isProcessed d = Some Ptrue \/ isProcessed d = Some Ppending -> i ∉ queue) /\
    (forall i, i ∈ queue ->
       exists d', t' !! i = Some d' /\ isProcessed d' = Some Ppending).

(** What a batch run over the table [t] with batch size [n] satisfies
    under every schema: it ends without an exception; at most [n] records are
    selected, each of them unprocessed with raw data that is not [null], none
    of them processed or pending; a record is scheduled only if it was
    selected and is pending in the resulting table; a selected record that is
    not scheduled is one whose patch the schema rejected, counted as an
    error, left unprocessed with the error noted on it. *)
Definition checked_batch (n : nat) (t : list Row)
    (out : option (list Row * list nat * BatchSummary)) : Prop :=
  exists t' queue s,
    out = Some (t', queue, s) /\
    (length (Db.filter_take unprocessed n t) <= n)%nat /\
    s = mkSummary (length queue)
          (length (Db.filter_take unprocessed n t) - length queue) /\
    (forall i, i ∈ fst <$> Db.filter_take unprocessed n t ->
       exists d, t !! i = Some d /\ isProcessed d = Some Pfalse /\ rawData d <> JsNull) /\
    (forall i d, t !! i = Some d ->
       isProcessed d = Some Ptrue \/ isProcessed d = Some Ppending ->
       i ∉ fst <$> Db.filter_take unprocessed n t) /\
    (forall i, i ∈ queue ->
       i ∈ fst <$> Db.filter_take unprocessed n t /\
       exists d', t' !! i = Some d' /\ isProcessed d' = Some Ppending) /\
    (forall i, i ∈ fst <$> Db.filter_take unprocessed n t -> i ∉ queue ->
       accepts schema Ppending = false /\
       exists d', t' !! i = Some d' /\ isProcessed d' = Some Pfalse /\
                  processingError d' = Some schema_violation).

(** processJobWithAI / processLinkedInProfileWithAI (internal action): the
    try block, as the outcome of the call to the API. *)
Definition call_api (fallback : string) (env : Env) (reply : HttpReply) : Outcome unit :=
  if env_missing (CS_API_BASE_URL env)
  then Thrown "CS_API_BASE_URL environment variable not set"
  else if env_missing (VERCEL_AUTOMATION_BYPASS_SECRET env)
  then Thrown "VERCEL_AUTOMATION_BYPASS_SECRET environment variable not set"
  else
    match reply with
    | FetchRejected msg => Thrown msg
    | NotOk status statusText errorText =>
        Thrown ("API call failed: " ++ pretty status ++ " " ++ statusText
                ++ " - " ++ errorText)
    | Ok (Thrown msg) => Thrown msg
    | Ok (Returned body) =>
        if negb (success body)
        then Thrown (match error body with
                     | Some e => str_or e fallback
                     | None => fallback
                     end)
        else Returned tt
    end.

(** The whole action: on an exception of the try block the catch block runs
    markError and throws again; when markError throws, its exception is the
    one that leaves the action. *)
Definition processWithAI (fallback : string) (env : Env) (reply : HttpReply)
    (now : Z) (id : nat) (t : list Row) : Outcome unit * list Row :=
  match call_api fallback env reply with
  | Returned _ => (Returned tt, t)
  | Thrown msg =>
      match markError now id msg t with
      | Returned t' => (Thrown msg, t')
      | Thrown failure => (Thrown failure, t)
      end
  end.
End Scheduler.
End Results.

(** ** Job searches and job results (lib/jobs/jobSearch.ts, job-storage.ts) *)

Module Jobs.
(** The arguments of the job-search mutations, which are also the fields of
    the [by_search_unique] index. *)
Record SearchKey : Set := mkKey {
  query : string;
  location : string;
  numResults : Z;
  countryCode : option string
}.

(** The summary updateJobSearchResults of job-storage.ts stores. *)
Record Summary : Set := mkSummary {
  totalFound : nat;
  jobCount : nat
}.

Abbreviation Searches := (list (SearchUnit SearchKey Summary)).

(** The index range
    [q.eq("query", ..).eq("location", ..).eq("countryCode", ..).eq("numResults", ..)]. *)
Definition by_search_unique (q l : string) (cc : option string) (n : Z)
    (d : SearchUnit SearchKey Summary) : bool :=
  bool_decide (query (params d) = q)
  && bool_decide (location (params d) = l)
  && bool_decide (countryCode (params d) = cc)
  && bool_decide (numResults (params d) = n).

(** The range both lookups give for the arguments of a call; the country
    code is passed as [args.countryCode || undefined]. *)
Definition search_range (args : SearchKey) : SearchUnit SearchKey Summary -> bool :=
  by_search_unique (query args) (location args)
    (or_undefined (countryCode args)) (numResults args).

(** findExistingJobSearch (query): the newest match, with [isStale]. *)
Definition findExistingJobSearch (now : Z) (args : SearchKey) (t : Searches)
    : option (nat * SearchUnit SearchKey Summary * bool) :=
  match Db.first_desc (search_range args) t with
  | None => None
  | Some (i, search) =>
      let twentyFourHoursAgo := now - oneDay in
      Some (i, search, createdAt search <? twentyFourHoursAgo)
  end.

Record FoundOrCreated : Set := mkFound {
  searchId : nat;
  foundExisting : bool;
  foundStatus : Status
}.

(** [existing.updatedAt || existing.createdAt]. *)
Definition completedAt (d : SearchUnit SearchKey Summary) : Z :=
  if updatedAt d =? 0 then createdAt d else updatedAt d.

(** [existing.expiresAt && existing.expiresAt > Date.now()]. *)
Definition still_pending (e : option Z) (now : Z) : bool :=
  match e with
  | Some x => negb (x =? 0) && (x >? now)
  | None => false
  end.

(** findOrCreateJobSearch (mutation); [pending_search] is the document it
    inserts. *)
Definition pending_search (now : Z) (args : SearchKey) (uid : option string)
    : SearchUnit SearchKey Summary :=
  {| params := args; data := DataNull; status := Some pending;
     expiresAt := Some (now + fiveMinutes); userId := uid;
     createdAt := now; updatedAt := now |}.

Definition findOrCreateJobSearch (now : Z) (args : SearchKey) (uid : option string)
    (t : Searches) : FoundOrCreated * Searches :=
  let existing := Db.first (search_range args) t in
  let create :=
    let '(id, t') := Db.insert t (pending_search now args uid) in
    (mkFound id false pending, t') in
  match existing with
  | Some (i, ex) =>
      let twentyFourHoursAgo := now - oneDay in
      if status_is complete ex && (completedAt ex >? twentyFourHoursAgo)
      then (mkFound i true complete, t)
      else if status_is pending ex && still_pending (expiresAt ex) now
      then (mkFound i true pending, t)
      else create
  | None => create
  end.

(** updateJobSearchResults (mutation): also clears [expiresAt]. *)
Definition set_result (dat : Data Summary) (s : Status) (now : Z)
    (d : SearchUnit SearchKey Summary) : SearchUnit SearchKey Summary :=
  {| params := params d; data := dat; status := Some s;
     expiresAt := None; userId := userId d;
     createdAt := createdAt d; updatedAt := now |}.

Definition updateJobSearchResults (now : Z) (id : nat) (dat : Data Summary)
    (s : Status) (t : Searches) : option Searches :=
  Db.patch id (set_result dat s now) t.

(** markJobSearchFailed (job-storage.ts). *)
Definition markJobSearchFailed (now : Z) (id : nat) (msg : string) (t : Searches)
    : option Searches :=
  updateJobSearchResults now id (DataError (str_or msg "Job search failed")) failed t.

(** *** Job results *)

(** A raw job as the provider gateway returns it. *)
Record RawJobData : Set := mkRaw {
  id : string;
  job_id : option string;
  raw_title : string;
  raw_provider : string
}.

(** The fields proper to a job result; the descriptive fields other than
    [title] are stored the same way and never read. *)
Record JobIdentity : Set := mkIdentity {
  jobId : string;
  title : string;
  provider : string;
  ownerSearch : option nat;
  jobUser : option string;
  jobCountry : option string
}.

Definition StructuredJob : Set := string.
Definition JobRow : Type := Results.ResultRecord JobIdentity RawJobData StructuredJob.

Record SaveArgs : Set := mkSave {
  arg_jobId : string;
  arg_title : string;
  arg_provider : string;
  arg_rawData : JsAny RawJobData;
  arg_searchId : nat;
  arg_userId : option string;
  arg_countryCode : option string
}.

(** The index range [q.eq("jobId", ..).eq("provider", ..).eq("countryCode", ..)]. *)
Definition by_job_unique (j p : string) (cc : option string) (d : JobRow) : bool :=
  bool_decide (jobId (Results.identity d) = j)
  && bool_decide (provider (Results.identity d) = p)
  && bool_decide (jobCountry (Results.identity d) = cc).

(** The range saveJobIfNotExists gives for its arguments. *)
Definition job_range (args : SaveArgs) : JobRow -> bool :=
  by_job_unique (arg_jobId args) (arg_provider args)
    (or_undefined (arg_countryCode args)).

(** The document saveJobIfNotExists and saveJobResult insert, the latter
    for a call that gives neither AI data nor embeddings. *)
Definition job_document (now : Z) (args : SaveArgs) (state : option Results.Processed)
    : JobRow :=
  {| Results.identity :=
       {| jobId := arg_jobId args; title := arg_title args;
          provider := arg_provider args;
          ownerSearch := Some (arg_searchId args);
          jobUser := arg_userId args;
          jobCountry := arg_countryCode args |};
     Results.rawData := arg_rawData args; Results.aiData := None;
     Results.isProcessed := state; Results.processingError := None;
     Results.createdAt := now; Results.updatedAt := now |}.

(** [ctx.db.insert("jobsResults", doc)]. *)
Definition insert_job (schema : Results.Schema) (doc : JobRow) (t : list JobRow)
    : Outcome nat * list JobRow :=
  if Results.valid schema doc
  then let '(i, t') := Db.insert t doc in (Returned i, t')
  else (Thrown Results.schema_violation, t).

(** saveJobResult (mutation): [isProcessed] is in the document when the
    call gives it. *)
Definition saveJobResult (schema : Results.Schema) (now : Z) (args : SaveArgs)
    (isProcessed : option Results.Processed) (t : list JobRow)
    : Outcome nat * list JobRow :=
  insert_job schema (job_document now args isProcessed) t.

(** saveJobIfNotExists (mutation): the id and [isNew]; [new_job] is the
    document it inserts, with [isProcessed: "false"]. *)
Definition new_job (now : Z) (args : SaveArgs) : JobRow :=
  job_document now args (Some Results.Pfalse).

Definition saveJobIfNotExists (schema : Results.Schema) (now : Z) (args : SaveArgs)
    (t : list JobRow) : Outcome (nat * bool) * list JobRow :=
  match Db.first (job_range args) t with
  | Some (i, _) => (Returned (i, false), t)
  | None =>
      match insert_job schema (new_job now args) t with
      | (Returned i, t') => (Returned (i, true), t')
      | (Thrown msg, t') => (Thrown msg, t')
      end
  end.

(** The arguments storeRawJobResult gives saveJobIfNotExists.  [generated]
    is the id made from the clock and [Math.random()] when the raw job carries
    none. *)
Definition raw_args (generated : string) (rawJob : RawJobData) (search : nat)
    (uid cc : option string) : SaveArgs :=
  {| arg_jobId :=
       str_or (id rawJob)
         (match job_id rawJob with
          | Some j => str_or j generated
          | None => generated
          end);
     arg_title := str_or (raw_title rawJob) "Unknown Title";
     arg_provider := raw_provider rawJob;
     arg_rawData := JsObject rawJob;
     arg_searchId := search;
     arg_userId := uid;
     arg_countryCode := cc |}.

(** storeRawJobResult (job-storage.ts): whatever the mutation throws, the
    wrapper throws its own message. *)
Definition storeRawJobResult (schema : Results.Schema) (generated : string) (now : Z)
    (rawJob : RawJobData) (search : nat) (uid cc : option string) (t : list JobRow)
    : Outcome nat * list JobRow :=
  match saveJobIfNotExists schema now (raw_args generated rawJob search uid cc) t with
  | (Returned (i, _), t') => (Returned i, t')
  | (Thrown _, t') => (Thrown "Failed to store raw job result", t')
  end.

(** *** The service function searchJobs *)

Record JobSearchParams : Set := mkParams {
  p_query : string;
  p_location : string;
  p_numResults : option Z;
  p_countryCode : option string
}.

(** White space as [String.prototype.trim] sees it, for strings whose code
    units are below 256: TAB, LF, VT, FF, CR, SPACE and NBSP. *)
Definition is_space (c : Ascii.ascii) : bool :=
  let n := Ascii.nat_of_ascii c in
  ((9 <=? n)%nat && (n <=? 13)%nat) || (n =? 32)%nat || (n =? 160)%nat.

(** [s.trim().length === 0]. *)
Fixpoint blank (s : string) : bool :=
  match s with
  | EmptyString => true
  | String c s' => is_space c && blank s'
  end.

(** validateJobSearchParams. *)
Definition validateJobSearchParams (p : JobSearchParams) : Outcome JobSearchParams :=
  if bool_decide (p_query p = EmptyString) || blank (p_query p)
  then Thrown "Search query is required and must be a non-empty string"
  else if bool_decide (p_location p = EmptyString) || blank (p_location p)
  then Thrown "Location is required and must be a non-empty string"
  else if match p_countryCode p with
          | Some c => negb (bool_decide (c = EmptyString)) && blank c
          | None => false
          end
  then Thrown "Country code must be a non-empty string if provided"
  else Returned {| p_query := p_query p; p_location := p_location p;
                   p_numResults := Some 30; p_countryCode := p_countryCode p |}.

(** executeJobSearch: [serp] is the outcome of searchWithSerpAPI. *)
Definition executeJobSearch (serp : Outcome (list RawJobData)) (p : JobSearchParams)
    : Outcome (Summary * list RawJobData) :=
  match serp with
  | Thrown _ => Thrown "Job search provider failed"
  | Returned rawJobs =>
      let shown :=
        match p_numResults p with
        | Some n => take (Z.to_nat n) rawJobs
        | None => rawJobs
        end in
      Returned (mkSummary (length rawJobs) (length shown), rawJobs)
  end.

(** The id in the answer of searchJobs: a stored search, or the generated
    ["job-search-..."] string of the outer catch block, which names no
    document. *)
Inductive SearchRef : Set :=
  | Stored (id : nat)
  | Generated.

Record JobsDb : Type := mkDb {
  searches : Searches;
  results : list JobRow
}.

(** The clock values of the Convex calls searchJobs makes; [tStore k] is
    that of the mutation that stores raw job [k]. *)
Record Clock : Set := mkClock {
  tFind : Z;
  tUpdate : Z;
  tStore : nat -> Z;
  tFail : Z
}.

(** The loop that stores the raw jobs, each in its own try/catch, from raw
    job [k] on; [generated k] is the id made for raw job [k] should it carry
    none. *)
Fixpoint store_all (schema : Results.Schema) (generated : nat -> string)
    (now : nat -> Z) (k : nat) (search : nat) (uid cc : option string)
    (rawJobs : list RawJobData) (t : list JobRow) : list JobRow :=
  match rawJobs with
  | [] => t
  | rawJob :: rest =>
      store_all schema generated now (S k) search uid cc rest
        (snd (storeRawJobResult schema (generated k) (now k) rawJob search uid cc t))
  end.

(** searchJobs.  The outer catch block answers with a generated id and
    status failed. *)
Definition searchJobs (schema : Results.Schema) (serp : Outcome (list RawJobData))
    (generated : nat -> string) (clock : Clock) (p : JobSearchParams)
    (uid : option string) (db : JobsDb) : Response SearchRef Summary * JobsDb :=
  let setup_failed := (mkResponse Generated failed false None, db) in
  match validateJobSearchParams p with
  | Thrown _ => setup_failed
  | Returned vp =>
      match p_numResults vp with
      | None => setup_failed
      | Some n =>
          let '(found, s1) :=
            findOrCreateJobSearch (tFind clock)
              (mkKey (p_query vp) (p_location vp) n (p_countryCode vp)) uid
              (searches db) in
          let sid := searchId found in
          let db1 := mkDb s1 (results db) in
          let cached :=
            if foundExisting found && bool_decide (foundStatus found = complete)
            then match Db.get s1 sid with
                 | Some ex => if data_truthy (data ex) then Some (data ex) else None
                 | None => None
                 end
            else None in
          match cached with
          | Some dat => (mkResponse (Stored sid) complete true (Some dat), db1)
          | None =>
              if foundExisting found && bool_decide (foundStatus found = pending)
              then (mkResponse (Stored sid) pending true None, db1)
              else
                let fail msg :=
                  match markJobSearchFailed (tFail clock) sid msg s1 with
                  | Some s2 =>
                      (mkResponse (Stored sid) failed false None, mkDb s2 (results db))
                  | None => (mkResponse Generated failed false None, db1)
                  end in
                match executeJobSearch serp vp with
                | Thrown msg => fail msg
                | Returned (summary, rawJobs) =>
                    match updateJobSearchResults (tUpdate clock) sid
                            (DataResult summary) complete s1 with
                    | None => fail "Failed to update job search results"
                    | Some s2 =>
                        let r2 :=
                          store_all schema generated (tStore clock) 0 sid uid
                            (p_countryCode vp) rawJobs (results db) in
                        (mkResponse (Stored sid) complete false
                           (Some (DataResult summary)), mkDb s2 r2)
                    end
                end
          end
      end
  end.

(** *** Enrichment of job results *)

(** The records the route POST /api/jobs/process-unprocessed works on:
    [job && job.isProcessed !== "true" && job.rawData]. *)
Definition eligible (d : JobRow) : bool :=
  negb (bool_decide (Results.isProcessed d = Some Results.Ptrue))
  && js_truthy (Results.rawData d).

Definition jobsToProcess (jobIds : list nat) (limit : option nat) (t : list JobRow)
    : list (nat * JobRow) :=
  match jobIds with
  | [] =>
      List.filter (fun x => eligible (snd x))
        (Db.take_desc (Results.batch_size limit 2) t)
  | _ =>
      flat_map
        (fun i => match Db.get t i with
                  | Some job => if eligible job then [(i, job)] else []
                  | None => []
                  end)
        jobIds
  end.

(** What the route has from outside for the job it works on in round [k]
    of its loop: the outcome of parseJobWithAI on the raw data, that of the
    three calls of generateEmbedding, and the clock of the mutation
    updateJobResultWithAI. *)
Record Enrichment : Type := mkEnrichment {
  parse : nat -> RawJobData -> Outcome StructuredJob;
  embed : nat -> Outcome unit;
  tPatch : nat -> Z
}.

(** updateJobResultWithAI of job-storage.ts: three embeddings, then the
    mutation; whatever throws inside, the wrapper throws its own message. *)
Definition storeEnriched (schema : Results.Schema) (x : Enrichment) (k : nat) (i : nat)
    (ai : StructuredJob) (t : list JobRow) : Outcome (list JobRow) :=
  match embed x k with
  | Returned _ =>
      match Results.updateWithAI schema (tPatch x k) i ai t with
      | Returned t' => Returned t'
      | Thrown _ => Thrown "Failed to update job result with AI"
      end
  | Thrown _ => Thrown "Failed to update job result with AI"
  end.

(** The loop of the route, from round [k] on: parseJobWithAI, then
    updateJobResultWithAI of job-storage.ts; an exception of either is caught
    and counted ([None] below). *)
Fixpoint enrich_each (schema : Results.Schema) (x : Enrichment) (k : nat)
    (jobs : list (nat * JobRow)) (t : list JobRow) (done failures : nat)
    : list JobRow * nat * nat :=
  match jobs with
  | [] => (t, done, failures)
  | (i, job) :: rest =>
      let attempt :=
        match Results.rawData job with
        | JsObject raw =>
            match parse x k raw with
            | Returned ai =>
                match storeEnriched schema x k i ai t with
                | Returned t' => Some t'
                | Thrown _ => None
                end
            | Thrown _ => None
            end
        | _ => None
        end in
      match attempt with
      | Some t' => enrich_each schema x (S k) rest t' (S done) failures
      | None => enrich_each schema x (S k) rest t done (S failures)
      end
  end.

(** POST /api/jobs/process-unprocessed, for a well-formed body: the answer,
    with status 200, and the table. *)
Definition processUnprocessedRoute (schema : Results.Schema) (x : Enrichment)
    (jobIds : list nat) (limit : option nat) (t : list JobRow)
    : Results.ApiBody * list JobRow :=
  let '(t', done, failures) :=
    enrich_each schema x 0 (jobsToProcess jobIds limit t) t 0%nat 0%nat in
  (Results.mkBody true None done failures, t').

(** What becomes of the request of the action: it reaches the route, whose
    answer comes back, or it does not, and [fetch] rejects or brings the
    reply of what stands in front of the route. *)
Inductive Delivery : Set :=
  | Reached
  | Missed (reply : Results.HttpReply).

(** processJobWithAI (internal action), with the route it calls for
    [{ jobIds: [jobId], limit: 1 }]. *)
Definition processJobWithAI (schema : Results.Schema) (env : Results.Env)
    (delivery : Delivery) (x : Enrichment) (tMark : Z) (job : nat) (t : list JobRow)
    : Outcome unit * list JobRow :=
  let '(reply, t1) :=
    if Results.env_missing (Results.CS_API_BASE_URL env)
       || Results.env_missing (Results.VERCEL_AUTOMATION_BYPASS_SECRET env)
    then (Results.FetchRejected EmptyString, t)
    else match delivery with
         | Missed reply => (reply, t)
         | Reached =>
             let '(body, t') := processUnprocessedRoute schema x [job] (Some 1%nat) t in
             (Results.Ok (Returned body), t')
         end in
  Results.processWithAI schema "Failed to process job" env reply tMark job t1.

(** processUnprocessedJobs (internal mutation). *)
Definition processUnprocessedJobs (schema : Results.Schema) (now : Z)
    (batchSize : option nat) (t : list JobRow)
    : option (list JobRow * list nat * Results.BatchSummary) :=
  Results.processUnprocessed schema 50 now batchSize t.

Definition markJobError (schema : Results.Schema) (now : Z) (job : nat) (msg : string)
    (t : list JobRow) : Outcome (list JobRow) :=
  Results.markError schema now job msg t.
End Jobs.

(** ** LinkedIn profiles: the scheduler side *)

Module Profiles.
Record ProfileIdentity : Set := mkIdentity {
  url : string;
  author : string
}.

Definition RawProfile : Set := string.
Definition StructuredProfile : Set := string.
Definition ProfileRow : Type :=
  Results.ResultRecord ProfileIdentity RawProfile StructuredProfile.

(** processUnprocessedLinkedInProfiles (internal mutation). *)
Definition processUnprocessedLinkedInProfiles (schema : Results.Schema) (now : Z)
    (batchSize : option nat) (t : list ProfileRow)
    : option (list ProfileRow * list nat * Results.BatchSummary) :=
  Results.processUnprocessed schema 5 now batchSize t.

Definition markLinkedInProfileError (schema : Results.Schema) (now : Z) (profile : nat)
    (msg : string) (t : list ProfileRow) : Outcome (list ProfileRow) :=
  Results.markError schema now profile msg t.

(** processLinkedInProfileWithAI (internal action); [reply] is what the
    call to /api/linkedin/process-unprocessed gives, the table being the one
    that call leaves. *)
Definition processLinkedInProfileWithAI (schema : Results.Schema) (env : Results.Env)
    (reply : Results.HttpReply) (now : Z) (profile : nat) (t : list ProfileRow)
    : Outcome unit * list ProfileRow :=
  Results.processWithAI schema "Failed to process profile" env reply now profile t.
End Profiles.

(** ** Embedding helpers (lib/core/embeddings.ts and convex/functions.ts)

    JavaScript numbers are IEEE 754 binary64 values, as are Rocq's primitive
    floats: the arithmetic below is the one the code performs. *)

Module Embeddings.
Local Open Scope float_scope.

(** The loop shared by both functions: the three accumulators after the
    elements of [a] and [b] have been visited in order. *)
Fixpoint accumulate (a b : list float) (dotProduct normA normB : float)
    : float * float * float :=
  match a, b with
  | x :: a', y :: b' =>
      accumulate a' b' (dotProduct + x * y) (normA + x * x) (normB + y * y)
  | _, _ => (dotProduct, normA, normB)
  end.

Definition finish (acc : float * float * float) : float :=
  let '(dotProduct, normA, normB) := acc in
  let normA := PrimFloat.sqrt normA in
  let normB := PrimFloat.sqrt normB in
  if PrimFloat.eqb normA 0 || PrimFloat.eqb normB 0 then 0
  else dotProduct / (normA * normB).

(** cosineSimilarity of convex/functions.ts. *)
Definition cosineSimilarity (a b : list float) : float :=
  if negb (Nat.eqb (length a) (length b)) then 0
  else finish (accumulate a b 0 0 0).

(** calculateCosineSimilarity of lib/core/embeddings.ts. *)
Definition calculateCosineSimilarity (a b : list float) : Outcome float :=
  if negb (Nat.eqb (length a) (length b))
  then Thrown "Vectors must have the same length"
  else Returned (finish (accumulate a b 0 0 0)).

(** The quantities the specification names, each computed by itself. *)
Definition dot (a b : list float) : float :=
  fold_left (fun acc xy => acc + fst xy * snd xy) (combine a b) 0.

Definition norm (a : list float) : float :=
  PrimFloat.sqrt (fold_left (fun acc x => acc + x * x) a 0).
End Embeddings.

(** ** The cleanup mutations, as they run *)

Module Cleanup.
Section Cleanup.
Context {K R : Type}.

Local Abbreviation Unit := (SearchUnit K R).

(** [ctx.db.query(table).withIndex("by_status", q => q.eq("status", "pending"))
    .filter(q => q.lt(q.field("expiresAt"), now)).collect()]. *)
Definition expiredEntries (now : Z) (t : list Unit) : list (nat * Unit) :=
  List.filter
    (fun x => status_is pending (snd x) && expired_in_filter (expiresAt (snd x)) now)
    (Db.docs t).

(** [ctx.db.patch(entry._id, { status: "failed", updatedAt: now })]. *)
Definition mark_failed (now : Z) (d : Unit) : Unit :=
  {| params := params d; data := data d; status := Some failed;
     expiresAt := expiresAt d; userId := userId d;
     createdAt := createdAt d; updatedAt := now |}.

(** [Promise.all(expiredEntries.map(entry => ctx.db.patch(...)))]: [None]
    when a patch throws. *)
Fixpoint patch_all (now : Z) (entries : list (nat * Unit)) (t : list Unit)
    : option (list Unit) :=
  match entries with
  | [] => Some t
  | (i, _) :: rest =>
      match Db.patch i (mark_failed now) t with
      | Some t1 => patch_all now rest t1
      | None => None
      end
  end.

(** cleanupExpiredEntries / cleanupExpiredLinkedInEntries (mutation): the
    number it reports as [updated], and the table it leaves. *)
Definition cleanupExpiredEntries (now : Z) (t : list Unit) : option (nat * list Unit) :=
  let entries := expiredEntries now t in
  match patch_all now entries t with
  | Some t' => Some (length entries, t')
  | None => None
  end.
End Cleanup.
End Cleanup.

(** ** LinkedIn profiles: upkeep (convex/functions.ts, app/api/linkedin) *)

Module Upkeep.
Import Profiles.

(** [3 * 30 * 24 * 60 * 60 * 1000]. *)
Definition threeMonths : Z := 3 * 30 * 24 * 60 * 60 * 1000.

(** [q.lt(q.field("updatedAt"), threeMonthsAgo)]. *)
Definition stale (now : Z) (d : ProfileRow) : bool :=
  Results.updatedAt d <? now - threeMonths.

(** [ctx.db.patch(profile._id, { updatedAt: Date.now(), staleUpdateProcessedAt:
    Date.now() })].  The fields [staleUpdateProcessedAt] and
    [staleUpdateError], which only the statistics route reads, are not part
    of the record. *)
Definition touch (now : Z) (d : ProfileRow) : ProfileRow :=
  {| Results.identity := Results.identity d; Results.rawData := Results.rawData d;
     Results.aiData := Results.aiData d; Results.isProcessed := Results.isProcessed d;
     Results.processingError := Results.processingError d;
     Results.createdAt := Results.createdAt d; Results.updatedAt := now |}.

(** The loop of updateStaleLinkedInProfiles; the patch of its catch block
    writes [staleUpdateError] and [updatedAt]. *)
Fixpoint touch_each (now : Z) (selected : list (nat * ProfileRow)) (t : list ProfileRow)
    (s : Results.BatchSummary) : option (list ProfileRow * Results.BatchSummary) :=
  match selected with
  | [] => Some (t, s)
  | (id, _) :: rest =>
      match Db.patch id (touch now) t with
      | Some t1 =>
          touch_each now rest t1
            (Results.mkSummary (S (Results.processed s)) (Results.errors s))
      | None =>
          match Db.patch id (touch now) t with
          | Some t1 =>
              touch_each now rest t1
                (Results.mkSummary (Results.processed s) (S (Results.errors s)))
          | None => None
          end
      end
  end.

(** updateStaleLinkedInProfiles (internal mutation, run by the cron every
    24 hours with batch size 3): [processed] is its [updated]. *)
Definition updateStaleLinkedInProfiles (now : Z) (batchSize : option nat)
    (t : list ProfileRow) : option (list ProfileRow * Results.BatchSummary) :=
  let n := Results.batch_size batchSize 3 in
  let staleProfiles := Db.filter_take (stale now) n t in
  match staleProfiles with
  | [] => Some (t, Results.mkSummary 0 0)
  | _ => touch_each now staleProfiles t (Results.mkSummary 0 0)
  end.

(** triggerStaleProfileUpdates (mutation). *)
Definition triggerStaleProfileUpdates (now : Z) (batchSize : option nat)
    (t : list ProfileRow) : option (list ProfileRow * Results.BatchSummary) :=
  updateStaleLinkedInProfiles now (Some (Results.batch_size batchSize 5)) t.

(** POST /api/linkedin/stale: [Math.min(Math.max(batchSize, 1), 10)], the
    batch size of the body being 5 when absent. *)
Definition safeBatchSize (batchSize : option Z) : nat :=
  Z.to_nat (Z.min (Z.max (default 5 batchSize) 1) 10).

Definition staleRoute (now : Z) (batchSize : option Z) (t : list ProfileRow)
    : option (list ProfileRow * Results.BatchSummary) :=
  triggerStaleProfileUpdates now (Some (safeBatchSize batchSize)) t.

(** markProfileForProcessing (internal mutation): [None] when it throws,
    "Profile not found" or the exception of the patch. *)
Definition requeue (now : Z) (d : ProfileRow) : ProfileRow :=
  {| Results.identity := Results.identity d; Results.rawData := Results.rawData d;
     Results.aiData := Results.aiData d; Results.isProcessed := Some Results.Pfalse;
     Results.processingError := Results.processingError d;
     Results.createdAt := Results.createdAt d; Results.updatedAt := now |}.

Definition markProfileForProcessing (schema : Results.Schema) (now : Z) (profile : nat)
    (t : list ProfileRow) : option (list ProfileRow) :=
  match Db.get t profile with
  | None => None
  | Some _ =>
      match Results.write (Results.accepts schema Results.Pfalse) profile (requeue now) t with
      | Returned t' => Some t'
      | Thrown _ => None
      end
  end.

(** POST /api/linkedin/process-unprocessed: the profiles it works on,
    [getLinkedInProfiles({ limit })] filtered by
    [!p.isProcessed && p.rawData].  Each value of [isProcessed] is a string
    that is not empty, hence truthy. *)
Definition unset (x : option Results.Processed) : bool :=
  match x with
  | Some _ => false
  | None => true
  end.

Definition profilesToProcess (limit : option nat) (t : list ProfileRow)
    : list (nat * ProfileRow) :=
  List.filter
    (fun x => unset (Results.isProcessed (snd x)) && js_truthy (Results.rawData (snd x)))
    (Db.take_desc (Results.batch_size limit 2) t).
End Upkeep.

(** ** Text for embeddings (lib/core/embeddings.ts)

    A JavaScript string is the list of its code units; as for
    [Jobs.is_space], the code units are taken to be below 256. *)

Module Text.
(** SPACE, LINE FEED and FULL STOP. *)
Definition space : Ascii.ascii := Ascii.ascii_of_nat 32.
Definition newline : Ascii.ascii := Ascii.ascii_of_nat 10.
Definition full_stop : Ascii.ascii := Ascii.ascii_of_nat 46.

(** [.replace(/\s+/g, " ")]: every maximal run of white space becomes one
    space.  [in_run] says that the code unit before was white space. *)
Fixpoint collapse_from (in_run : bool) (s : list Ascii.ascii) : list Ascii.ascii :=
  match s with
  | [] => []
  | c :: s' =>
      if Jobs.is_space c
      then if in_run then collapse_from true s' else space :: collapse_from true s'
      else c :: collapse_from false s'
  end.

(** [.replace(/\n+/g, " ")]. *)
Fixpoint newlines_from (in_run : bool) (s : list Ascii.ascii) : list Ascii.ascii :=
  match s with
  | [] => []
  | c :: s' =>
      if Ascii.eqb c newline
      then if in_run then newlines_from true s' else space :: newlines_from true s'
      else c :: newlines_from false s'
  end.

(** [.trim()]. *)
Fixpoint trimStart (s : list Ascii.ascii) : list Ascii.ascii :=
  match s with
  | [] => []
  | c :: s' => if Jobs.is_space c then trimStart s' else s
  end.

Fixpoint trimEnd (s : list Ascii.ascii) : list Ascii.ascii :=
  match s with
  | [] => []
  | c :: s' =>
      match trimEnd s' with
      | [] => if Jobs.is_space c then [] else [c]
      | r => c :: r
      end
  end.

Definition trim (s : list Ascii.ascii) : list Ascii.ascii := trimEnd (trimStart s).

Definition ellipsis : list Ascii.ascii := [full_stop; full_stop; full_stop].

(** prepareTextForEmbedding; [maxLength] is 8000 when absent. *)
Definition prepareTextForEmbedding (text : list Ascii.ascii) (maxLength : option nat)
    : list Ascii.ascii :=
  let maxLength := default (80 * 100)%nat maxLength in
  let cleanedText := trim (newlines_from false (collapse_from false text)) in
  if (maxLength <? length cleanedText)%nat
  then take maxLength cleanedText ++ ellipsis
  else cleanedText.

(** A text in which white space occurs only as single spaces; [prev] says
    that the code unit before was a space. *)
Fixpoint spaced (prev : bool) (s : list Ascii.ascii) : bool :=
  match s with
  | [] => true
  | c :: s' =>
      if Jobs.is_space c
      then Ascii.eqb c space && negb prev && spaced true s'
      else spaced false s'
  end.
End Text.

(** ** Listing job results (getJobResults of convex/functions.ts) *)

Module Listing.
Import Jobs.

(** The filters of a call that gives none of [companyName], [location],
    [jobType], [experienceLevel], [industry] and [workArrangement], fields
    that the records here do not carry. *)
Record JobFilters : Set := mkFilters {
  f_userId : option string;
  f_searchId : option nat;
  f_title : option string;
  f_provider : option string;
  f_isProcessed : option Results.Processed;
  f_limit : option nat
}.

(** JavaScript truthiness of an optional string argument. *)
Definition given (x : option string) : bool :=
  match x with
  | Some s => negb (bool_decide (s = EmptyString))
  | None => false
  end.

(** [.withIndex(ix, q => q.eq(field, value)).order("desc").take(limit ?? 50)]. *)
Definition newest (p : JobRow -> bool) (limit : option nat) (t : list JobRow)
    : list (nat * JobRow) :=
  take (default 50%nat limit) (List.filter (fun x => p (snd x)) (rev (Db.docs t))).

(** getJobResults (query): only the first filter that is given is applied. *)
Definition getJobResults (a : JobFilters) (t : list JobRow) : list (nat * JobRow) :=
  if given (f_userId a)
  then newest (fun d => bool_decide (jobUser (Results.identity d) = f_userId a)) (f_limit a) t
  else
    match f_searchId a with
    | Some s =>
        newest (fun d => bool_decide (ownerSearch (Results.identity d) = Some s)) (f_limit a) t
    | None =>
        if given (f_title a)
        then newest (fun d => bool_decide (Some (title (Results.identity d)) = f_title a))
               (f_limit a) t
        else if given (f_provider a)
        then newest (fun d => bool_decide (Some (provider (Results.identity d)) = f_provider a))
               (f_limit a) t
        else
          match f_isProcessed a with
          | Some v => newest (fun d => bool_decide (Results.isProcessed d = Some v)) (f_limit a) t
          | None => Db.take_desc (default 50%nat (f_limit a)) t
          end
    end.

(** The call [getJobResults({ searchId })] of searchJobs and of the status
    route. *)
Definition of_search (s : nat) : JobFilters := mkFilters None (Some s) None None None None.
End Listing.

(** ** Similarity of location names (lib/jobs/location-matcher.ts) *)

Module Locations.
(** [toLowerCase] on a code unit below 256: A to Z, and the letters from
    U+00C0 to U+00DE other than the multiplication sign, move up by 32. *)
Definition lower (c : Ascii.ascii) : Ascii.ascii :=
  let n := Ascii.nat_of_ascii c in
  if ((65 <=? n)%nat && (n <=? 90)%nat)
     || ((192 <=? n)%nat && (n <=? 222)%nat && negb (n =? 215)%nat)
  then Ascii.ascii_of_nat (n + 32)
  else c.

(** [str.toLowerCase().trim()]. *)
Definition normalise (str : list Ascii.ascii) : list Ascii.ascii :=
  Text.trim (lower <$> str).

(** Row 0 of the matrix: [matrix[0][j] = j]. *)
Definition first_row (len2 : nat) : list nat := seq 0%nat (S len2).

(** The cells [matrix[i][j]], [j >= 1], of row [i], left to right: [above]
    holds the cells of row [i - 1] from column [j] on, [left] is
    [matrix[i][j - 1]] and [diag] is [matrix[i - 1][j - 1]]; [c1] is
    [s1[i - 1]] and [s2] holds the code units of the second string from
    [s2[j - 1]] on. *)
Fixpoint fill (c1 : Ascii.ascii) (s2 : list Ascii.ascii) (above : list nat)
    (left diag : nat) : list nat :=
  match s2, above with
  | c2 :: s2', up :: above' =>
      let cost := if Ascii.eqb c1 c2 then 0%nat else 1%nat in
      let cell := Nat.min (Nat.min (up + 1) (left + 1)) (diag + cost) in
      cell :: fill c1 s2' above' cell up
  | _, _ => []
  end.

(** Row [i] from row [i - 1]: [matrix[i][0] = i]. *)
Definition next_row (i : nat) (c1 : Ascii.ascii) (s2 : list Ascii.ascii)
    (above : list nat) : list nat :=
  match above with
  | diag :: above' => i :: fill c1 s2 above' i diag
  | [] => [i]
  end.

(** The last row of the matrix, [above] being row [i] and [s1] the code
    units of the first string from [s1[i]] on. *)
Fixpoint last_row (i : nat) (s1 s2 : list Ascii.ascii) (above : list nat) : list nat :=
  match s1 with
  | [] => above
  | c1 :: s1' => last_row (S i) s1' s2 (next_row (S i) c1 s2 above)
  end.

(** [matrix[len1][len2]]. *)
Definition distance (s1 s2 : list Ascii.ascii) : nat :=
  nth (length s2) (last_row 0 s1 s2 (first_row (length s2))) 0%nat.

(** A length or a difference of lengths as a JavaScript number. *)
Definition number (n : Z) : float := PrimFloat.of_uint63 (Uint63.of_Z n).

(** calculateSimilarity. *)
Definition calculateSimilarity (str1 str2 : list Ascii.ascii) : float :=
  let s1 := normalise str1 in
  let s2 := normalise str2 in
  if bool_decide (s1 = s2) then 1%float
  else
    let len1 := length s1 in
    let len2 := length s2 in
    if (len1 =? 0)%nat then (if (len2 =? 0)%nat then 1%float else 0%float)
    else if (len2 =? 0)%nat then 0%float
    else
      let maxLen := Nat.max len1 len2 in
      (number (Z.of_nat maxLen - Z.of_nat (distance s1 s2)) / number (Z.of_nat maxLen))%float.
End Locations.

(** ** Invariants and relations the further properties are stated with *)

(** Invariants of a table of search units under a clock that does not run
    backwards: no unit is updated before it is created or after [now], and
    (research reports and LinkedIn searches) the pending window of a unit is
    the five minutes after its creation. *)
Definition well_timed {K R} (now : Z) (d : SearchUnit K R) : Prop :=
  createdAt d <= updatedAt d /\ updatedAt d <= now.

Definition window_of_creation {K R} (d : SearchUnit K R) : Prop :=
  expiresAt d = Some (createdAt d + fiveMinutes).

(** The invariant saveJobIfNotExists is there to keep: no two job results
    share job id, provider and country code. *)
Definition unique_jobs (t : list Jobs.JobRow) : Prop :=
  forall i j di dj,
    t !! i = Some di -> t !! j = Some dj ->
    Jobs.jobId (Results.identity di) = Jobs.jobId (Results.identity dj) ->
    Jobs.provider (Results.identity di) = Jobs.provider (Results.identity dj) ->
    Jobs.jobCountry (Results.identity di) = Jobs.jobCountry (Results.identity dj) ->
    i = j.

(** What the loop of the route POST /api/jobs/process-unprocessed may have
    done to a record: nothing, or, in some round [k] in which the embeddings
    were made and under a schema that lets the patch in, the patch of
    updateJobResultWithAI with what the language model made of its raw data
    in that round. *)
Definition enriched_or_same (schema : Results.Schema) (x : Jobs.Enrichment)
    (row row' : Jobs.JobRow) : Prop :=
  row' = row \/
  exists k raw ai, Results.rawData row = JsObject raw /\
    Jobs.parse x k raw = Returned ai /\ Jobs.embed x k = Returned tt /\
    Results.accepts schema Results.Ptrue && Results.embeddings schema = true /\
    row' = Results.mark_processed ai (Jobs.tPatch x k) row.

(** Every record of a table passes the schema. *)
Definition passes {P Raw AI} (schema : Results.Schema)
    (t : list (Results.ResultRecord P Raw AI)) : Prop :=
  Forall (fun d => Results.valid schema d = true) t.

(** The first code unit of a trimmed text is not white space. *)
Definition starts_clean (s : list Ascii.ascii) : Prop :=
  match s with
  | [] => True
  | c :: _ => Jobs.is_space c = false
  end.

(** What holds of row [length p] of the matrix, [p] being the code units
    of the first string read so far. *)
Definition row_ok (p s2 : list Ascii.ascii) (row : list nat) : Prop :=
  length row = S (length s2) /\
  forall j v, row !! j = Some v ->
    (v <= Nat.max (length p) j)%nat /\ (v = 0%nat <-> p = take j s2).

(** ** Concrete stores used as examples *)

Module Scenario.
(** Research: a report completed long ago, and one left pending. *)
Definition acme : Research.ResearchKey :=
  Research.mkKey "Acme" "Engineer" "Berlin" Research.structured.

Definition old_report : SearchUnit Research.ResearchKey Research.Report :=
  {| params := acme; data := DataResult "report"; status := Some complete;
     expiresAt := Some 300000; userId := None;
     createdAt := 0; updatedAt := 60000 |}.

Definition stuck_report : SearchUnit Research.ResearchKey Research.Report :=
  {| params := acme; data := DataEmpty; status := Some pending;
     expiresAt := Some 300000; userId := None;
     createdAt := 0; updatedAt := 0 |}.

(** LinkedIn: the same two situations. *)
Definition engineers : LinkedIn.SearchKey := LinkedIn.mkKey "Engineer" "GB" 10.

Definition old_search : SearchUnit LinkedIn.SearchKey LinkedIn.Summary :=
  {| params := engineers; data := DataResult 10%nat; status := Some complete;
     expiresAt := Some 300000; userId := None;
     createdAt := 0; updatedAt := 60000 |}.

Definition stuck_search : SearchUnit LinkedIn.SearchKey LinkedIn.Summary :=
  {| params := engineers; data := DataEmpty; status := Some pending;
     expiresAt := Some 300000; userId := None;
     createdAt := 0; updatedAt := 0 |}.

(** Job searches: a failed one, one completed long ago and one left
    pending. *)
Definition barista : Jobs.SearchKey := Jobs.mkKey "barista" "Leeds" 30 (Some "gb").

Definition failed_jobs : SearchUnit Jobs.SearchKey Jobs.Summary :=
  {| params := barista; data := DataError "Job search provider failed";
     status := Some failed; expiresAt := None; userId := None;
     createdAt := 1000; updatedAt := 2000 |}.

Definition old_jobs : SearchUnit Jobs.SearchKey Jobs.Summary :=
  {| params := barista; data := DataResult (Jobs.mkSummary 12 12);
     status := Some complete; expiresAt := None; userId := None;
     createdAt := 1000; updatedAt := 2000 |}.

Definition stuck_jobs : SearchUnit Jobs.SearchKey Jobs.Summary :=
  Jobs.pending_search 1000 barista None.

Definition day (n : Z) : Z := n * oneDay.

(** Job results: a raw job, the arguments searchJobs stores it with, and
    the deployment's environment. *)
Definition raw_barista : Jobs.RawJobData := Jobs.mkRaw "job-42" None "Barista" "serpapi".

Definition save_barista (search : nat) (cc : option string) : Jobs.SaveArgs :=
  Jobs.mkSave "job-42" "Barista" "serpapi" (JsObject raw_barista) search None cc.

Definition env : Results.Env :=
  Results.mkEnv (Some "https://cs-api.example") (Some "secret").

(** A job stored through saveJobResult by a caller that gives neither
    [isProcessed] nor AI data: a document convex/schema.ts lets in. *)
Definition imported_job : Jobs.JobRow :=
  Jobs.job_document 1000 (save_barista 0 (Some "gb")) None.
End Scenario.

(** * Properties *)

(** ** The document store *)

Section DbFacts.
Context {A : Type}.
Implicit Types (p : A -> bool) (t : list A) (d : A).

Lemma scan_Some p t i j d :
  Db.scan p i t = Some (j, d) ->
  (i <= j)%nat /\ t !! (j - i)%nat = Some d /\ p d = true /\
  forall k d', (k < j - i)%nat -> t !! k = Some d' -> p d' = false.
Proof.
  revert i. induction t as [|x t IH]; intros i; simpl; [done|].
  destruct (p x) eqn:Hx.
  - intros [= <- <-]. rewrite Nat.sub_diag. repeat split; auto. lia.
  - intros H. apply IH in H as (Hle & Hlk & Hp & Hold).
    replace (j - i)%nat with (S (j - S i)) by lia.
    repeat split; auto; [lia|].
    intros [|k] d' Hk; simpl; [congruence|].
    apply Hold. lia.
Qed.

Lemma scan_None p t i :
  Db.scan p i t = None <-> forall k d, t !! k = Some d -> p d = false.
Proof.
  revert i. induction t as [|x t IH]; intros i; simpl.
  - split; [intros _ k d; by rewrite lookup_nil|done].
  - destruct (p x) eqn:Hx.
    + split; [done|]. intros H. specialize (H 0%nat x eq_refl). congruence.
    + rewrite IH. split.
      * intros H [|k] d; simpl; [congruence|apply H].
      * intros H k d Hk. apply (H (S k)). done.
Qed.

Lemma scan_desc_None p t i :
  Db.scan_desc p i t = None <-> forall k d, t !! k = Some d -> p d = false.
Proof.
  revert i. induction t as [|x t IH]; intros i; simpl.
  - split; [intros _ k d; by rewrite lookup_nil|done].
  - destruct (Db.scan_desc p (S i) t) as [r|] eqn:Hrec.
    + split; [done|]. intros H.
      assert (Db.scan_desc p (S i) t = None) as Hn; [|congruence].
      apply IH. intros k d Hk. apply (H (S k)). done.
    + destruct (p x) eqn:Hx.
      * split; [done|]. intros H. specialize (H 0%nat x eq_refl). congruence.
      * split; [|done]. intros _ [|k] d; simpl; [congruence|].
        revert k d. apply (proj1 (IH (S i)) Hrec).
Qed.

Lemma scan_desc_Some p t i j d :
  Db.scan_desc p i t = Some (j, d) ->
  (i <= j)%nat /\ t !! (j - i)%nat = Some d /\ p d = true /\
  forall k d', (j - i < k)%nat -> t !! k = Some d' -> p d' = false.
Proof.
  revert i. induction t as [|x t IH]; intros i; simpl; [done|].
  destruct (Db.scan_desc p (S i) t) as [[j' d']|] eqn:Hrec.
  - intros [= -> ->]. apply IH in Hrec as (Hle & Hlk & Hp & Hnew).
    replace (j - i)%nat with (S (j - S i)) by lia.
    repeat split; auto; [lia|].
    intros [|k] d'' Hk; simpl; [lia|]. apply Hnew. lia.
  - destruct (p x) eqn:Hx; [|done].
    intros [= <- <-]. rewrite Nat.sub_diag. repeat split; auto.
    intros [|k] d' Hk; simpl; [lia|]. intros Hlk.
    pose proof (proj1 (scan_desc_None p t (S i)) Hrec) as Hall. eauto.
Qed.

Lemma scan_app p t d i :
  Db.scan p i (t ++ [d]) =
  match Db.scan p i t with
  | Some r => Some r
  | None => if p d then Some ((i + length t)%nat, d) else None
  end.
Proof.
  revert i. induction t as [|x t IH]; intros i; simpl.
  - by rewrite Nat.add_0_r.
  - destruct (p x); [done|]. rewrite IH.
    by replace (S i + length t)%nat with (i + S (length t))%nat by lia.
Qed.

Lemma scan_desc_app p t d i :
  Db.scan_desc p i (t ++ [d]) =
  if p d then Some ((i + length t)%nat, d) else Db.scan_desc p i t.
Proof.
  revert i. induction t as [|x t IH]; intros i; simpl.
  - rewrite Nat.add_0_r. by destruct (p d).
  - rewrite IH. replace (S i + length t)%nat with (i + S (length t))%nat by lia.
    by destruct (p d).
Qed.

Lemma scan_desc_fmap p (f : A -> A) t i :
  (forall d, p (f d) = p d) ->
  Db.scan_desc p i (f <$> t) = prod_map Datatypes.id f <$> Db.scan_desc p i t.
Proof.
  intros Hp. revert i. induction t as [|x t IH]; intros i; simpl; [done|].
  rewrite IH. destruct (Db.scan_desc p (S i) t) as [[j d]|]; simpl; [done|].
  rewrite Hp. by destruct (p x).
Qed.

(** The lookup without an order reads the oldest matching document. *)
Lemma first_oldest p t i d :
  Db.first p t = Some (i, d) ->
  t !! i = Some d /\ p d = true /\
  forall k d', (k < i)%nat -> t !! k = Some d' -> p d' = false.
Proof.
  intros H. apply scan_Some in H as (_ & Hlk & Hp & Hold).
  rewrite Nat.sub_0_r in Hlk, Hold. auto.
Qed.

(** The lookup with [order("desc")] reads the newest matching document. *)
Lemma first_desc_newest p t i d :
  Db.first_desc p t = Some (i, d) ->
  t !! i = Some d /\ p d = true /\
  forall k d', (i < k)%nat -> t !! k = Some d' -> p d' = false.
Proof.
  intros H. apply scan_desc_Some in H as (_ & Hlk & Hp & Hnew).
  rewrite Nat.sub_0_r in Hlk, Hnew. auto.
Qed.

Lemma first_app p t d :
  Db.first p (t ++ [d]) =
  match Db.first p t with
  | Some r => Some r
  | None => if p d then Some (length t, d) else None
  end.
Proof. apply scan_app. Qed.

Lemma first_desc_app p t d :
  Db.first_desc p (t ++ [d]) = if p d then Some (length t, d) else Db.first_desc p t.
Proof. apply scan_desc_app. Qed.

Lemma patch_Some (f : A -> A) t i d :
  t !! i = Some d -> Db.patch i f t = Some (<[i := f d]> t).
Proof. intros H. unfold Db.patch. by rewrite H. Qed.

Lemma patch_lookup (f : A -> A) t t' i :
  Db.patch i f t = Some t' ->
  exists d, t !! i = Some d /\ t' !! i = Some (f d) /\ length t' = length t /\
            forall j, j <> i -> t' !! j = t !! j.
Proof.
  unfold Db.patch. destruct (t !! i) as [d|] eqn:Hd; [|done].
  intros [= <-]. exists d. split; [done|].
  split; [apply list_lookup_insert_eq; by eapply lookup_lt_Some|].
  split; [apply length_insert|].
  intros j Hj. by apply list_lookup_insert_ne.
Qed.
End DbFacts.

(** ** The lifecycle of research reports and LinkedIn searches *)

Section LifecycleFacts.
Context {K R : Type} `{EqDecision K}.
Implicit Types (t : list (SearchUnit K R)) (u d : SearchUnit K R) (k : K).

Lemma status_is_true s d : status d = Some s -> status_is s d = true.
Proof. intros Hs. unfold status_is. by apply bool_decide_eq_true_2. Qed.

Lemma status_is_false s s' d : status d = Some s' -> s' <> s -> status_is s d = false.
Proof.
  intros Hs Hne. unfold status_is. apply bool_decide_eq_false_2. congruence.
Qed.

Lemma expire_key c k d :
  Lifecycle.key_is k (Lifecycle.expire c d) = Lifecycle.key_is k d.
Proof. unfold Lifecycle.expire. by destruct (_ && _). Qed.

Lemma first_desc_cleanup c k t :
  Db.first_desc (Lifecycle.key_is k) (Lifecycle.cleanupExpired c t) =
  prod_map Datatypes.id (Lifecycle.expire c) <$> Db.first_desc (Lifecycle.key_is k) t.
Proof. apply scan_desc_fmap. intros d. apply expire_key. Qed.

Lemma cleanup_length c t : length (Lifecycle.cleanupExpired c t) = length t.
Proof. apply length_fmap. Qed.

Lemma cleanup_lookup c t i :
  Lifecycle.cleanupExpired c t !! i = Lifecycle.expire c <$> t !! i.
Proof. apply list_lookup_fmap. Qed.

Lemma expire_not_pending c d s :
  status d = Some s -> s <> pending -> Lifecycle.expire c d = d.
Proof.
  intros Hs Hne. unfold Lifecycle.expire.
  by rewrite (status_is_false pending s d).
Qed.

(** The lookup of a find-or-create call reads the newest unit with the key. *)
Lemma findExisting_newest th now k t e :
  Lifecycle.findExisting th now k t = Some e ->
  exists d, t !! Lifecycle.ex_id e = Some d /\ params d = k /\
    params (Lifecycle.ex_doc e) = k /\
    forall j d', (Lifecycle.ex_id e < j)%nat -> t !! j = Some d' -> params d' <> k.
Proof.
  unfold Lifecycle.findExisting.
  destruct (Db.first_desc _ t) as [[i d]|] eqn:Hl; [|done].
  apply first_desc_newest in Hl as (Hlk & Hk & Hnew).
  apply bool_decide_eq_true in Hk.
  assert (forall j d', (i < j)%nat -> t !! j = Some d' -> params d' <> k) as Hnew'.
  { intros j d' Hj Hd'. specialize (Hnew j d' Hj Hd').
    by apply bool_decide_eq_false in Hnew. }
  repeat case_match; intros [= <-]; simpl; eauto.
Qed.

Lemma findOrCreate_none th c f n k uid t :
  Db.first_desc (Lifecycle.key_is k) t = None ->
  Lifecycle.findOrCreate th c f n k uid t = Lifecycle.created c n k uid t.
Proof.
  intros Hl. unfold Lifecycle.findOrCreate, Lifecycle.findExisting.
  rewrite first_desc_cleanup, Hl. simpl.
  unfold Lifecycle.createPending, Db.insert, Lifecycle.created. by rewrite cleanup_length.
Qed.

End LifecycleFacts.

Section LifecycleAgain.
Context {K R : Type} `{EqDecision K}.
Implicit Types (t : list (SearchUnit K R)) (u d : SearchUnit K R) (k : K).

(** Only the creating branch starts a background execution. *)
Lemma findOrCreate_created th c f n k uid t r t' id :
  Lifecycle.findOrCreate th c f n k uid t = (r, t', Some id) ->
  (r, t', Some id) = Lifecycle.created c n k uid t.
Proof.
  unfold Lifecycle.findOrCreate, Lifecycle.createPending, Db.insert, Lifecycle.created.
  rewrite cleanup_length.
  repeat case_match; intros [= <- <- <-]; done.
Qed.

Lemma pending_unit_key n k uid :
  Lifecycle.key_is k (@Lifecycle.pending_unit K R n k uid) = true.
Proof. unfold Lifecycle.key_is. by apply bool_decide_eq_true_2. Qed.

(** A second call with the same key, made while the unit the first call
    created is pending and its window has not passed, answers with that
    unit and creates nothing. *)
Lemma findOrCreate_again_pending th c1 f1 n1 c2 f2 n2 k uid uid' t r1 t1 id :
  Lifecycle.findOrCreate th c1 f1 n1 k uid t = (r1, t1, Some id) ->
  c2 <= n1 + fiveMinutes -> f2 <= n1 + fiveMinutes ->
  unitId r1 = id /\
  Lifecycle.findOrCreate th c2 f2 n2 k uid' t1 =
    (mkResponse id pending true None, Lifecycle.cleanupExpired c2 t1, None) /\
  length (Lifecycle.cleanupExpired c2 t1) = length t1.
Proof.
  intros H1 Hc Hf. apply findOrCreate_created in H1.
  unfold Lifecycle.created in H1. injection H1 as -> -> ->.
  split; [done|]. split; [|apply cleanup_length].
  unfold Lifecycle.findOrCreate, Lifecycle.findExisting.
  rewrite first_desc_cleanup.
  rewrite first_desc_app.
  rewrite pending_unit_key, cleanup_length. simpl.
  assert (Lifecycle.expire c2 (@Lifecycle.pending_unit K R n1 k uid)
          = Lifecycle.pending_unit n1 k uid) as ->.
  { unfold Lifecycle.expire. simpl.
    replace (n1 + fiveMinutes <? c2) with false by (symmetry; apply Z.ltb_ge; lia).
    by rewrite ?andb_false_r. }
  simpl. replace (n1 + fiveMinutes <? f2) with false by (symmetry; apply Z.ltb_ge; lia).
  by rewrite ?andb_false_r.
Qed.

(** The same once the unit is complete, while it is not older than the
    staleness threshold. *)
Lemma findOrCreate_again_complete th c1 f1 n1 tDone dat c2 f2 n2 k uid uid' t r1 t1 t2 id :
  Lifecycle.findOrCreate th c1 f1 n1 k uid t = (r1, t1, Some id) ->
  Lifecycle.updateResults tDone id dat complete t1 = Some t2 ->
  f2 - th <= n1 ->
  Lifecycle.findOrCreate th c2 f2 n2 k uid' t2 =
    (mkResponse id complete true (Some dat), Lifecycle.cleanupExpired c2 t2, None) /\
  length (Lifecycle.cleanupExpired c2 t2) = length t1.
Proof.
  intros H1 Hup Hf. apply findOrCreate_created in H1.
  unfold Lifecycle.created in H1. injection H1 as -> -> ->.
  unfold Lifecycle.updateResults, Db.patch in Hup.
  rewrite lookup_app_r, cleanup_length, Nat.sub_diag in Hup
    by (rewrite cleanup_length; lia).
  simpl in Hup. injection Hup as <-.
  rewrite insert_app_r_alt, cleanup_length, Nat.sub_diag by (rewrite cleanup_length; lia).
  simpl. split; [|by rewrite cleanup_length, !length_app, cleanup_length].
  unfold Lifecycle.findOrCreate, Lifecycle.findExisting.
  rewrite first_desc_cleanup, first_desc_app.
  replace (Lifecycle.key_is k _) with true
    by (symmetry; unfold Lifecycle.key_is; by apply bool_decide_eq_true_2).
  rewrite cleanup_length. simpl.
  replace (n1 <? f2 - th) with false by (symmetry; apply Z.ltb_ge; lia).
  done.
Qed.
End LifecycleAgain.

(** ** Job searches *)

Section JobsFacts.
Implicit Types (t : Jobs.Searches) (u : SearchUnit Jobs.SearchKey Jobs.Summary)
  (args : Jobs.SearchKey).

(** What a creating call of findOrCreateJobSearch returns. *)
Lemma findOrCreateJobSearch_none now args uid t :
  Db.first (Jobs.search_range args) t = None ->
  Jobs.findOrCreateJobSearch now args uid t =
    (Jobs.mkFound (length t) false pending, t ++ [Jobs.pending_search now args uid]).
Proof. intros Hl. unfold Jobs.findOrCreateJobSearch. by rewrite Hl. Qed.

(** The decision of findOrCreateJobSearch is taken on the oldest unit of
    the range: no unit before it is in the range. *)
Lemma findOrCreateJobSearch_existing now args uid t r t' :
  Jobs.findOrCreateJobSearch now args uid t = (r, t') ->
  Jobs.foundExisting r = true ->
  t' = t /\ exists u, t !! Jobs.searchId r = Some u /\
    Jobs.search_range args u = true /\
    forall j u', (j < Jobs.searchId r)%nat -> t !! j = Some u' ->
                 Jobs.search_range args u' = false.
Proof.
  unfold Jobs.findOrCreateJobSearch.
  destruct (Db.first _ t) as [[i u]|] eqn:Hl.
  - apply first_oldest in Hl as (Hlk & Hp & Hold).
    simpl. repeat case_match; intros [= <- <-]; simpl; try done; eauto.
  - simpl. by intros [= <- <-].
Qed.

Lemma pending_search_in_range now args uid :
  or_undefined (Jobs.countryCode args) = Jobs.countryCode args ->
  Jobs.search_range args (Jobs.pending_search now args uid) = true.
Proof.
  intros Hcc. unfold Jobs.search_range, Jobs.by_search_unique. simpl. rewrite Hcc.
  by rewrite !bool_decide_eq_true_2.
Qed.

(** A second call finds the unit of the first one when no older unit is in
    the range and the country code is not the empty string. *)
Lemma findOrCreateJobSearch_again now1 now2 args uid uid' t :
  Db.first (Jobs.search_range args) t = None ->
  or_undefined (Jobs.countryCode args) = Jobs.countryCode args ->
  0 <= now1 -> now2 < now1 + fiveMinutes ->
  let '(r1, t1) := Jobs.findOrCreateJobSearch now1 args uid t in
  Jobs.findOrCreateJobSearch now2 args uid' t1 =
    (Jobs.mkFound (Jobs.searchId r1) true pending, t1).
Proof.
  intros Hl Hcc H0 Hlive. rewrite findOrCreateJobSearch_none by done.
  unfold Jobs.findOrCreateJobSearch.
  rewrite first_app, Hl, pending_search_in_range by done. simpl.
  replace (now1 + fiveMinutes =? 0) with false
    by (symmetry; apply Z.eqb_neq; unfold fiveMinutes; lia).
  replace (now1 + fiveMinutes >? now2) with true
    by (symmetry; rewrite Z.gtb_ltb; apply Z.ltb_lt; lia).
  done.
Qed.
End JobsFacts.

(** ** The decision table *)

Section DecisionTable.
Context {K R : Type} `{EqDecision K}.
Implicit Types (t : list (SearchUnit K R)) (u d : SearchUnit K R) (k : K).

(** A call of the lifecycle either creates, or answers with the unit its
    lookup selects; it answers with it only when, after the cleanup pass,
    that unit is pending and its window has not passed, or complete and not
    older than the threshold. *)
Lemma findOrCreate_cases th c f n k uid t :
  Lifecycle.findOrCreate th c f n k uid t = Lifecycle.created c n k uid t \/
  exists j d s res,
    Db.first_desc (Lifecycle.key_is k) t = Some (j, d) /\
    status (Lifecycle.expire c d) = Some s /\
    ((s = pending /\ expired_at_read (expiresAt (Lifecycle.expire c d)) f = false) \/
     (s = complete /\ (createdAt (Lifecycle.expire c d) <? f - th) = false)) /\
    Lifecycle.findOrCreate th c f n k uid t =
      (mkResponse j s true res, Lifecycle.cleanupExpired c t, None).
Proof.
  assert (forall x : Response nat R * list (SearchUnit K R) * option nat,
            x = (let '(id, t2) := Lifecycle.createPending n k uid
                                    (Lifecycle.cleanupExpired c t) in
                 (mkResponse id pending false None, t2, Some id)) ->
            x = Lifecycle.created c n k uid t) as Hcreate.
  { intros x ->. unfold Lifecycle.createPending, Db.insert, Lifecycle.created.
    by rewrite cleanup_length. }
  unfold Lifecycle.findOrCreate, Lifecycle.findExisting.
  rewrite first_desc_cleanup.
  destruct (Db.first_desc _ t) as [[j d]|] eqn:Hl; simpl; [|left; by apply Hcreate].
  set (d' := Lifecycle.expire c d).
  destruct (status d') as [[| |]|] eqn:Hs.
  - rewrite (status_is_true pending d' Hs). simpl.
    destruct (expired_at_read (expiresAt d') f) eqn:He; simpl.
    + left. by apply Hcreate.
    + rewrite (status_is_false complete pending d' Hs), andb_false_r by done.
      simpl. rewrite Hs. right. exists j, d, pending, None. fold d'. auto 10.
  - rewrite (status_is_false pending complete d' Hs) by done. simpl.
    rewrite (status_is_true complete d' Hs), andb_true_r.
    destruct (createdAt d' <? f - th) eqn:Hold; simpl; rewrite Hs.
    + left. by apply Hcreate.
    + right. exists j, d, complete, (Some (data d')). fold d'. auto 10.
  - rewrite (status_is_false pending failed d' Hs),
      (status_is_false complete failed d' Hs), andb_false_r by done.
    simpl. rewrite Hs. left. by apply Hcreate.
  - unfold status_is. rewrite Hs, !bool_decide_eq_false_2, andb_false_r by done.
    simpl. rewrite Hs. left. by apply Hcreate.
Qed.

(** A complete unit with the key that is older than the threshold: no call
    answers with it, and the call leaves it as it was; the call creates when
    the lookup selects that unit. *)
Lemma findOrCreate_never_stale th c f n k uid t i u :
  t !! i = Some u ->
  params u = k ->
  status u = Some complete ->
  createdAt u <= updatedAt u ->
  updatedAt u < f - th ->
  let '(r, t', bg) := Lifecycle.findOrCreate th c f n k uid t in
  unitId r <> i /\ t' !! i = Some u /\
  (Db.first_desc (Lifecycle.key_is k) t = Some (i, u) ->
   (r, t', bg) = Lifecycle.created c n k uid t).
Proof.
  intros Hi Hk Hs Hcu Hold.
  assert (Lifecycle.expire c u = u) as He by (by eapply expire_not_pending).
  assert (Lifecycle.cleanupExpired c t !! i = Some u) as Hrow
    by (by rewrite cleanup_lookup, Hi; simpl; rewrite He).
  pose proof (lookup_lt_Some _ _ _ Hi) as Hlt.
  destruct (findOrCreate_cases th c f n k uid t)
    as [->|(j & d & s & res & Hl & Hsd & Hwhy & ->)].
  - unfold Lifecycle.created. simpl. split; [lia|].
    split; [|done]. by rewrite lookup_app_l by (by rewrite cleanup_length).
  - simpl. split; [|split; [done|]].
    + intros ->. apply first_desc_newest in Hl as (Hj & _).
      rewrite Hi in Hj. injection Hj as <-. rewrite He in *.
      destruct Hwhy as [[-> _]|[_ Hfresh]]; [congruence|].
      apply Z.ltb_ge in Hfresh. lia.
    + intros Hsel. rewrite Hsel in Hl. injection Hl as <- <-. rewrite He in *.
      destruct Hwhy as [[-> _]|[_ Hfresh]]; [congruence|].
      apply Z.ltb_ge in Hfresh. lia.
Qed.

(** A pending unit with the key whose window has passed by the time of the
    cleanup pass or by the time of the lookup: no call answers with it.  The
    cleanup pass writes it failed when the window had passed by then and
    leaves it as it was otherwise; when the lookup selects that unit, the
    lookup reports it failed and the call creates. *)
Lemma findOrCreate_never_expired th c f n k uid t i u e :
  t !! i = Some u ->
  params u = k ->
  status u = Some pending ->
  expiresAt u = Some e ->
  0 < c ->
  e < c \/ e < f ->
  let '(r, t', bg) := Lifecycle.findOrCreate th c f n k uid t in
  unitId r <> i /\
  t' !! i = Some (Lifecycle.expire c u) /\
  (e < c -> status (Lifecycle.expire c u) = Some failed /\
            params (Lifecycle.expire c u) = k) /\
  (c <= e -> Lifecycle.expire c u = u) /\
  (Db.first_desc (Lifecycle.key_is k) t = Some (i, u) ->
   (exists ex,
       Lifecycle.findExisting th f k (Lifecycle.cleanupExpired c t) = Some ex /\
       Lifecycle.ex_id ex = i /\ status (Lifecycle.ex_doc ex) = Some failed) /\
   (r, t', bg) = Lifecycle.created c n k uid t).
Proof.
  intros Hi Hk Hs He Hc Hexp.
  assert (e < c -> status (Lifecycle.expire c u) = Some failed /\
                   params (Lifecycle.expire c u) = k) as Hwritten.
  { intros Hec. unfold Lifecycle.expire.
    rewrite (status_is_true pending u Hs), He. simpl.
    by replace (e <? c) with true by (symmetry; apply Z.ltb_lt; lia). }
  assert (c <= e -> Lifecycle.expire c u = u) as Hkept.
  { intros Hce. unfold Lifecycle.expire.
    rewrite (status_is_true pending u Hs), He. simpl.
    by replace (e <? c) with false by (symmetry; apply Z.ltb_ge; lia). }
  assert (status (Lifecycle.expire c u) = Some failed \/
          status (Lifecycle.expire c u) = Some pending /\
          expired_at_read (expiresAt (Lifecycle.expire c u)) f = true) as Hdead.
  { destruct (Z.lt_ge_cases e c) as [Hec|Hce]; [left; by apply Hwritten|].
    right. rewrite (Hkept Hce), He. split; [done|]. simpl.
    apply andb_true_iff. split; [apply negb_true_iff, Z.eqb_neq|apply Z.ltb_lt]; lia. }
  assert (Lifecycle.cleanupExpired c t !! i = Some (Lifecycle.expire c u)) as Hrow
    by (by rewrite cleanup_lookup, Hi).
  pose proof (lookup_lt_Some _ _ _ Hi) as Hlt.
  assert (forall s, status (Lifecycle.expire c u) = Some s ->
            (s = pending /\
             expired_at_read (expiresAt (Lifecycle.expire c u)) f = false) \/
            (s = complete /\ (createdAt (Lifecycle.expire c u) <? f - th) = false) ->
            False) as Hnever.
  { intros s Hsd Hwhy.
    destruct Hdead as [Hf|[Hp Hr]], Hwhy as [[-> Hlive]|[-> _]]; congruence. }
  assert (Db.first_desc (Lifecycle.key_is k) t = Some (i, u) ->
          exists ex,
            Lifecycle.findExisting th f k (Lifecycle.cleanupExpired c t) = Some ex /\
            Lifecycle.ex_id ex = i /\ status (Lifecycle.ex_doc ex) = Some failed)
    as Hread.
  { intros Hsel. unfold Lifecycle.findExisting.
    rewrite first_desc_cleanup, Hsel. simpl.
    destruct Hdead as [Hf|[Hp Hr]].
    - rewrite (status_is_false pending failed _ Hf),
        (status_is_false complete failed _ Hf), andb_false_r by done.
      simpl. by eexists.
    - rewrite (status_is_true pending _ Hp), Hr. simpl. by eexists. }
  destruct (findOrCreate_cases th c f n k uid t)
    as [->|(j & d & s & res & Hl & Hsd & Hwhy & ->)].
  - unfold Lifecycle.created. simpl. split; [lia|].
    split; [by rewrite lookup_app_l by (by rewrite cleanup_length)|].
    split; [done|]. split; [done|]. intros Hsel. split; [by apply Hread|done].
  - simpl. split; [|split; [done|split; [done|split; [done|]]]].
    + intros ->. apply first_desc_newest in Hl as (Hj & _).
      rewrite Hi in Hj. injection Hj as <-. by eapply Hnever.
    + intros Hsel. rewrite Hsel in Hl. injection Hl as <- <-.
      exfalso. by eapply Hnever.
Qed.
End DecisionTable.

(** The same for findOrCreateJobSearch, which has no cleanup pass and whose
    lookup selects the oldest unit of the range. *)
Lemma findOrCreateJobSearch_cases now args uid (t : Jobs.Searches) :
  Jobs.findOrCreateJobSearch now args uid t =
    (Jobs.mkFound (length t) false pending, t ++ [Jobs.pending_search now args uid]) \/
  exists j d s,
    Db.first (Jobs.search_range args) t = Some (j, d) /\
    status d = Some s /\
    ((s = pending /\ Jobs.still_pending (expiresAt d) now = true) \/
     (s = complete /\ (Jobs.completedAt d >? now - oneDay) = true)) /\
    Jobs.findOrCreateJobSearch now args uid t = (Jobs.mkFound j true s, t).
Proof.
  unfold Jobs.findOrCreateJobSearch.
  destruct (Db.first _ t) as [[j d]|] eqn:Hl; simpl; [|by left].
  destruct (status d) as [[| |]|] eqn:Hs.
  - rewrite (status_is_false complete pending d Hs), (status_is_true pending d Hs) by done.
    simpl. destruct (Jobs.still_pending (expiresAt d) now) eqn:Hlive; [|by left].
    right. exists j, d, pending. auto 10.
  - rewrite (status_is_true complete d Hs), (status_is_false pending complete d Hs) by done.
    simpl. destruct (Jobs.completedAt d >? now - oneDay) eqn:Hfresh; [|by left].
    right. exists j, d, complete. auto 10.
  - rewrite (status_is_false complete failed d Hs), (status_is_false pending failed d Hs)
      by done. by left.
  - unfold status_is. rewrite Hs, !bool_decide_eq_false_2 by done. by left.
Qed.

Lemma findOrCreateJobSearch_never_stale now args uid (t : Jobs.Searches) i u :
  t !! i = Some u ->
  status u = Some complete ->
  createdAt u <= updatedAt u ->
  updatedAt u < now - oneDay ->
  let '(r, t') := Jobs.findOrCreateJobSearch now args uid t in
  Jobs.searchId r <> i /\ t' !! i = Some u /\
  (Db.first (Jobs.search_range args) t = Some (i, u) ->
   (r, t') = (Jobs.mkFound (length t) false pending,
              t ++ [Jobs.pending_search now args uid])).
Proof.
  intros Hi Hs Hcu Hold.
  pose proof (lookup_lt_Some _ _ _ Hi) as Hlt.
  assert ((Jobs.completedAt u >? now - oneDay) = false) as Hstale.
  { rewrite Z.gtb_ltb. apply Z.ltb_ge. unfold Jobs.completedAt.
    destruct (updatedAt u =? 0); lia. }
  destruct (findOrCreateJobSearch_cases now args uid t)
    as [->|(j & d & s & Hl & Hsd & Hwhy & ->)].
  - simpl. split; [lia|]. split; [by rewrite lookup_app_l|done].
  - simpl. split; [|split; [done|]].
    + intros ->. apply first_oldest in Hl as (Hj & _).
      rewrite Hi in Hj. injection Hj as <-.
      destruct Hwhy as [[-> _]|[_ Hfresh]]; congruence.
    + intros Hsel. rewrite Hsel in Hl. injection Hl as <- <-.
      destruct Hwhy as [[-> _]|[_ Hfresh]]; congruence.
Qed.

Lemma findOrCreateJobSearch_never_expired now args uid (t : Jobs.Searches) i u e :
  t !! i = Some u ->
  status u = Some pending ->
  expiresAt u = Some e ->
  e < now ->
  let '(r, t') := Jobs.findOrCreateJobSearch now args uid t in
  Jobs.searchId r <> i /\ t' !! i = Some u /\
  (Db.first (Jobs.search_range args) t = Some (i, u) ->
   (r, t') = (Jobs.mkFound (length t) false pending,
              t ++ [Jobs.pending_search now args uid])).
Proof.
  intros Hi Hs He Hexp.
  pose proof (lookup_lt_Some _ _ _ Hi) as Hlt.
  assert (Jobs.still_pending (expiresAt u) now = false) as Hdead.
  { rewrite He. simpl.
    replace (e >? now) with false by (symmetry; rewrite Z.gtb_ltb; apply Z.ltb_ge; lia).
    apply andb_false_r. }
  destruct (findOrCreateJobSearch_cases now args uid t)
    as [->|(j & d & s & Hl & Hsd & Hwhy & ->)].
  - simpl. split; [lia|]. split; [by rewrite lookup_app_l|done].
  - simpl. split; [|split; [done|]].
    + intros ->. apply first_oldest in Hl as (Hj & _).
      rewrite Hi in Hj. injection Hj as <-.
      destruct Hwhy as [[_ Hlive]|[-> _]]; congruence.
    + intros Hsel. rewrite Hsel in Hl. injection Hl as <- <-.
      destruct Hwhy as [[_ Hlive]|[-> _]]; congruence.
Qed.

(** ** Staleness and expiry force a refresh *)

(** C2, as amended.  A complete unit whose [updatedAt] is older than the
    staleness threshold of its domain (7 days for research, 24 hours for
    LinkedIn and job searches) is never the unit a find-or-create call
    answers with, and the call leaves its document as it was; when it is the
    unit the lookup of the call selects, the call creates a new pending unit
    under a new id. *)
Theorem stale_complete_unit_is_refreshed :
  (forall c f n k uid (t : Research.Reports) i u,
      t !! i = Some u ->
      params u = k ->
      status u = Some complete ->
      createdAt u <= updatedAt u ->
      updatedAt u < f - sevenDays ->
      let '(r, t', bg) := Research.performResearch c f n k uid t in
      unitId r <> i /\ t' !! i = Some u /\
      (Db.first_desc (Lifecycle.key_is k) t = Some (i, u) ->
       (r, t', bg) = Lifecycle.created c n k uid t)) /\
  (forall c f n k uid (t : LinkedIn.Searches) i u,
      t !! i = Some u ->
      params u = k ->
      status u = Some complete ->
      createdAt u <= updatedAt u ->
      updatedAt u < f - oneDay ->
      let '(r, t', bg) := LinkedIn.searchLinkedInProfessionals c f n k uid t in
      unitId r <> i /\ t' !! i = Some u /\
      (Db.first_desc (Lifecycle.key_is k) t = Some (i, u) ->
       (r, t', bg) = Lifecycle.created c n k uid t)) /\
  (forall now args uid (t : Jobs.Searches) i u,
      t !! i = Some u ->
      Jobs.search_range args u = true ->
      status u = Some complete ->
      createdAt u <= updatedAt u ->
      updatedAt u < now - oneDay ->
      let '(r, t') := Jobs.findOrCreateJobSearch now args uid t in
      Jobs.searchId r <> i /\ t' !! i = Some u /\
      (Db.first (Jobs.search_range args) t = Some (i, u) ->
       (r, t') = (Jobs.mkFound (length t) false pending,
                  t ++ [Jobs.pending_search now args uid]))).
Proof.
  split; [|split].
  - intros c f n k uid t i u. apply findOrCreate_never_stale.
  - intros c f n k uid t i u. apply findOrCreate_never_stale.
  - intros now args uid t i u Hi _. by apply findOrCreateJobSearch_never_stale.
Qed.

(** The theorem on three stores in which the old unit is the only one. *)
Lemma stale_complete_unit_is_refreshed_witness :
  (Research.performResearch (Scenario.day 8) (Scenario.day 8) (Scenario.day 8)
     Scenario.acme None [Scenario.old_report]
   = Lifecycle.created (Scenario.day 8) (Scenario.day 8) Scenario.acme None
       [Scenario.old_report]) /\
  (LinkedIn.searchLinkedInProfessionals (Scenario.day 2) (Scenario.day 2) (Scenario.day 2)
     Scenario.engineers None [Scenario.old_search]
   = Lifecycle.created (Scenario.day 2) (Scenario.day 2) Scenario.engineers None
       [Scenario.old_search]) /\
  (Jobs.findOrCreateJobSearch (Scenario.day 2) Scenario.barista None [Scenario.old_jobs]
   = (Jobs.mkFound 1 false pending,
      [Scenario.old_jobs; Jobs.pending_search (Scenario.day 2) Scenario.barista None])).
Proof.
  destruct stale_complete_unit_is_refreshed as (HR & HL & HJ).
  split; [|split].
  - generalize (HR (Scenario.day 8) (Scenario.day 8) (Scenario.day 8) Scenario.acme None
                  [Scenario.old_report] 0%nat Scenario.old_report
                  eq_refl eq_refl eq_refl ltac:(vm_compute; discriminate) eq_refl).
    destruct (Research.performResearch _ _ _ _ _ _) as [[r t'] bg].
    intros (_ & _ & Hcreated). apply Hcreated. reflexivity.
  - generalize (HL (Scenario.day 2) (Scenario.day 2) (Scenario.day 2) Scenario.engineers
                  None [Scenario.old_search] 0%nat Scenario.old_search
                  eq_refl eq_refl eq_refl ltac:(vm_compute; discriminate) eq_refl).
    destruct (LinkedIn.searchLinkedInProfessionals _ _ _ _ _ _) as [[r t'] bg].
    intros (_ & _ & Hcreated). apply Hcreated. reflexivity.
  - generalize (HJ (Scenario.day 2) Scenario.barista None [Scenario.old_jobs] 0%nat
                  Scenario.old_jobs eq_refl eq_refl eq_refl
                  ltac:(vm_compute; discriminate) eq_refl).
    destruct (Jobs.findOrCreateJobSearch _ _ _ _) as [r t'].
    intros (_ & _ & Hcreated). apply Hcreated. reflexivity.
Defined.

(** C2, as stated, fails: a research report completed more than seven days
    ago has been superseded by a unit that is still pending.  The call does
    not create a unit; it answers with the pending one. *)
Lemma stale_unit_behind_a_newer_one_is_not_refreshed :
  let newer := Lifecycle.pending_unit (Scenario.day 8) Scenario.acme None in
  let t := [Scenario.old_report; newer] in
  let now := Scenario.day 8 + 1000 in
  status Scenario.old_report = Some complete /\
  params Scenario.old_report = Scenario.acme /\
  updatedAt Scenario.old_report < now - sevenDays /\
  Research.performResearch now now now Scenario.acme None t =
    (mkResponse 1%nat pending true None, t, None).
Proof. vm_compute. repeat split; done. Qed.

(** C3, as amended.  A pending unit whose [expiresAt] lies before the
    current time, as a find-or-create call reads it, is never the unit the
    call answers with.  For research reports and LinkedIn searches the call
    reads the clock in its cleanup pass and again in its lookup: the cleanup
    pass writes status failed on the unit when the window had passed by then
    and leaves the unit as it was otherwise, and the lookup, when it selects
    the unit, reports it failed.  When it is the unit the lookup of the call
    selects, the call creates a new pending unit under a new id. *)
Theorem expired_pending_unit_is_refreshed :
  (forall c f n k uid (t : Research.Reports) i u e,
      t !! i = Some u ->
      params u = k ->
      status u = Some pending ->
      expiresAt u = Some e ->
      0 < c ->
      e < c \/ e < f ->
      let '(r, t', bg) := Research.performResearch c f n k uid t in
      unitId r <> i /\
      t' !! i = Some (Lifecycle.expire c u) /\
      (e < c -> status (Lifecycle.expire c u) = Some failed /\
                params (Lifecycle.expire c u) = k) /\
      (c <= e -> Lifecycle.expire c u = u) /\
      (Db.first_desc (Lifecycle.key_is k) t = Some (i, u) ->
       (exists ex,
           Research.findExistingResearch f k (Lifecycle.cleanupExpired c t) = Some ex /\
           Lifecycle.ex_id ex = i /\ status (Lifecycle.ex_doc ex) = Some failed) /\
       (r, t', bg) = Lifecycle.created c n k uid t)) /\
  (forall c f n k uid (t : LinkedIn.Searches) i u e,
      t !! i = Some u ->
      params u = k ->
      status u = Some pending ->
      expiresAt u = Some e ->
      0 < c ->
      e < c \/ e < f ->
      let '(r, t', bg) := LinkedIn.searchLinkedInProfessionals c f n k uid t in
      unitId r <> i /\
      t' !! i = Some (Lifecycle.expire c u) /\
      (e < c -> status (Lifecycle.expire c u) = Some failed /\
                params (Lifecycle.expire c u) = k) /\
      (c <= e -> Lifecycle.expire c u = u) /\
      (Db.first_desc (Lifecycle.key_is k) t = Some (i, u) ->
       (exists ex,
           LinkedIn.findExistingLinkedInSearch f k (Lifecycle.cleanupExpired c t)
             = Some ex /\
           Lifecycle.ex_id ex = i /\ status (Lifecycle.ex_doc ex) = Some failed) /\
       (r, t', bg) = Lifecycle.created c n k uid t)) /\
  (forall now args uid (t : Jobs.Searches) i u e,
      t !! i = Some u ->
      Jobs.search_range args u = true ->
      status u = Some pending ->
      expiresAt u = Some e ->
      e < now ->
      let '(r, t') := Jobs.findOrCreateJobSearch now args uid t in
      Jobs.searchId r <> i /\ t' !! i = Some u /\
      (Db.first (Jobs.search_range args) t = Some (i, u) ->
       (r, t') = (Jobs.mkFound (length t) false pending,
                  t ++ [Jobs.pending_search now args uid]))).
Proof.
  split; [|split].
  - intros c f n k uid t i u e. apply findOrCreate_never_expired.
  - intros c f n k uid t i u e. apply findOrCreate_never_expired.
  - intros now args uid t i u e Hi _. by apply findOrCreateJobSearch_never_expired.
Qed.

(** The theorem on three stores in which the stuck unit is the only one.
    The research call finds the window still open in its cleanup pass and
    passed in its lookup; the LinkedIn call finds it passed in both. *)
Lemma expired_pending_unit_is_refreshed_witness :
  (Research.performResearch 299000 360000 360000 Scenario.acme None [Scenario.stuck_report]
   = (mkResponse 1%nat pending false None,
      [Scenario.stuck_report; Lifecycle.pending_unit 360000 Scenario.acme None],
      Some 1%nat)) /\
  (LinkedIn.searchLinkedInProfessionals 360000 360000 360000 Scenario.engineers None
     [Scenario.stuck_search]
   = Lifecycle.created 360000 360000 Scenario.engineers None [Scenario.stuck_search]) /\
  (Jobs.findOrCreateJobSearch 361000 Scenario.barista None [Scenario.stuck_jobs]
   = (Jobs.mkFound 1 false pending,
      [Scenario.stuck_jobs; Jobs.pending_search 361000 Scenario.barista None])).
Proof.
  destruct expired_pending_unit_is_refreshed as (HR & HL & HJ).
  split; [|split].
  - generalize (HR 299000 360000 360000 Scenario.acme None [Scenario.stuck_report]
                  0%nat Scenario.stuck_report 300000
                  eq_refl eq_refl eq_refl eq_refl eq_refl (or_intror eq_refl)).
    destruct (Research.performResearch _ _ _ _ _ _) as [[r t'] bg].
    intros (_ & _ & _ & _ & Hcreated).
    destruct (Hcreated eq_refl) as [_ ->]. reflexivity.
  - generalize (HL 360000 360000 360000 Scenario.engineers None [Scenario.stuck_search]
                  0%nat Scenario.stuck_search 300000
                  eq_refl eq_refl eq_refl eq_refl eq_refl (or_introl eq_refl)).
    destruct (LinkedIn.searchLinkedInProfessionals _ _ _ _ _ _) as [[r t'] bg].
    intros (_ & _ & _ & _ & Hcreated).
    destruct (Hcreated eq_refl) as [_ ->]. reflexivity.
  - generalize (HJ 361000 Scenario.barista None [Scenario.stuck_jobs] 0%nat
                  Scenario.stuck_jobs 301000 eq_refl eq_refl eq_refl eq_refl eq_refl).
    destruct (Jobs.findOrCreateJobSearch _ _ _ _) as [r t'].
    intros (_ & _ & Hcreated). apply Hcreated. reflexivity.
Defined.

(** C3, as stated, fails: a research report whose pending window has passed
    stands behind a newer unit with the same key that is still pending.  The
    call writes the old one failed, creates nothing and answers with the
    pending one. *)
Lemma expired_unit_behind_a_newer_one_is_not_refreshed :
  let newer := Lifecycle.pending_unit 300001 Scenario.acme None in
  let t := [Scenario.stuck_report; newer] in
  status Scenario.stuck_report = Some pending /\
  params Scenario.stuck_report = Scenario.acme /\
  expiresAt Scenario.stuck_report = Some 300000 /\
  Research.performResearch 360000 360000 360000 Scenario.acme None t =
    (mkResponse 1%nat pending true None,
     [Lifecycle.expire 360000 Scenario.stuck_report; newer], None).
Proof. vm_compute. repeat split; done. Qed.

(** ** Which unit the lookup reads *)

(** The lookups of research and LinkedIn read the newest unit with the key. *)
Lemma findExistingResearch_newest now k (t : Research.Reports) e :
  Research.findExistingResearch now k t = Some e ->
  exists d, t !! Lifecycle.ex_id e = Some d /\ params d = k /\
    params (Lifecycle.ex_doc e) = k /\
    forall j d', (Lifecycle.ex_id e < j)%nat -> t !! j = Some d' -> params d' <> k.
Proof. apply findExisting_newest. Qed.

Lemma findExistingLinkedInSearch_newest now k (t : LinkedIn.Searches) e :
  LinkedIn.findExistingLinkedInSearch now k t = Some e ->
  exists d, t !! Lifecycle.ex_id e = Some d /\ params d = k /\
    params (Lifecycle.ex_doc e) = k /\
    forall j d', (Lifecycle.ex_id e < j)%nat -> t !! j = Some d' -> params d' <> k.
Proof. apply findExisting_newest. Qed.

(** C5. After one failed job search for a key and a retry that is still
    pending, two units share the key.  findExistingJobSearch reads the newer
    one, the pending retry; findOrCreateJobSearch reads the older, failed
    one, applies the decision table to it and creates a third unit. *)
Lemma findOrCreateJobSearch_decides_on_oldest :
  let retry := Jobs.pending_search 100000 Scenario.barista None in
  let t := [Scenario.failed_jobs; retry] in
  Jobs.findExistingJobSearch 100001 Scenario.barista t = Some (1%nat, retry, false) /\
  Db.first (Jobs.search_range Scenario.barista) t = Some (0%nat, Scenario.failed_jobs) /\
  Jobs.findOrCreateJobSearch 100001 Scenario.barista None t =
    (Jobs.mkFound 2 false pending,
     t ++ [Jobs.pending_search 100001 Scenario.barista None]).
Proof. vm_compute. done. Qed.

(** ** Calling twice *)

(** Research and LinkedIn: the second of two calls with the same key
    answers with the unit the first one created, pending or complete. *)
Lemma performResearch_twice c1 f1 n1 c2 f2 n2 k uid uid' (t : Research.Reports) r1 t1 id :
  Research.performResearch c1 f1 n1 k uid t = (r1, t1, Some id) ->
  c2 <= n1 + fiveMinutes -> f2 <= n1 + fiveMinutes ->
  unitId r1 = id /\
  Research.performResearch c2 f2 n2 k uid' t1 =
    (mkResponse id pending true None, Research.cleanupExpiredEntries c2 t1, None) /\
  length (Research.cleanupExpiredEntries c2 t1) = length t1.
Proof. apply findOrCreate_again_pending. Qed.

Lemma searchLinkedInProfessionals_twice c1 f1 n1 c2 f2 n2 k uid uid'
    (t : LinkedIn.Searches) r1 t1 id :
  LinkedIn.searchLinkedInProfessionals c1 f1 n1 k uid t = (r1, t1, Some id) ->
  c2 <= n1 + fiveMinutes -> f2 <= n1 + fiveMinutes ->
  unitId r1 = id /\
  LinkedIn.searchLinkedInProfessionals c2 f2 n2 k uid' t1 =
    (mkResponse id pending true None, LinkedIn.cleanupExpiredLinkedInEntries c2 t1, None) /\
  length (LinkedIn.cleanupExpiredLinkedInEntries c2 t1) = length t1.
Proof. apply findOrCreate_again_pending. Qed.

(** C1. Job searches: a search for a key failed earlier.  The next call
    creates unit 1; a call one millisecond later, with the same parameters
    and while unit 1 is pending and far from its expiry, does not answer
    with unit 1: it creates unit 2. *)
Lemma findOrCreateJobSearch_twice_after_failure :
  let '(r1, t1) :=
    Jobs.findOrCreateJobSearch 100000 Scenario.barista None [Scenario.failed_jobs] in
  let '(r2, t2) := Jobs.findOrCreateJobSearch 100001 Scenario.barista None t1 in
  r1 = Jobs.mkFound 1 false pending /\
  t1 !! 1%nat = Some (Jobs.pending_search 100000 Scenario.barista None) /\
  r2 = Jobs.mkFound 2 false pending /\
  length t2 = 3%nat.
Proof. vm_compute. done. Qed.

(** The same with an empty store when the country code is the empty
    string: the lookup asks for units without a country code, the insert
    stores the empty string. *)
Lemma findOrCreateJobSearch_twice_empty_country :
  let args := Jobs.mkKey "barista" "Leeds" 30 (Some EmptyString) in
  let '(r1, t1) := Jobs.findOrCreateJobSearch 100000 args None [] in
  let '(r2, t2) := Jobs.findOrCreateJobSearch 100001 args None t1 in
  r1 = Jobs.mkFound 0 false pending /\ r2 = Jobs.mkFound 1 false pending.
Proof. vm_compute. done. Qed.

(** ** Failures of the background execution *)

Section BackgroundFacts.
Context {K R : Type} `{EqDecision K}.
Implicit Types (t : list (SearchUnit K R)) (d : SearchUnit K R).

(** A rejected execution leaves the unit failed, with the message as its
    data. *)
Lemma background_rejected fallback run now id t d msg :
  t !! id = Some d ->
  run t = Thrown msg ->
  Lifecycle.background fallback run now id t !! id =
    Some (Lifecycle.set_result (DataError (Lifecycle.error_text fallback msg)) failed now d).
Proof.
  intros Hd Hrun. unfold Lifecycle.background, Lifecycle.updateResults.
  rewrite Hrun, (patch_Some _ _ _ _ Hd).
  apply list_lookup_insert_eq. by eapply lookup_lt_Some.
Qed.

Lemma findOrCreate_answer th c f n k uid t r t1 id :
  Lifecycle.findOrCreate th c f n k uid t = (r, t1, Some id) ->
  r = mkResponse id pending false None /\
  t1 !! id = Some (Lifecycle.pending_unit n k uid).
Proof.
  intros Hcall. apply findOrCreate_created in Hcall.
  unfold Lifecycle.created in Hcall. injection Hcall as -> -> ->.
  split; [done|].
  rewrite lookup_app_r by (by rewrite cleanup_length).
  by rewrite cleanup_length, Nat.sub_diag.
Qed.
End BackgroundFacts.

Lemma findOrCreateJobSearch_new now args uid (t : Jobs.Searches) :
  Jobs.foundExisting (fst (Jobs.findOrCreateJobSearch now args uid t)) = false ->
  Jobs.findOrCreateJobSearch now args uid t =
    (Jobs.mkFound (length t) false pending, t ++ [Jobs.pending_search now args uid]).
Proof.
  unfold Jobs.findOrCreateJobSearch.
  destruct (Db.first _ t) as [[i u]|]; simpl; [|done].
  by repeat case_match.
Qed.

(** What validateJobSearchParams returns when it does not throw. *)
Lemma validateJobSearchParams_returned p vp :
  Jobs.validateJobSearchParams p = Returned vp ->
  vp = Jobs.mkParams (Jobs.p_query p) (Jobs.p_location p) (Some 30) (Jobs.p_countryCode p).
Proof.
  unfold Jobs.validateJobSearchParams.
  destruct (_ || _); [done|]. destruct (_ || _); [done|].
  destruct (match Jobs.p_countryCode p with Some _ => _ | None => _ end); [done|].
  by intros [= <-].
Qed.

(** A job search that searchJobs creates and whose provider call throws:
    the unit is failed and so is the answer. *)
Lemma searchJobs_provider_failure schema msg generated clock p vp uid db :
  Jobs.validateJobSearchParams p = Returned vp ->
  Jobs.foundExisting
    (fst (Jobs.findOrCreateJobSearch (Jobs.tFind clock)
            (Jobs.mkKey (Jobs.p_query vp) (Jobs.p_location vp) 30 (Jobs.p_countryCode vp))
            uid (Jobs.searches db))) = false ->
  let key := Jobs.mkKey (Jobs.p_query vp) (Jobs.p_location vp) 30 (Jobs.p_countryCode vp) in
  let new := length (Jobs.searches db) in
  Jobs.searchJobs schema (Thrown msg) generated clock p uid db =
    (mkResponse (Jobs.Stored new) failed false None,
     Jobs.mkDb
       (Jobs.searches db ++
          [Jobs.set_result (DataError "Job search provider failed") failed
             (Jobs.tFail clock) (Jobs.pending_search (Jobs.tFind clock) key uid)])
       (Jobs.results db)).
Proof.
  intros Hv Hnew. simpl. unfold Jobs.searchJobs. rewrite Hv.
  assert (Jobs.p_numResults vp = Some 30) as ->
    by (by rewrite (validateJobSearchParams_returned _ _ Hv)).
  rewrite (findOrCreateJobSearch_new _ _ _ _ Hnew). simpl.
  unfold Jobs.markJobSearchFailed, Jobs.updateJobSearchResults, Db.patch.
  rewrite lookup_app_r, Nat.sub_diag by done. simpl.
  rewrite insert_app_r_alt, Nat.sub_diag by done. done.
Qed.

(** C4, as amended.  Research and LinkedIn: a creating call answers pending
    without waiting for the provider, and an execution that throws ends, in
    whatever store it finds the unit, with status failed and the message on
    that unit; the background function returns a store, never an exception.
    Job searches: the provider call runs inside searchJobs; when it throws,
    the unit just created is written failed and the caller is answered
    failed, with the id of that unit. *)
Theorem background_failure_becomes_failed_status :
  (forall c f n k uid (t : Research.Reports) r t1 id,
      Research.performResearch c f n k uid t = (r, t1, Some id) ->
      r = mkResponse id pending false None /\
      forall answer embed tDone tFail (t2 : Research.Reports) d msg,
        t2 !! id = Some d ->
        Research.executeResearch answer embed tDone id k t2 = Thrown msg ->
        exists d',
          Research.researchInBackground answer embed tDone tFail id k t2 !! id = Some d' /\
          status d' = Some failed /\ params d' = params d /\
          data d' = DataError (Lifecycle.error_text "Research failed" msg)) /\
  (forall c f n k uid (t : LinkedIn.Searches) r t1 id,
      LinkedIn.searchLinkedInProfessionals c f n k uid t = (r, t1, Some id) ->
      r = mkResponse id pending false None /\
      forall exa tDone tFail (t2 : LinkedIn.Searches) d msg,
        t2 !! id = Some d ->
        LinkedIn.executeLinkedInSearch exa tDone id t2 = Thrown msg ->
        exists d',
          LinkedIn.searchInBackground exa tDone tFail id t2 !! id = Some d' /\
          status d' = Some failed /\ params d' = params d /\
          data d' = DataError (Lifecycle.error_text "LinkedIn search failed" msg)) /\
  (forall schema msg generated clock p vp uid db,
      Jobs.validateJobSearchParams p = Returned vp ->
      Jobs.foundExisting
        (fst (Jobs.findOrCreateJobSearch (Jobs.tFind clock)
                (Jobs.mkKey (Jobs.p_query vp) (Jobs.p_location vp) 30
                   (Jobs.p_countryCode vp))
                uid (Jobs.searches db))) = false ->
      let '(r, db') := Jobs.searchJobs schema (Thrown msg) generated clock p uid db in
      r = mkResponse (Jobs.Stored (length (Jobs.searches db))) failed false None /\
      exists d', Jobs.searches db' !! length (Jobs.searches db) = Some d' /\
        status d' = Some failed /\
        data d' = DataError "Job search provider failed").
Proof.
  split; [|split].
  - intros c f n k uid t r t1 id Hcall.
    apply findOrCreate_answer in Hcall as (-> & _). split; [done|].
    intros answer embed tDone tFail t2 d msg Hd Hrun. eexists. split.
    + unfold Research.researchInBackground. by apply background_rejected.
    + done.
  - intros c f n k uid t r t1 id Hcall.
    apply findOrCreate_answer in Hcall as (-> & _). split; [done|].
    intros exa tDone tFail t2 d msg Hd Hrun. eexists. split.
    + unfold LinkedIn.searchInBackground. by apply background_rejected.
    + done.
  - intros schema msg generated clock p vp uid db Hv Hnew.
    rewrite (searchJobs_provider_failure _ _ _ _ _ _ _ _ Hv Hnew).
    split; [done|]. eexists. split.
    + cbn [Jobs.searches].
      rewrite lookup_app_r, Nat.sub_diag by done. done.
    + done.
Qed.

(** The theorem on empty stores, with providers that are down. *)
Lemma background_failure_becomes_failed_status_witness :
  (exists d',
      Research.researchInBackground (Thrown "Exa unavailable") (Returned tt) 1000 1001 0
        Scenario.acme [Lifecycle.pending_unit 0 Scenario.acme None] !! 0%nat = Some d' /\
      status d' = Some failed /\
      params d' = Scenario.acme /\
      data d' = DataError "Exa unavailable") /\
  (exists d',
      LinkedIn.searchInBackground (Thrown "Exa unavailable") 1000 1001 0
        [Lifecycle.pending_unit 0 Scenario.engineers None] !! 0%nat = Some d' /\
      status d' = Some failed /\
      params d' = Scenario.engineers /\
      data d' = DataError "Exa unavailable") /\
  (let '(r, db') :=
     Jobs.searchJobs Results.shipped (Thrown "SerpAPI returned status 500")
       (fun _ => "job-1") (Jobs.mkClock 1000 2000 (fun _ => 3000) 4000)
       (Jobs.mkParams "barista" "Leeds" (Some 10) (Some "gb")) None (Jobs.mkDb [] []) in
   r = mkResponse (Jobs.Stored 0) failed false None /\
   exists d', Jobs.searches db' !! 0%nat = Some d' /\
     status d' = Some failed /\ data d' = DataError "Job search provider failed").
Proof.
  destruct background_failure_becomes_failed_status as (HR & HL & HJ).
  split; [|split].
  - destruct (HR 0 0 0 Scenario.acme None [] (mkResponse 0%nat pending false None)
                [Lifecycle.pending_unit 0 Scenario.acme None] 0%nat eq_refl) as [_ Hbg].
    apply (Hbg (Thrown "Exa unavailable") (Returned tt) 1000 1001
               [Lifecycle.pending_unit 0 Scenario.acme None]
               (Lifecycle.pending_unit 0 Scenario.acme None) "Exa unavailable");
      reflexivity.
  - destruct (HL 0 0 0 Scenario.engineers None [] (mkResponse 0%nat pending false None)
                [Lifecycle.pending_unit 0 Scenario.engineers None] 0%nat eq_refl)
      as [_ Hbg].
    apply (Hbg (Thrown "Exa unavailable") 1000 1001
               [Lifecycle.pending_unit 0 Scenario.engineers None]
               (Lifecycle.pending_unit 0 Scenario.engineers None) "Exa unavailable");
      reflexivity.
  - apply (HJ Results.shipped "SerpAPI returned status 500" (fun _ => "job-1")
              (Jobs.mkClock 1000 2000 (fun _ => 3000) 4000)
              (Jobs.mkParams "barista" "Leeds" (Some 10) (Some "gb"))
              (Jobs.mkParams "barista" "Leeds" (Some 30) (Some "gb")) None (Jobs.mkDb [] []));
      reflexivity.
Defined.

(** C4, as stated, fails for job searches: this call of searchJobs creates
    a pending unit, its provider call throws, and the caller is answered
    with status failed; it never received a pending answer. *)
Lemma searchJobs_answers_failed_after_creating :
  let db := Jobs.mkDb [] [] in
  let p := Jobs.mkParams "barista" "Leeds" (Some 10) (Some "gb") in
  let clock := Jobs.mkClock 1000 2000 (fun _ => 3000) 4000 in
  fst (Jobs.findOrCreateJobSearch 1000 (Jobs.mkKey "barista" "Leeds" 30 (Some "gb")) None
         (Jobs.searches db)) = Jobs.mkFound 0 false pending /\
  let '(r, db') :=
    Jobs.searchJobs Results.shipped (Thrown "SerpAPI returned status 500")
      (fun _ => "job-1") clock p None db in
  responseStatus r = failed /\ responseStatus r <> pending /\
  unitId r = Jobs.Stored 0 /\ length (Jobs.searches db') = 1%nat.
Proof. vm_compute. repeat split; done. Qed.

(** ** Cosine similarity *)

Section EmbeddingFacts.
Local Open Scope float_scope.

(** The loop computes the dot product and the two sums of squares, each as
    the left-to-right sum the specification's quantities are. *)
Lemma accumulate_folds a b d na nb :
  length a = length b ->
  Embeddings.accumulate a b d na nb =
    (fold_left (fun acc xy => acc + fst xy * snd xy) (combine a b) d,
     fold_left (fun acc x => acc + x * x) a na,
     fold_left (fun acc x => acc + x * x) b nb).
Proof.
  revert b d na nb.
  induction a as [|x a IH]; intros [|y b] d na nb Hlen; simpl in *; try done.
  apply IH. lia.
Qed.

Lemma finish_accumulate a b :
  length a = length b ->
  Embeddings.finish (Embeddings.accumulate a b 0 0 0) =
    if PrimFloat.eqb (Embeddings.norm a) 0 || PrimFloat.eqb (Embeddings.norm b) 0
    then 0
    else Embeddings.dot a b / (Embeddings.norm a * Embeddings.norm b).
Proof. intros Hlen. by rewrite accumulate_folds. Qed.

(** C6, as amended.  On vectors of different lengths cosineSimilarity of the
    Convex functions returns 0 and calculateCosineSimilarity throws; on
    vectors of one length both return 0 when the computed norm of either is
    zero, and the quotient of the dot product by the product of the norms, in
    binary64 arithmetic, otherwise. *)
Theorem cosine_similarity_cases (a b : list float) :
  (length a <> length b ->
     Embeddings.cosineSimilarity a b = 0 /\
     Embeddings.calculateCosineSimilarity a b = Thrown "Vectors must have the same length") /\
  (length a = length b ->
     PrimFloat.eqb (Embeddings.norm a) 0 || PrimFloat.eqb (Embeddings.norm b) 0 = true ->
     Embeddings.cosineSimilarity a b = 0 /\
     Embeddings.calculateCosineSimilarity a b = Returned 0) /\
  (length a = length b ->
     PrimFloat.eqb (Embeddings.norm a) 0 || PrimFloat.eqb (Embeddings.norm b) 0 = false ->
     Embeddings.cosineSimilarity a b =
       Embeddings.dot a b / (Embeddings.norm a * Embeddings.norm b) /\
     Embeddings.calculateCosineSimilarity a b =
       Returned (Embeddings.dot a b / (Embeddings.norm a * Embeddings.norm b))).
Proof.
  unfold Embeddings.cosineSimilarity, Embeddings.calculateCosineSimilarity.
  split; [|split].
  - intros Hlen. apply Nat.eqb_neq in Hlen. by rewrite Hlen.
  - intros Hlen Hzero. rewrite (finish_accumulate a b Hlen), Hzero.
    apply Nat.eqb_eq in Hlen. by rewrite Hlen.
  - intros Hlen Hnz. rewrite (finish_accumulate a b Hlen), Hnz.
    apply Nat.eqb_eq in Hlen. by rewrite Hlen.
Qed.

(** The three cases of the theorem on vectors of length one and two. *)
Lemma cosine_similarity_cases_witness :
  (Embeddings.cosineSimilarity [1] [1; 2] = 0 /\
   Embeddings.calculateCosineSimilarity [1] [1; 2] =
     Thrown "Vectors must have the same length") /\
  (Embeddings.cosineSimilarity [0; 0] [1; 2] = 0 /\
   Embeddings.calculateCosineSimilarity [0; 0] [1; 2] = Returned 0) /\
  (Embeddings.cosineSimilarity [3; 4] [4; 3] =
     Embeddings.dot [3; 4] [4; 3] / (Embeddings.norm [3; 4] * Embeddings.norm [4; 3]) /\
   Embeddings.calculateCosineSimilarity [3; 4] [4; 3] =
     Returned (Embeddings.dot [3; 4] [4; 3] /
               (Embeddings.norm [3; 4] * Embeddings.norm [4; 3]))).
Proof.
  split; [|split].
  - apply (proj1 (cosine_similarity_cases [1] [1; 2])). simpl. lia.
  - apply (proj1 (proj2 (cosine_similarity_cases [0; 0] [1; 2]))); reflexivity.
  - apply (proj2 (proj2 (cosine_similarity_cases [3; 4] [4; 3]))); reflexivity.
Defined.

(** C6, as stated, fails twice: calculateCosineSimilarity throws on vectors
    of different lengths, and on the vector (1, 1, 1) against itself both
    functions return the binary64 number next above 1. *)
Lemma cosine_similarity_throws_and_exceeds_one :
  Embeddings.calculateCosineSimilarity [1] [1; 2] =
    Thrown "Vectors must have the same length" /\
  Embeddings.cosineSimilarity [1; 1; 1] [1; 1; 1] = 0x1.0000000000001p+0 /\
  PrimFloat.ltb 1 (Embeddings.cosineSimilarity [1; 1; 1] [1; 1; 1]) = true.
Proof. vm_compute. done. Qed.
End EmbeddingFacts.

(** ** The scheduler *)

Section SchedulerFacts.
Context {P Raw AI : Type}.
Implicit Types (t : list (Results.ResultRecord P Raw AI))
  (d : Results.ResultRecord P Raw AI)
  (sel : list (nat * Results.ResultRecord P Raw AI)).

Lemma filter_take_elem (p : Results.ResultRecord P Raw AI -> bool) n t i d :
  (i, d) ∈ Db.filter_take p n t -> t !! i = Some d /\ p d = true.
Proof.
  unfold Db.filter_take, Db.docs. intros Hin.
  apply subseteq_take, list_elem_of_In, filter_In in Hin as [Hin Hp].
  apply list_elem_of_In, elem_of_lookup_imap in Hin as (j & y & [= -> ->] & Hlk).
  auto.
Qed.

Lemma filter_take_length (p : Results.ResultRecord P Raw AI -> bool) n t :
  (length (Db.filter_take p n t) <= n)%nat.
Proof. unfold Db.filter_take. rewrite length_take. lia. Qed.

Lemma unprocessed_true d :
  Results.unprocessed d = true <->
  Results.isProcessed d = Some Results.Pfalse /\ Results.rawData d <> JsNull.
Proof.
  unfold Results.unprocessed. rewrite andb_true_iff, bool_decide_eq_true.
  destruct (Results.rawData d); simpl; intuition congruence.
Qed.

Lemma write_lookup ok i (f : Results.ResultRecord P Raw AI -> Results.ResultRecord P Raw AI)
    t d :
  t !! i = Some d ->
  Results.write ok i f t =
    if ok then Returned (<[i := f d]> t) else Thrown Results.schema_violation.
Proof. intros Hd. unfold Results.write. by rewrite (patch_Some _ _ _ _ Hd). Qed.

Lemma write_missing ok i (f : Results.ResultRecord P Raw AI -> Results.ResultRecord P Raw AI)
    t :
  t !! i = None -> Results.write ok i f t = Thrown Results.missing_document.
Proof. intros Hd. unfold Results.write, Db.patch. by rewrite Hd. Qed.

(** The loop does not throw when the selected records exist; it schedules
    every selected record when the schema lets it be marked pending and none
    otherwise, and leaves the table with one round written on each. *)
Lemma schedule_each_lookup schema now sel t queue s :
  (forall i d, (i, d) ∈ sel -> is_Some (t !! i)) ->
  exists t',
    Results.schedule_each schema now sel t queue s =
      Some (t',
            queue ++ (if Results.accepts schema Results.Ppending then sel.*1 else []),
            if Results.accepts schema Results.Ppending
            then Results.mkSummary (Results.processed s + length sel) (Results.errors s)
            else Results.mkSummary (Results.processed s) (Results.errors s + length sel)) /\
    length t' = length t /\
    forall i, t' !! i =
      if bool_decide (i ∈ sel.*1) then Results.round schema now <$> t !! i else t !! i.
Proof.
  revert t queue s. induction sel as [|[j d0] rest IH]; intros t queue s Hex.
  - exists t. split.
    + simpl. rewrite !Nat.add_0_r.
      destruct (Results.accepts _ _), s; simpl; by rewrite ?app_nil_r.
    + split; [done|]. intros i.
      rewrite bool_decide_eq_false_2; [done|]. rewrite fmap_nil. apply not_elem_of_nil.
  - destruct (Hex j d0) as [d Hd]; [by left|].
    assert (forall f : Results.ResultRecord P Raw AI -> Results.ResultRecord P Raw AI,
              forall i d', (i, d') ∈ rest -> is_Some (<[j := f d]> t !! i)) as Hex'.
    { intros f i d' Hi. apply lookup_lt_is_Some. rewrite length_insert.
      apply lookup_lt_is_Some. apply (Hex i d'). by right. }
    cbn [Results.schedule_each]. rewrite (write_lookup _ _ _ _ _ Hd).
    unfold Results.round.
    destruct (Results.accepts schema Results.Ppending) eqn:Hok.
    + destruct (IH (<[j := Results.mark_pending now d]> t) (queue ++ [j])
                   (Results.mkSummary (S (Results.processed s)) (Results.errors s))
                   (Hex' _))
        as (t' & Hrun & Hlen & Hlk).
      exists t'. rewrite Hrun. cbn [Results.processed Results.errors].
      rewrite <- app_assoc, fmap_cons. cbn [fst app length].
      replace (S (Results.processed s) + length rest)%nat
        with (Results.processed s + S (length rest))%nat by lia.
      split; [done|]. rewrite length_insert in Hlen. split; [done|].
      intros i. rewrite Hlk. unfold Results.round. rewrite Hok.
      destruct (decide (i = j)) as [->|Hne].
      * rewrite list_lookup_insert_eq by (by eapply lookup_lt_Some). rewrite Hd.
        rewrite (bool_decide_eq_true_2 (j ∈ j :: rest.*1)) by (by left).
        by destruct (bool_decide _).
      * rewrite list_lookup_insert_ne by done.
        destruct (decide (i ∈ rest.*1)) as [Hin|Hnin].
        -- rewrite !bool_decide_eq_true_2; [done|by right|done].
        -- rewrite !bool_decide_eq_false_2; [done| |done].
           intros [?|?]%elem_of_cons; done.
    + rewrite (patch_Some _ _ _ _ Hd).
      destruct (IH (<[j := Results.note_error Results.schema_violation now d]> t) queue
                   (Results.mkSummary (Results.processed s) (S (Results.errors s)))
                   (Hex' _))
        as (t' & Hrun & Hlen & Hlk).
      exists t'. rewrite Hrun. cbn [Results.processed Results.errors].
      rewrite fmap_cons. cbn [fst length].
      replace (S (Results.errors s) + length rest)%nat
        with (Results.errors s + S (length rest))%nat by lia.
      split; [done|]. rewrite length_insert in Hlen. split; [done|].
      intros i. rewrite Hlk. unfold Results.round. rewrite Hok.
      destruct (decide (i = j)) as [->|Hne].
      * rewrite list_lookup_insert_eq by (by eapply lookup_lt_Some). rewrite Hd.
        rewrite (bool_decide_eq_true_2 (j ∈ j :: rest.*1)) by (by left).
        by destruct (bool_decide _).
      * rewrite list_lookup_insert_ne by done.
        destruct (decide (i ∈ rest.*1)) as [Hin|Hnin].
        -- rewrite !bool_decide_eq_true_2; [done|by right|done].
        -- rewrite !bool_decide_eq_false_2; [done| |done].
           intros [?|?]%elem_of_cons; done.
Qed.

(** A batch run, in terms of its selection. *)
Lemma processUnprocessed_run schema default now batchSize t :
  exists t',
    Results.processUnprocessed schema default now batchSize t =
      Some (t',
            (if Results.accepts schema Results.Ppending
             then (Db.filter_take Results.unprocessed
                     (Results.batch_size batchSize default) t).*1
             else []),
            if Results.accepts schema Results.Ppending
            then Results.mkSummary
                   (length (Db.filter_take Results.unprocessed
                              (Results.batch_size batchSize default) t)) 0
            else Results.mkSummary 0
                   (length (Db.filter_take Results.unprocessed
                              (Results.batch_size batchSize default) t))) /\
    length t' = length t /\
    forall i, t' !! i =
      if bool_decide (i ∈ (Db.filter_take Results.unprocessed
                             (Results.batch_size batchSize default) t).*1)
      then Results.round schema now <$> t !! i else t !! i.
Proof.
  unfold Results.processUnprocessed.
  set (sel := Db.filter_take Results.unprocessed (Results.batch_size batchSize default) t).
  destruct (schedule_each_lookup schema now sel t [] (Results.mkSummary 0 0))
    as (t' & Hrun & Hlen & Hlk).
  { intros i d Hin. apply filter_take_elem in Hin as [Hd _]. eauto. }
  destruct sel as [|x rest] eqn:Hsel.
  - exists t. split; [by destruct (Results.accepts _ _)|]. split; [done|]. intros i.
    rewrite bool_decide_eq_false_2; [done|]. apply not_elem_of_nil.
  - exists t'. rewrite Hrun. done.
Qed.

(** What the selection takes. *)
Lemma selection_unprocessed n t i :
  i ∈ (Db.filter_take Results.unprocessed n t).*1 ->
  exists d, t !! i = Some d /\ Results.isProcessed d = Some Results.Pfalse /\
            Results.rawData d <> JsNull.
Proof.
  intros Hi. apply list_elem_of_fmap in Hi as ([j d] & -> & Hin).
  apply filter_take_elem in Hin as [Hlk Hun]. apply unprocessed_true in Hun.
  exists d. tauto.
Qed.

Lemma processUnprocessed_checked schema default now batchSize t :
  Results.checked_batch schema (Results.batch_size batchSize default) t
    (Results.processUnprocessed schema default now batchSize t).
Proof.
  unfold Results.checked_batch.
  set (n := Results.batch_size batchSize default).
  destruct (processUnprocessed_run schema default now batchSize t)
    as (t' & Hrun & Hlen & Hlk).
  fold n in Hrun, Hlk. set (sel := Db.filter_take Results.unprocessed n t) in *.
  pose proof (selection_unprocessed n t) as Hsel. fold sel in Hsel.
  eexists t', _, _. split; [exact Hrun|].
  split; [apply filter_take_length|].
  split; [destruct (Results.accepts _ _); simpl; rewrite ?length_fmap; f_equal; lia|].
  split; [exact Hsel|]. split; [|split].
  - intros i d Hd Hst Hi. destruct (Hsel i Hi) as (d' & Hd' & Hf & _).
    rewrite Hd in Hd'. injection Hd' as <-. rewrite Hf in Hst. by destruct Hst.
  - intros i Hi. destruct (Results.accepts schema Results.Ppending) eqn:Hok;
      [|by apply elem_of_nil in Hi].
    split; [done|]. destruct (Hsel i Hi) as (d & Hd & _).
    rewrite Hlk, bool_decide_eq_true_2, Hd by done. unfold Results.round.
    rewrite Hok. by eexists.
  - intros i Hi Hq. destruct (Results.accepts schema Results.Ppending) eqn:Hok; [done|].
    split; [done|]. destruct (Hsel i Hi) as (d & Hd & Hf & _).
    rewrite Hlk, bool_decide_eq_true_2, Hd by done. unfold Results.round.
    rewrite Hok. by eexists.
Qed.

Lemma processUnprocessed_sound schema default now batchSize t :
  Results.coherent schema ->
  Forall (fun d => Results.valid schema d = true) t ->
  Results.sound_batch (Results.batch_size batchSize default) t
    (Results.processUnprocessed schema default now batchSize t).
Proof.
  intros Hco Hvalid. unfold Results.sound_batch.
  set (n := Results.batch_size batchSize default).
  destruct (processUnprocessed_run schema default now batchSize t)
    as (t' & Hrun & Hlen & Hlk).
  fold n in Hrun, Hlk. set (sel := Db.filter_take Results.unprocessed n t) in *.
  pose proof (selection_unprocessed n t) as Hsel. fold sel in Hsel.
  assert (sel = [] \/ Results.accepts schema Results.Ppending = true) as Hcase.
  { destruct sel as [|[i d] rest] eqn:Hs; [by left|]. right.
    destruct (Hsel i) as (d' & Hd' & Hf & _); [by left|].
    apply Hco. rewrite Forall_lookup in Hvalid. specialize (Hvalid i d' Hd').
    unfold Results.valid in Hvalid. by rewrite Hf in Hvalid. }
  assert (Results.processUnprocessed schema default now batchSize t =
            Some (t', sel.*1, Results.mkSummary (length sel.*1) 0)) as Hrun'.
  { rewrite Hrun, length_fmap. destruct Hcase as [->| ->]; [|done].
    by destruct (Results.accepts _ _). }
  eexists t', _, _. split; [exact Hrun'|]. split; [done|].
  split; [rewrite length_fmap; apply filter_take_length|]. split; [done|].
  split; [exact Hsel|]. split.
  - intros i d Hd Hst Hi. destruct (Hsel i Hi) as (d' & Hd' & Hf & _).
    rewrite Hd in Hd'. injection Hd' as <-. rewrite Hf in Hst. by destruct Hst.
  - intros i Hi. destruct Hcase as [Hnil|Hok]; [by rewrite Hnil in Hi; apply elem_of_nil in Hi|].
    destruct (Hsel i Hi) as (d & Hd & _).
    rewrite Hlk, bool_decide_eq_true_2, Hd by done. unfold Results.round.
    rewrite Hok. by eexists.
Qed.
End SchedulerFacts.

(** C7. The batch selection of processUnprocessedJobs and of
    processUnprocessedLinkedInProfiles takes only records whose [isProcessed]
    is "false" and whose [rawData] is not [null]: a record that is processed
    ("true") or in flight ("pending") is never selected, whatever the schema
    and whatever the table holds.  An enrichment is scheduled only for a
    selected record, and that record is pending in the table the mutation
    leaves, which is the table the scheduled enrichment starts from; a
    selected record whose patch the schema rejects is not scheduled.  When the
    table passes the schema, and the schema lets a record that may be
    selected be marked pending, every selected record is scheduled and
    pending and no error is counted.  Both hold of convex/schema.ts as it is,
    under which no stored record has [isProcessed] "false" and the selection
    is empty, and of the three strings the functions declare. *)
Theorem batch_selects_only_unprocessed :
  (forall schema now batchSize (t : list Jobs.JobRow),
      Results.checked_batch schema (Results.batch_size batchSize 50) t
        (Jobs.processUnprocessedJobs schema now batchSize t) /\
      (Results.coherent schema ->
       Forall (fun d => Results.valid schema d = true) t ->
       Results.sound_batch (Results.batch_size batchSize 50) t
         (Jobs.processUnprocessedJobs schema now batchSize t))) /\
  (forall schema now batchSize (t : list Profiles.ProfileRow),
      Results.checked_batch schema (Results.batch_size batchSize 5) t
        (Profiles.processUnprocessedLinkedInProfiles schema now batchSize t) /\
      (Results.coherent schema ->
       Forall (fun d => Results.valid schema d = true) t ->
       Results.sound_batch (Results.batch_size batchSize 5) t
         (Profiles.processUnprocessedLinkedInProfiles schema now batchSize t))) /\
  Results.coherent Results.shipped /\ Results.coherent Results.tri_state.
Proof.
  split; [|split; [|split; by intros ?]].
  - intros schema now batchSize t. split.
    + apply processUnprocessed_checked.
    + apply processUnprocessed_sound.
  - intros schema now batchSize t. split.
    + apply processUnprocessed_checked.
    + apply processUnprocessed_sound.
Qed.

(** The theorem on two tables of jobs: under the three strings, five
    unprocessed jobs and batch size 2; under convex/schema.ts as it is, a job
    stored by saveJobResult without [isProcessed]. *)
Lemma batch_selects_only_unprocessed_witness :
  Results.sound_batch 2
    (replicate 5 (Jobs.new_job 1000 (Scenario.save_barista 0 (Some "gb"))))
    (Jobs.processUnprocessedJobs Results.tri_state 2000 (Some 2%nat)
       (replicate 5 (Jobs.new_job 1000 (Scenario.save_barista 0 (Some "gb"))))) /\
  Results.sound_batch 50 [Scenario.imported_job]
    (Jobs.processUnprocessedJobs Results.shipped 2000 None [Scenario.imported_job]).
Proof.
  destruct batch_selects_only_unprocessed as (HJ & _ & Hshipped & Htri).
  split.
  - apply (HJ Results.tri_state 2000 (Some 2%nat)
              (replicate 5 (Jobs.new_job 1000 (Scenario.save_barista 0 (Some "gb")))));
      [exact Htri|]. by repeat constructor.
  - apply (HJ Results.shipped 2000 None [Scenario.imported_job]);
      [exact Hshipped|]. by repeat constructor.
Defined.

(** A run with batch size 2 over five unprocessed jobs, under the three
    strings, schedules the two oldest and leaves the other three unprocessed;
    under convex/schema.ts as it is, the same table, which that schema would
    not have let in, has both patches rejected, nothing scheduled and two
    errors counted. *)
Lemma processUnprocessedJobs_batch_of_two :
  let job := Jobs.new_job 1000 (Scenario.save_barista 0 (Some "gb")) in
  match Jobs.processUnprocessedJobs Results.tri_state 2000 (Some 2%nat)
          [job; job; job; job; job] with
  | Some (t', queue, s) =>
      queue = [0%nat; 1%nat] /\ s = Results.mkSummary 2 0 /\
      Results.isProcessed <$> t' =
        [Some Results.Ppending; Some Results.Ppending;
         Some Results.Pfalse; Some Results.Pfalse; Some Results.Pfalse]
  | None => False
  end /\
  match Jobs.processUnprocessedJobs Results.shipped 2000 (Some 2%nat)
          [job; job; job; job; job] with
  | Some (t', queue, s) =>
      queue = [] /\ s = Results.mkSummary 0 2 /\
      Results.isProcessed <$> t' = replicate 5 (Some Results.Pfalse)
  | None => False
  end.
Proof. vm_compute. repeat split; done. Qed.

(** ** Errors of the enrichment *)

Section EnrichmentFacts.
Context {P Raw AI : Type}.
Implicit Types (t : list (Results.ResultRecord P Raw AI))
  (d : Results.ResultRecord P Raw AI).

(** When the try block of the action throws, the catch block runs
    markError.  Under a schema that has the string "false" the record is
    unprocessed again, carries the message, and passes the selection filter
    of the next batch run; under one that has not, the patch is rejected, the
    record stays as it was and the action throws the exception of the
    patch. *)
Lemma processWithAI_resets schema fallback env reply now id t d msg :
  t !! id = Some d ->
  Results.call_api fallback env reply = Thrown msg ->
  Results.processWithAI schema fallback env reply now id t =
    (if Results.accepts schema Results.Pfalse
     then (Thrown msg, <[id := Results.mark_error msg now d]> t)
     else (Thrown Results.schema_violation, t)) /\
  Results.isProcessed (Results.mark_error msg now d) = Some Results.Pfalse /\
  Results.processingError (Results.mark_error msg now d) = Some msg /\
  (Results.rawData d <> JsNull ->
   Results.unprocessed (Results.mark_error msg now d) = true).
Proof.
  intros Hd Hcall. unfold Results.processWithAI, Results.markError.
  rewrite Hcall, (write_lookup _ _ _ _ _ Hd).
  split; [by destruct (Results.accepts _ _)|]. repeat split.
  intros Hraw. apply unprocessed_true. by split.
Qed.
End EnrichmentFacts.

(** C8. A job is in the table without [isProcessed], stored by
    saveJobResult; the language model throws while the route
    POST /api/jobs/process-unprocessed enriches it.  The catch block of the
    route counts the failure and writes nothing: the route answers
    [success: true] and the job is as it was, without a [processingError].
    processJobWithAI, calling the route, therefore returns normally and does
    not run markJobError.  When its try block does throw (here, the base URL
    is not set), the patch of markJobError, [isProcessed: "false"], is
    rejected by the schema: the exception of the patch leaves the action and
    the job is again as it was.  In each case the job is not "false", so no
    batch run selects it. *)
Lemma enrichment_failure_is_not_recorded :
  let job := Scenario.imported_job in
  let model_down :=
    Jobs.mkEnrichment (fun _ _ => Thrown "model timed out") (fun _ => Returned tt)
      (fun _ => 3000) in
  Jobs.saveJobResult Results.shipped 1000 (Scenario.save_barista 0 (Some "gb")) None []
    = (Returned 0%nat, [job]) /\
  Jobs.jobsToProcess [0%nat] (Some 1%nat) [job] = [(0%nat, job)] /\
  Jobs.processUnprocessedRoute Results.shipped model_down [0%nat] (Some 1%nat) [job] =
    (Results.mkBody true None 0 1, [job]) /\
  Jobs.processJobWithAI Results.shipped Scenario.env Jobs.Reached model_down 3001 0 [job] =
    (Returned tt, [job]) /\
  Jobs.processJobWithAI Results.shipped (Results.mkEnv None (Some "secret")) Jobs.Reached
    model_down 3001 0 [job] = (Thrown Results.schema_violation, [job]) /\
  Results.isProcessed job = None /\
  Results.processingError job = None /\
  Results.unprocessed job = false /\
  Jobs.processUnprocessedJobs Results.shipped 4000 None [job] =
    Some ([job], [], Results.mkSummary 0 0).
Proof. vm_compute. repeat split; done. Qed.

(** The same failure under a schema with the three strings: the job is
    selected by a batch run and marked pending, the route counts the failure
    and answers [success: true], processJobWithAI returns normally, and the
    job stays pending, without a [processingError]; the next batch run
    selects nothing. *)
Lemma enrichment_failure_leaves_job_pending :
  let job := Jobs.new_job 1000 (Scenario.save_barista 0 (Some "gb")) in
  let stuck := Results.mark_pending 2000 job in
  let model_down :=
    Jobs.mkEnrichment (fun _ _ => Thrown "model timed out") (fun _ => Returned tt)
      (fun _ => 3000) in
  Jobs.processUnprocessedJobs Results.tri_state 2000 None [job] =
    Some ([stuck], [0%nat], Results.mkSummary 1 0) /\
  Jobs.processUnprocessedRoute Results.tri_state model_down [0%nat] (Some 1%nat) [stuck] =
    (Results.mkBody true None 0 1, [stuck]) /\
  Jobs.processJobWithAI Results.tri_state Scenario.env Jobs.Reached model_down 3001 0
    [stuck] = (Returned tt, [stuck]) /\
  Results.isProcessed stuck = Some Results.Ppending /\
  Results.processingError stuck = None /\
  Results.unprocessed stuck = false /\
  Jobs.processUnprocessedJobs Results.tri_state 4000 None [stuck] =
    Some ([stuck], [], Results.mkSummary 0 0).
Proof. vm_compute. repeat split; done. Qed.

(** ** Storing a job once *)

Lemma new_job_in_range now a1 a2 :
  Jobs.arg_jobId a1 = Jobs.arg_jobId a2 ->
  Jobs.arg_provider a1 = Jobs.arg_provider a2 ->
  Jobs.arg_countryCode a1 = Jobs.arg_countryCode a2 ->
  or_undefined (Jobs.arg_countryCode a1) = Jobs.arg_countryCode a1 ->
  Jobs.job_range a2 (Jobs.new_job now a1) = true.
Proof.
  intros Hj Hp Hc Hcc. unfold Jobs.job_range, Jobs.by_job_unique. simpl.
  rewrite <- Hj, <- Hp, <- Hc, Hcc. by rewrite !bool_decide_eq_true_2.
Qed.

(** What a call of saveJobIfNotExists does: it answers with the oldest
    record in the index range; when there is none it inserts, under a schema
    that has the string "false", and throws, leaving the table as it was,
    under one that has not. *)
Lemma saveJobIfNotExists_cases schema now args (t : list Jobs.JobRow) :
  (exists i d, Db.first (Jobs.job_range args) t = Some (i, d) /\
     Jobs.saveJobIfNotExists schema now args t = (Returned (i, false), t)) \/
  (Db.first (Jobs.job_range args) t = None /\
   Jobs.saveJobIfNotExists schema now args t =
     if Results.accepts schema Results.Pfalse
     then (Returned (length t, true), t ++ [Jobs.new_job now args])
     else (Thrown Results.schema_violation, t)).
Proof.
  unfold Jobs.saveJobIfNotExists, Jobs.insert_job, Results.valid.
  destruct (Db.first _ t) as [[i d]|]; [left; eauto|right].
  split; [done|]. simpl. by destruct (Results.accepts _ _).
Qed.

(** Two candidates with the same job id, provider and country code, the
    country code not being the empty string: when the first call returns, the
    second call stores nothing and returns the id the first call returned,
    whichever searches found them. *)
Lemma saveJobIfNotExists_again schema now1 now2 a1 a2 (t : list Jobs.JobRow) :
  Jobs.arg_jobId a1 = Jobs.arg_jobId a2 ->
  Jobs.arg_provider a1 = Jobs.arg_provider a2 ->
  Jobs.arg_countryCode a1 = Jobs.arg_countryCode a2 ->
  or_undefined (Jobs.arg_countryCode a1) = Jobs.arg_countryCode a1 ->
  match Jobs.saveJobIfNotExists schema now1 a1 t with
  | (Returned (i1, _), t1) =>
      Jobs.saveJobIfNotExists schema now2 a2 t1 = (Returned (i1, false), t1)
  | (Thrown _, t1) =>
      t1 = t /\ Results.accepts schema Results.Pfalse = false /\
      Jobs.saveJobIfNotExists schema now2 a2 t1 = (Thrown Results.schema_violation, t)
  end.
Proof.
  intros Hj Hp Hc Hcc.
  assert (Jobs.job_range a2 = Jobs.job_range a1) as Hrange
    by (unfold Jobs.job_range; by rewrite Hj, Hp, Hc).
  destruct (saveJobIfNotExists_cases schema now1 a1 t)
    as [(i & d & Hl & ->)|[Hl ->]].
  - unfold Jobs.saveJobIfNotExists. by rewrite Hrange, Hl.
  - destruct (Results.accepts schema Results.Pfalse) eqn:Hok.
    + unfold Jobs.saveJobIfNotExists.
      rewrite Hrange, first_app, Hl. rewrite <- Hrange, new_job_in_range by done. done.
    + split; [done|]. split; [done|].
      destruct (saveJobIfNotExists_cases schema now2 a2 t)
        as [(i & d & Hl2 & _)|[_ ->]]; [by rewrite Hrange, Hl in Hl2|].
      by rewrite Hok.
Qed.

(** C9. Two searches, 0 and 1, find the job "job-42" of provider serpapi in
    Great Britain.  Under convex/schema.ts as it is, the insert of the first
    call, which writes [isProcessed: "false"], is rejected: the call throws
    and stores nothing, and so does the second call, which answers with no
    id at all; storeRawJobResult turns each exception into its own, which the
    loop of searchJobs catches.  Under a schema with the three strings the
    two calls store the job once, but not when the country code is the empty
    string: the lookup asks for records without a country code, the insert
    stores the empty string, and the second call stores a second record,
    answering [isNew = true]. *)
Lemma saveJobIfNotExists_does_not_answer_with_the_stored_job :
  (let '(r1, t1) :=
     Jobs.saveJobIfNotExists Results.shipped 1000 (Scenario.save_barista 0 (Some "gb")) [] in
   let '(r2, t2) :=
     Jobs.saveJobIfNotExists Results.shipped 2000 (Scenario.save_barista 1 (Some "gb")) t1 in
   r1 = Thrown Results.schema_violation /\ r2 = Thrown Results.schema_violation /\
   t1 = [] /\ t2 = [] /\
   Jobs.storeRawJobResult Results.shipped "generated" 2000 Scenario.raw_barista 1 None
     (Some "gb") t1 = (Thrown "Failed to store raw job result", [])) /\
  (let '(r1, t1) :=
     Jobs.saveJobIfNotExists Results.tri_state 1000
       (Scenario.save_barista 0 (Some EmptyString)) [] in
   let '(r2, t2) :=
     Jobs.saveJobIfNotExists Results.tri_state 2000
       (Scenario.save_barista 1 (Some EmptyString)) t1 in
   r1 = Returned (0%nat, true) /\ r2 = Returned (1%nat, true) /\ length t2 = 2%nat /\
   Jobs.jobId <$> (Results.identity <$> t2) = ["job-42"; "job-42"] /\
   Jobs.provider <$> (Results.identity <$> t2) = ["serpapi"; "serpapi"] /\
   Jobs.jobCountry <$> (Results.identity <$> t2) = [Some EmptyString; Some EmptyString]).
Proof. vm_compute. repeat split; done. Qed.

(** ** The number of results of a job search *)

Lemma findOrCreateJobSearch_key now args uid (t : Jobs.Searches) r t' :
  Jobs.findOrCreateJobSearch now args uid t = (r, t') ->
  exists u, t' !! Jobs.searchId r = Some u /\
    Jobs.query (params u) = Jobs.query args /\
    Jobs.location (params u) = Jobs.location args /\
    Jobs.numResults (params u) = Jobs.numResults args.
Proof.
  unfold Jobs.findOrCreateJobSearch.
  assert (exists u, (t ++ [Jobs.pending_search now args uid]) !! length t = Some u /\
            Jobs.query (params u) = Jobs.query args /\
            Jobs.location (params u) = Jobs.location args /\
            Jobs.numResults (params u) = Jobs.numResults args) as Hnew.
  { eexists. split; [by rewrite lookup_app_r, Nat.sub_diag|done]. }
  destruct (Db.first _ t) as [[i u]|] eqn:Hl; simpl.
  - apply first_oldest in Hl as (Hlk & Hrange & _).
    unfold Jobs.search_range, Jobs.by_search_unique in Hrange.
    rewrite !andb_true_iff, !bool_decide_eq_true in Hrange.
    destruct Hrange as (((Hq & Hloc) & _) & Hn).
    repeat case_match; intros [= <- <-]; simpl; eauto.
  - intros [= <- <-]. exact Hnew.
Qed.

(** C10. validateJobSearchParams, when it returns, returns the parameters
    with [numResults] set to 30 and the other fields as given; the unit that
    searchJobs answers with, found or created, has the query and location of
    the call and 30 as the number of results of its key, whatever number the
    caller asked for. *)
Theorem searchJobs_key_has_30_results :
  (forall p vp,
      Jobs.validateJobSearchParams p = Returned vp ->
      vp = Jobs.mkParams (Jobs.p_query p) (Jobs.p_location p) (Some 30)
             (Jobs.p_countryCode p)) /\
  (forall schema serp generated clock p uid db r db' i,
      Jobs.searchJobs schema serp generated clock p uid db = (r, db') ->
      unitId r = Jobs.Stored i ->
      exists u, Jobs.searches db' !! i = Some u /\
        Jobs.numResults (params u) = 30 /\
        Jobs.query (params u) = Jobs.p_query p /\
        Jobs.location (params u) = Jobs.p_location p).
Proof.
  split; [exact validateJobSearchParams_returned|].
  intros schema serp generated clock p uid db r db' i Hcall Hid.
  unfold Jobs.searchJobs in Hcall.
  destruct (Jobs.validateJobSearchParams p) as [vp|] eqn:Hv;
    [|by injection Hcall as <- <-].
  rewrite (validateJobSearchParams_returned _ _ Hv) in Hcall. simpl in Hcall.
  destruct (Jobs.findOrCreateJobSearch _ _ _ _) as [found s1] eqn:Hf.
  apply findOrCreateJobSearch_key in Hf as (u & Hu & Hq & Hl & Hn). simpl in Hq, Hl, Hn.
  assert (forall dat st now s2,
            Jobs.updateJobSearchResults now (Jobs.searchId found) dat st s1 = Some s2 ->
            exists u', s2 !! Jobs.searchId found = Some u' /\
              Jobs.numResults (params u') = 30 /\
              Jobs.query (params u') = Jobs.p_query p /\
              Jobs.location (params u') = Jobs.p_location p) as Hpatched.
  { intros dat st now s2 Hp. apply patch_lookup in Hp as (d & Hd & Hd' & _).
    rewrite Hu in Hd. injection Hd as <-. eexists. split; [exact Hd'|done]. }
  unfold Jobs.markJobSearchFailed in Hcall.
  repeat case_match; injection Hcall as <- <-; simpl in Hid; try done;
    injection Hid as <-; simpl; eauto.
Qed.

(** The theorem on a call that asks for 100 results. *)
Lemma searchJobs_key_has_30_results_witness :
  Jobs.mkParams "barista" "Leeds" (Some 30) None =
    Jobs.mkParams "barista" "Leeds" (Some 30) None /\
  exists u,
    Jobs.searches
      (snd (Jobs.searchJobs Results.shipped (Returned [Scenario.raw_barista])
              (fun _ => "job-1") (Jobs.mkClock 1000 2000 (fun _ => 3000) 4000)
              (Jobs.mkParams "barista" "Leeds" (Some 100) None) None (Jobs.mkDb [] [])))
      !! 0%nat = Some u /\
    Jobs.numResults (params u) = 30 /\
    Jobs.query (params u) = "barista" /\
    Jobs.location (params u) = "Leeds".
Proof.
  destruct searchJobs_key_has_30_results as (Hvalidate & Hsearch).
  split.
  - apply (Hvalidate (Jobs.mkParams "barista" "Leeds" (Some 100) None)). reflexivity.
  - apply (Hsearch Results.shipped (Returned [Scenario.raw_barista]) (fun _ => "job-1")
             (Jobs.mkClock 1000 2000 (fun _ => 3000) 4000)
             (Jobs.mkParams "barista" "Leeds" (Some 100) None) None (Jobs.mkDb [] [])
             (fst (Jobs.searchJobs Results.shipped (Returned [Scenario.raw_barista])
                     (fun _ => "job-1") (Jobs.mkClock 1000 2000 (fun _ => 3000) 4000)
                     (Jobs.mkParams "barista" "Leeds" (Some 100) None) None
                     (Jobs.mkDb [] []))));
      reflexivity.
Defined.

(** * Further properties *)

Section DocsFacts.
Context {A : Type}.
Implicit Types (t : list A) (p : A -> bool).

Lemma docs_lookup t i d : (i, d) ∈ Db.docs t <-> t !! i = Some d.
Proof.
  unfold Db.docs. rewrite elem_of_lookup_imap. split.
  - intros (j & y & [= -> ->] & Hlk). done.
  - intros Hlk. exists i, d. done.
Qed.

Lemma docs_filter_elem p t i d :
  (i, d) ∈ List.filter (fun x => p (snd x)) (Db.docs t) <-> t !! i = Some d /\ p d = true.
Proof.
  rewrite list_elem_of_In, filter_In, <- list_elem_of_In, docs_lookup. done.
Qed.
End DocsFacts.

Section CleanupFacts.
Context {K R : Type} `{EqDecision K}.
Implicit Types (t : list (SearchUnit K R)) (d : SearchUnit K R).

Lemma expire_mark_failed now d :
  Lifecycle.expire now d =
    if status_is pending d && expired_in_filter (expiresAt d) now
    then Cleanup.mark_failed now d else d.
Proof. done. Qed.

Lemma mark_failed_twice now d :
  Cleanup.mark_failed now (Cleanup.mark_failed now d) = Cleanup.mark_failed now d.
Proof. done. Qed.

(** The patches of the cleanup, over entries that exist: the table they
    leave, document by document. *)
Lemma patch_all_lookup now (entries : list (nat * SearchUnit K R)) t :
  (forall i d, (i, d) ∈ entries -> is_Some (t !! i)) ->
  exists t',
    Cleanup.patch_all now entries t = Some t' /\
    length t' = length t /\
    forall i, t' !! i =
      if bool_decide (i ∈ entries.*1) then Cleanup.mark_failed now <$> t !! i else t !! i.
Proof.
  revert t. induction entries as [|[j d0] rest IH]; intros t Hex.
  - exists t. split; [done|]. split; [done|]. intros i.
    rewrite bool_decide_eq_false_2; [done|]. rewrite fmap_nil. apply not_elem_of_nil.
  - destruct (Hex j d0) as [d Hd]; [by left|].
    cbn [Cleanup.patch_all]. rewrite (patch_Some _ _ _ _ Hd).
    destruct (IH (<[j := Cleanup.mark_failed now d]> t)) as (t' & Hrun & Hlen & Hlk).
    { intros i d' Hi. apply lookup_lt_is_Some. rewrite length_insert.
      apply lookup_lt_is_Some. apply (Hex i d'). by right. }
    exists t'. split; [done|]. rewrite length_insert in Hlen. split; [done|].
    intros i. rewrite Hlk, fmap_cons. cbn [fst].
    destruct (decide (i = j)) as [->|Hne].
    + rewrite list_lookup_insert_eq by (by eapply lookup_lt_Some). rewrite Hd.
      rewrite (bool_decide_eq_true_2 (j ∈ j :: rest.*1)) by (by left).
      by destruct (bool_decide _).
    + rewrite list_lookup_insert_ne by done.
      destruct (decide (i ∈ rest.*1)) as [Hin|Hnin].
      * rewrite !bool_decide_eq_true_2; [done|by right|done].
      * rewrite !bool_decide_eq_false_2; [done| |done].
        intros [?|?]%elem_of_cons; done.
Qed.

Lemma expiredEntries_elem now t i :
  i ∈ (Cleanup.expiredEntries now t).*1 <->
  exists d, t !! i = Some d /\
    status_is pending d && expired_in_filter (expiresAt d) now = true.
Proof.
  unfold Cleanup.expiredEntries. rewrite list_elem_of_fmap. split.
  - intros ([j d] & -> & Hin).
    apply (docs_filter_elem
             (fun d => status_is pending d && expired_in_filter (expiresAt d) now)) in Hin.
    exists d. done.
  - intros (d & Hd & Hp). exists (i, d). split; [done|].
    by apply (docs_filter_elem
                (fun d => status_is pending d && expired_in_filter (expiresAt d) now)).
Qed.

Lemma cleanup_run now t :
  Cleanup.cleanupExpiredEntries now t =
    Some (length (Cleanup.expiredEntries now t), Lifecycle.cleanupExpired now t).
Proof.
  unfold Cleanup.cleanupExpiredEntries.
  destruct (patch_all_lookup now (Cleanup.expiredEntries now t) t) as (t' & -> & Hlen & Hlk).
  { intros i d Hin. unfold Cleanup.expiredEntries in Hin.
    apply (docs_filter_elem
             (fun d => status_is pending d && expired_in_filter (expiresAt d) now)) in Hin.
    destruct Hin as [-> _]. eauto. }
  f_equal. f_equal. apply list_eq. intros i.
  rewrite Hlk, cleanup_lookup.
  destruct (t !! i) as [d|] eqn:Hd; simpl.
  - rewrite expire_mark_failed.
    destruct (status_is pending d && expired_in_filter (expiresAt d) now) eqn:Hp.
    + rewrite bool_decide_eq_true_2; [done|]. apply expiredEntries_elem. eauto.
    + rewrite bool_decide_eq_false_2; [done|].
      intros (d' & Hd' & Hp')%expiredEntries_elem. congruence.
  - by destruct (bool_decide _).
Qed.

Lemma expire_twice now d :
  Lifecycle.expire now (Lifecycle.expire now d) = Lifecycle.expire now d.
Proof.
  unfold Lifecycle.expire.
  destruct (status_is pending d && expired_in_filter (expiresAt d) now) eqn:Hp; simpl.
  - done.
  - by rewrite Hp.
Qed.

Lemma expire_settled now d :
  status_is pending (Lifecycle.expire now d)
  && expired_in_filter (expiresAt (Lifecycle.expire now d)) now = false.
Proof.
  unfold Lifecycle.expire.
  destruct (status_is pending d && expired_in_filter (expiresAt d) now) eqn:Hp; simpl.
  - done.
  - done.
Qed.

(** X1. cleanupExpiredEntries and cleanupExpiredLinkedInEntries, run at
    [now]: the mutation does not throw and reports as [updated] the number of
    pending units whose [expiresAt] is below [now] or missing; it writes
    exactly those failed, with [updatedAt = now], and leaves every other unit
    as it was; afterwards no pending unit with [expiresAt] below [now] is
    left, and a second run at the same time reports 0 and changes nothing. *)
Theorem cleanup_leaves_no_expired_pending_unit now t :
  exists t',
    Cleanup.cleanupExpiredEntries now t =
      Some (length (Cleanup.expiredEntries now t), t') /\
    length t' = length t /\
    (forall i d, t !! i = Some d ->
       t' !! i = Some (if status_is pending d && expired_in_filter (expiresAt d) now
                       then Cleanup.mark_failed now d else d)) /\
    (forall i d', t' !! i = Some d' ->
       ~ (status d' = Some pending /\ exists e, expiresAt d' = Some e /\ e < now)) /\
    Cleanup.cleanupExpiredEntries now t' = Some (0%nat, t').
Proof.
  exists (Lifecycle.cleanupExpired now t).
  split; [apply cleanup_run|]. split; [apply cleanup_length|].
  split; [|split].
  - intros i d Hd. by rewrite cleanup_lookup, Hd.
  - intros i d'. rewrite cleanup_lookup.
    destruct (t !! i) as [d|]; simpl; [|done]. intros [= <-] (Hs & e & He & Hlt).
    pose proof (expire_settled now d) as Hset.
    rewrite (status_is_true pending _ Hs), He in Hset. simpl in Hset.
    apply Z.ltb_ge in Hset. lia.
  - rewrite cleanup_run.
    assert (Cleanup.expiredEntries now (Lifecycle.cleanupExpired now t) = []) as ->.
    { apply elem_of_nil_inv. intros [i d] Hin. unfold Cleanup.expiredEntries in Hin.
      apply (docs_filter_elem
               (fun d => status_is pending d && expired_in_filter (expiresAt d) now))
        in Hin as [Hd Hp].
      rewrite cleanup_lookup in Hd. destruct (t !! i) as [d0|]; simpl in Hd; [|done].
      injection Hd as <-. by rewrite expire_settled in Hp. }
    simpl. f_equal. f_equal. unfold Lifecycle.cleanupExpired.
    rewrite <- list_fmap_compose. apply list_fmap_ext. intros _ d _. apply expire_twice.
Qed.
End CleanupFacts.

(** ** What the lookup reports *)

Section LookupFacts.
Context {K R : Type} `{EqDecision K}.
Implicit Types (t : list (SearchUnit K R)) (u d : SearchUnit K R) (k : K).

(** X2. findExistingResearch and findExistingLinkedInSearch return
    nothing exactly when no unit has the key; otherwise they return the
    newest unit with the key, reported failed when it is pending and its
    window has passed (the stored document is not written), and [isStale]
    exactly when it is complete and was created before [now - threshold]. *)
Theorem findExisting_reads_newest_and_overrides th now k t :
  match Lifecycle.findExisting th now k t with
  | None => forall i d, t !! i = Some d -> params d <> k
  | Some e =>
      exists d, t !! Lifecycle.ex_id e = Some d /\ params d = k /\
        (forall j d', (Lifecycle.ex_id e < j)%nat -> t !! j = Some d' -> params d' <> k) /\
        Lifecycle.ex_doc e =
          (if status_is pending d && expired_at_read (expiresAt d) now
           then Lifecycle.with_status failed d else d) /\
        Lifecycle.isStale e = (createdAt d <? now - th) && status_is complete d
  end.
Proof.
  unfold Lifecycle.findExisting.
  destruct (Db.first_desc (Lifecycle.key_is k) t) as [[i d]|] eqn:Hl.
  - apply first_desc_newest in Hl as (Hlk & Hk & Hnew).
    apply bool_decide_eq_true in Hk.
    assert (forall j d', (i < j)%nat -> t !! j = Some d' -> params d' <> k) as Hnew'.
    { intros j d' Hj Hd'. specialize (Hnew j d' Hj Hd').
      by apply bool_decide_eq_false in Hnew. }
    destruct (status_is pending d && expired_at_read (expiresAt d) now) eqn:Hexp.
    + exists d. simpl. rewrite Hexp. repeat split; auto.
      apply andb_true_iff in Hexp as [Hp _]. apply bool_decide_eq_true in Hp.
      rewrite (status_is_false complete pending d Hp) by done.
      by rewrite andb_false_r.
    + destruct ((createdAt d <? now - th) && status_is complete d) eqn:Hst;
        exists d; simpl; rewrite Hexp; repeat split; auto.
  - intros i d Hd. pose proof (proj1 (scan_desc_None _ _ _) Hl i d Hd) as Hk.
    by apply bool_decide_eq_false in Hk.
Qed.
End LookupFacts.

(** ** What a find-or-create call leaves in the store *)

Section KeepFacts.
Context {K R : Type} `{EqDecision K}.
Implicit Types (t : list (SearchUnit K R)) (u d : SearchUnit K R) (k : K).

Lemma expire_fields c d :
  params (Lifecycle.expire c d) = params d /\ data (Lifecycle.expire c d) = data d /\
  createdAt (Lifecycle.expire c d) = createdAt d /\
  expiresAt (Lifecycle.expire c d) = expiresAt d /\
  userId (Lifecycle.expire c d) = userId d.
Proof. unfold Lifecycle.expire. by destruct (_ && _). Qed.

Lemma findOrCreate_table th c f n k uid t :
  let '(r, t', bg) := Lifecycle.findOrCreate th c f n k uid t in
  (bg = None /\ t' = Lifecycle.cleanupExpired c t) \/
  (bg = Some (length t) /\ unitId r = length t /\
   t' = Lifecycle.cleanupExpired c t ++ [Lifecycle.pending_unit n k uid]).
Proof.
  destruct (findOrCreate_cases th c f n k uid t)
    as [->|(j & d & s & res & _ & _ & _ & ->)].
  - right. done.
  - left. done.
Qed.

Lemma findOrCreate_keeps th c f n k uid t :
  let '(r, t', bg) := Lifecycle.findOrCreate th c f n k uid t in
  (length t <= length t' <= S (length t))%nat /\
  (forall i u, t !! i = Some u ->
     exists u', t' !! i = Some u' /\
       params u' = params u /\ data u' = data u /\ createdAt u' = createdAt u /\
       expiresAt u' = expiresAt u /\ userId u' = userId u /\
       (status u' = status u \/ (status u = Some pending /\ status u' = Some failed)) /\
       (status u <> Some pending -> u' = u)) /\
  (forall id, bg = Some id ->
     id = length t /\ length t' = S (length t) /\
     t' !! id = Some (Lifecycle.pending_unit n k uid)) /\
  (bg = None -> length t' = length t).
Proof.
  pose proof (findOrCreate_table th c f n k uid t) as Htab.
  destruct (Lifecycle.findOrCreate th c f n k uid t) as [[r t'] bg].
  assert (forall i u, t !! i = Some u ->
            exists u', Lifecycle.cleanupExpired c t !! i = Some u' /\
              params u' = params u /\ data u' = data u /\ createdAt u' = createdAt u /\
              expiresAt u' = expiresAt u /\ userId u' = userId u /\
              (status u' = status u \/ (status u = Some pending /\ status u' = Some failed)) /\
              (status u <> Some pending -> u' = u)) as Hrows.
  { intros i u Hu. exists (Lifecycle.expire c u).
    rewrite cleanup_lookup, Hu. split; [done|].
    destruct (expire_fields c u) as (-> & -> & -> & -> & ->).
    do 5 (split; [done|]). unfold Lifecycle.expire.
    destruct (status_is pending u && expired_in_filter (expiresAt u) c) eqn:Hp; simpl.
    - apply andb_true_iff in Hp as [Hp _]. apply bool_decide_eq_true in Hp.
      split; [by right|]. done.
    - split; [by left|done]. }
  destruct Htab as [[-> ->]|(-> & Hid & ->)].
  - rewrite cleanup_length. split; [lia|]. split; [exact Hrows|]. split; [done|done].
  - rewrite length_app, cleanup_length. simpl. split; [lia|]. split; [|split].
    + intros i u Hu. destruct (Hrows i u Hu) as (u' & Hu' & Hrest).
      exists u'. split; [|exact Hrest].
      rewrite lookup_app_l; [done|]. rewrite cleanup_length. by eapply lookup_lt_Some.
    + intros id [= <-]. split; [done|]. split; [lia|].
      rewrite lookup_app_r by (by rewrite cleanup_length).
      by rewrite cleanup_length, Nat.sub_diag.
    + done.
Qed.
End KeepFacts.

(** X3. A find-or-create call never removes a unit and adds one at most.
    performResearch and searchLinkedInProfessionals keep key, data, creation
    time, window and user of every stored unit, change a status only from
    pending to failed, and leave every unit that is not pending as it was;
    when they start a background execution it is for the unit they appended.
    findOrCreateJobSearch leaves every stored unit as it was; it answers with
    a stored unit or appends the pending unit it answers with. *)
Theorem find_or_create_keeps_stored_units :
  (forall (K R : Type) (HK : EqDecision K) th c f n (k : K) uid (t : list (SearchUnit K R)),
      let '(r, t', bg) := Lifecycle.findOrCreate th c f n k uid t in
      (length t <= length t' <= S (length t))%nat /\
      (forall i u, t !! i = Some u ->
         exists u', t' !! i = Some u' /\
           params u' = params u /\ data u' = data u /\ createdAt u' = createdAt u /\
           expiresAt u' = expiresAt u /\ userId u' = userId u /\
           (status u' = status u \/ (status u = Some pending /\ status u' = Some failed)) /\
           (status u <> Some pending -> u' = u)) /\
      (forall id, bg = Some id ->
         id = length t /\ length t' = S (length t) /\
         t' !! id = Some (Lifecycle.pending_unit n k uid)) /\
      (bg = None -> length t' = length t)) /\
  (forall now args uid (t : Jobs.Searches),
      let '(r, t') := Jobs.findOrCreateJobSearch now args uid t in
      (forall i u, t !! i = Some u -> t' !! i = Some u) /\
      (Jobs.foundExisting r = true -> t' = t /\ (Jobs.searchId r < length t)%nat) /\
      (Jobs.foundExisting r = false ->
         Jobs.searchId r = length t /\ Jobs.foundStatus r = pending /\
         t' = t ++ [Jobs.pending_search now args uid])).
Proof.
  split.
  - intros K R HK th c f n k uid t. apply findOrCreate_keeps.
  - intros now args uid t.
    destruct (findOrCreateJobSearch_cases now args uid t)
      as [->|(j & d & s & Hl & _ & _ & ->)].
    + split; [|split].
      * intros i u Hu. rewrite lookup_app_l; [done|]. by eapply lookup_lt_Some.
      * done.
      * done.
    + split; [done|]. split; [|done]. intros _. split; [done|]. simpl.
      apply first_oldest in Hl as (Hj & _). by eapply lookup_lt_Some.
Qed.

(** ** Invariants under a clock that does not run backwards *)

Section ClockFacts.
Context {K R : Type} `{EqDecision K}.
Implicit Types (t : list (SearchUnit K R)) (u d : SearchUnit K R) (k : K).

Lemma well_timed_later now now' d : now <= now' -> well_timed now d -> well_timed now' d.
Proof. unfold well_timed. lia. Qed.

Lemma expire_well_timed c d : well_timed c d -> well_timed c (Lifecycle.expire c d).
Proof.
  unfold Lifecycle.expire, well_timed. destruct (_ && _); simpl; lia.
Qed.

Lemma expire_window c d : window_of_creation d -> window_of_creation (Lifecycle.expire c d).
Proof. unfold Lifecycle.expire, window_of_creation. by destruct (_ && _). Qed.

Lemma lifecycle_clock :
  (forall th c f n k uid t,
      Forall (well_timed c) t -> c <= n ->
      let '(r, t', bg) := Lifecycle.findOrCreate th c f n k uid t in
      Forall (well_timed n) t' /\
      (Forall window_of_creation t -> Forall window_of_creation t')) /\
  (forall now tDone id dat s t t',
      Forall (well_timed now) t -> now <= tDone ->
      Lifecycle.updateResults tDone id dat s t = Some t' ->
      Forall (well_timed tDone) t' /\
      (Forall window_of_creation t -> Forall window_of_creation t')).
Proof.
  split.
  - intros th c f n k uid t Hwt Hcn.
    pose proof (findOrCreate_table th c f n k uid t) as Htab.
    destruct (Lifecycle.findOrCreate th c f n k uid t) as [[r t'] bg].
    assert (Forall (well_timed n) (Lifecycle.cleanupExpired c t)) as Hclean.
    { unfold Lifecycle.cleanupExpired. apply Forall_fmap.
      eapply Forall_impl; [exact Hwt|]. intros d Hd. simpl.
      apply (well_timed_later c n); [done|]. by apply expire_well_timed. }
    assert (Forall window_of_creation t ->
            Forall window_of_creation (Lifecycle.cleanupExpired c t)) as Hwin.
    { intros Hw. unfold Lifecycle.cleanupExpired. apply Forall_fmap.
      eapply Forall_impl; [exact Hw|]. intros d Hd. by apply expire_window. }
    destruct Htab as [[_ ->]|(_ & _ & ->)]; [done|].
    split.
    + apply Forall_app. split; [done|]. apply Forall_singleton.
      unfold well_timed. simpl. lia.
    + intros Hw. apply Forall_app. split; [auto|]. by apply Forall_singleton.
  - intros now tDone id dat s t t' Hwt Hle Hup.
    unfold Lifecycle.updateResults, Db.patch in Hup.
    destruct (t !! id) as [d|] eqn:Hd; [|done]. injection Hup as <-.
    pose proof (proj1 (Forall_lookup _ _) Hwt id d Hd) as [Hcu Hun].
    split.
    + apply Forall_insert.
      * eapply Forall_impl; [exact Hwt|]. intros x. by apply well_timed_later.
      * unfold well_timed. simpl. lia.
    + intros Hw. apply Forall_insert; [done|].
      exact (proj1 (Forall_lookup _ _) Hw id d Hd).
Qed.
End ClockFacts.

(** X4. Under a clock that does not run backwards, find-or-create and
    the result mutations keep [createdAt <= updatedAt <= now] on every unit;
    research reports and LinkedIn searches also keep
    [expiresAt = createdAt + 5 minutes], complete or not, while
    updateJobSearchResults clears [expiresAt] of the job search it writes. *)
Theorem search_units_keep_clock_invariants :
  (forall (K R : Type) (HK : EqDecision K) th c f n (k : K) uid (t : list (SearchUnit K R)),
      Forall (well_timed c) t -> c <= n ->
      let '(r, t', bg) := Lifecycle.findOrCreate th c f n k uid t in
      Forall (well_timed n) t' /\
      (Forall window_of_creation t -> Forall window_of_creation t')) /\
  (forall (K R : Type) (HK : EqDecision K) now tDone id dat s (t t' : list (SearchUnit K R)),
      Forall (well_timed now) t -> now <= tDone ->
      Lifecycle.updateResults tDone id dat s t = Some t' ->
      Forall (well_timed tDone) t' /\
      (Forall window_of_creation t -> Forall window_of_creation t')) /\
  (forall now args uid (t : Jobs.Searches),
      Forall (well_timed now) t ->
      Forall (well_timed now) (snd (Jobs.findOrCreateJobSearch now args uid t))) /\
  (forall now tDone id dat s (t t' : Jobs.Searches),
      Forall (well_timed now) t -> now <= tDone ->
      Jobs.updateJobSearchResults tDone id dat s t = Some t' ->
      Forall (well_timed tDone) t' /\
      exists d', t' !! id = Some d' /\ expiresAt d' = None /\ status d' = Some s).
Proof.
  split; [|split; [|split]].
  - intros K R HK th c f n k uid t. apply (proj1 lifecycle_clock).
  - intros K R HK now tDone id dat s t t'. apply (proj2 (@lifecycle_clock K R HK)).
  - intros now args uid t Hwt.
    destruct (findOrCreateJobSearch_cases now args uid t)
      as [->|(j & d & s & _ & _ & _ & ->)]; [|done].
    simpl. apply Forall_app. split; [done|]. apply Forall_singleton.
    unfold well_timed. simpl. lia.
  - intros now tDone id dat s t t' Hwt Hle Hup.
    unfold Jobs.updateJobSearchResults, Db.patch in Hup.
    destruct (t !! id) as [d|] eqn:Hd; [|done]. injection Hup as <-.
    pose proof (proj1 (Forall_lookup _ _) Hwt id d Hd) as [Hcu Hun].
    split.
    + apply Forall_insert.
      * eapply Forall_impl; [exact Hwt|]. intros x. by apply well_timed_later.
      * unfold well_timed. simpl. lia.
    + eexists. split; [apply list_lookup_insert_eq; by eapply lookup_lt_Some|done].
Qed.

(** ** Calling again *)

(** X5. Research and LinkedIn: a call creates a unit; a second call with
    the same key, whose cleanup and lookup run no later than five minutes
    after the creation, answers with that unit, pending and [isExisting],
    starts no background execution and leaves the unit as it was. *)
Theorem second_call_joins_the_pending_unit :
  (forall c1 f1 n1 c2 f2 n2 k uid uid' (t : Research.Reports) r1 t1 id,
      Research.performResearch c1 f1 n1 k uid t = (r1, t1, Some id) ->
      c2 <= n1 + fiveMinutes -> f2 <= n1 + fiveMinutes ->
      let '(r2, t2, bg2) := Research.performResearch c2 f2 n2 k uid' t1 in
      r2 = mkResponse id pending true None /\ bg2 = None /\
      length t2 = length t1 /\ t2 !! id = t1 !! id) /\
  (forall c1 f1 n1 c2 f2 n2 k uid uid' (t : LinkedIn.Searches) r1 t1 id,
      LinkedIn.searchLinkedInProfessionals c1 f1 n1 k uid t = (r1, t1, Some id) ->
      c2 <= n1 + fiveMinutes -> f2 <= n1 + fiveMinutes ->
      let '(r2, t2, bg2) := LinkedIn.searchLinkedInProfessionals c2 f2 n2 k uid' t1 in
      r2 = mkResponse id pending true None /\ bg2 = None /\
      length t2 = length t1 /\ t2 !! id = t1 !! id).
Proof.
  assert (forall (K R : Type) (HK : EqDecision K) th c1 f1 n1 c2 f2 n2 (k : K) uid uid'
            (t : list (SearchUnit K R)) r1 t1 id,
            Lifecycle.findOrCreate th c1 f1 n1 k uid t = (r1, t1, Some id) ->
            c2 <= n1 + fiveMinutes -> f2 <= n1 + fiveMinutes ->
            let '(r2, t2, bg2) := Lifecycle.findOrCreate th c2 f2 n2 k uid' t1 in
            r2 = mkResponse id pending true None /\ bg2 = None /\
            length t2 = length t1 /\ t2 !! id = t1 !! id) as Hgen.
  { intros K R HK th c1 f1 n1 c2 f2 n2 k uid uid' t r1 t1 id H1 Hc Hf.
    destruct (findOrCreate_again_pending th c1 f1 n1 c2 f2 n2 k uid uid' t r1 t1 id H1 Hc Hf)
      as (_ & -> & Hlen).
    split; [done|]. split; [done|]. split; [done|].
    apply findOrCreate_answer in H1 as [_ Hnew].
    rewrite cleanup_lookup, Hnew. simpl. f_equal.
    unfold Lifecycle.expire. simpl.
    replace (n1 + fiveMinutes <? c2) with false by (symmetry; apply Z.ltb_ge; lia).
    by rewrite ?andb_false_r. }
  split.
  - intros c1 f1 n1 c2 f2 n2 k uid uid' t r1 t1 id. apply Hgen.
  - intros c1 f1 n1 c2 f2 n2 k uid uid' t r1 t1 id. apply Hgen.
Qed.

(** No raw profile is stored: storeRawLinkedInProfile gives the boolean
    [false] for [isProcessed], which the argument validator of
    saveLinkedInProfile rejects. *)
Lemma store_profiles_nil found : LinkedIn.store_profiles found = [].
Proof. induction found as [|saved rest IH]; [done|]. simpl. exact IH. Qed.

(** X6. LinkedIn: a call creates a unit and Exa answers its background
    execution.  However many profiles Exa found, none is stored, and the unit
    is written complete with [totalFound] 0.  A later call with the same key
    whose lookup runs within 24 hours of the creation answers with that unit,
    complete, [isExisting] and with that result, and starts no background
    execution. *)
Theorem finished_linkedin_search_is_served_from_the_store
    c1 f1 n1 k uid (t : LinkedIn.Searches) r1 t1 id found tDone tFail c2 f2 n2 uid' :
  LinkedIn.searchLinkedInProfessionals c1 f1 n1 k uid t = (r1, t1, Some id) ->
  f2 - oneDay <= n1 ->
  let t2 := LinkedIn.searchInBackground (Returned found) tDone tFail id t1 in
  let '(r3, t3, bg3) := LinkedIn.searchLinkedInProfessionals c2 f2 n2 k uid' t2 in
  LinkedIn.executeLinkedInSearch (Returned found) tDone id t1 = Returned t2 /\
  t2 !! id =
    Some (Lifecycle.set_result (DataResult 0%nat) complete tDone
            (Lifecycle.pending_unit n1 k uid)) /\
  r3 = mkResponse id complete true (Some (DataResult 0%nat)) /\ bg3 = None /\
  length t3 = length t1.
Proof.
  intros H1 Hf.
  pose proof (findOrCreate_answer _ _ _ _ _ _ _ _ _ _ H1) as [_ Hnew].
  assert (Lifecycle.updateResults tDone id (DataResult 0%nat) complete t1 =
            Some (<[id := Lifecycle.set_result (DataResult 0%nat) complete tDone
                            (Lifecycle.pending_unit n1 k uid)]> t1)) as Hup.
  { unfold Lifecycle.updateResults. by rewrite (patch_Some _ _ _ _ Hnew). }
  assert (LinkedIn.executeLinkedInSearch (Returned found) tDone id t1 =
            Returned (<[id := Lifecycle.set_result (DataResult 0%nat) complete tDone
                                (Lifecycle.pending_unit n1 k uid)]> t1)) as Hrun.
  { unfold LinkedIn.executeLinkedInSearch, LinkedIn.updateLinkedInSearchResults.
    rewrite store_profiles_nil. simpl. unfold LinkedIn.Summary in *. by rewrite Hup. }
  assert (LinkedIn.searchInBackground (Returned found) tDone tFail id t1 =
            <[id := Lifecycle.set_result (DataResult 0%nat) complete tDone
                      (Lifecycle.pending_unit n1 k uid)]> t1) as ->.
  { unfold LinkedIn.searchInBackground, Lifecycle.background. by rewrite Hrun. }
  simpl.
  destruct (findOrCreate_again_complete oneDay c1 f1 n1 tDone (DataResult 0%nat)
              c2 f2 n2 k uid uid' t r1 t1 _ id H1 Hup Hf) as [Hcall Hlen].
  unfold LinkedIn.searchLinkedInProfessionals. unfold LinkedIn.Summary in *.
  rewrite Hcall. split; [done|]. split; [|done].
  apply list_lookup_insert_eq. by eapply lookup_lt_Some.
Qed.

(** A background execution that throws on the unit a call has just created:
    the unit is written failed with the message, and the next call with the
    same key creates another unit. *)
Lemma failed_execution_is_replaced {K R} `{EqDecision K} th fallback
    (run : list (SearchUnit K R) -> Outcome (list (SearchUnit K R)))
    c n (k : K) uid (t : list (SearchUnit K R)) tFail msg c2 f2 n2 uid' :
  run (Lifecycle.cleanupExpired c t ++ [Lifecycle.pending_unit n k uid]) = Thrown msg ->
  let failure :=
    Lifecycle.set_result (DataError (Lifecycle.error_text fallback msg)) failed tFail
      (Lifecycle.pending_unit n k uid) in
  let t2 :=
    Lifecycle.background fallback run tFail (length t)
      (Lifecycle.cleanupExpired c t ++ [Lifecycle.pending_unit n k uid]) in
  t2 = Lifecycle.cleanupExpired c t ++ [failure] /\
  t2 !! length t = Some failure /\
  Lifecycle.findOrCreate th c2 f2 n2 k uid' t2 = Lifecycle.created c2 n2 k uid' t2.
Proof.
  intros Hrun failure t2.
  assert (t2 = Lifecycle.cleanupExpired c t ++ [failure]) as Ht2.
  { unfold t2, Lifecycle.background. rewrite Hrun.
    unfold Lifecycle.updateResults, Db.patch.
    rewrite lookup_app_r by (by rewrite cleanup_length).
    rewrite cleanup_length, Nat.sub_diag. simpl.
    rewrite insert_app_r_alt by (by rewrite cleanup_length).
    by rewrite cleanup_length, Nat.sub_diag. }
  split; [exact Ht2|]. rewrite Ht2. split.
  - rewrite lookup_app_r by (by rewrite cleanup_length).
    by rewrite cleanup_length, Nat.sub_diag.
  - destruct (findOrCreate_cases th c2 f2 n2 k uid'
                (Lifecycle.cleanupExpired c t ++ [failure]))
      as [Hc|(j & d & s & res & Hl & Hsd & Hwhy & Hcall)]; [exact Hc|].
    exfalso. rewrite first_desc_app in Hl.
    replace (Lifecycle.key_is k failure) with true in Hl
      by (symmetry; unfold Lifecycle.key_is; by apply bool_decide_eq_true_2).
    injection Hl as <- <-.
    rewrite (expire_not_pending c2 failure failed) in Hsd by done.
    simpl in Hsd. injection Hsd as <-.
    destruct Hwhy as [[? _]|[? _]]; done.
Qed.

(** X7. performResearch with type "streaming": the call creates a
    pending unit and answers pending; its background execution throws
    whatever the providers would return, so the unit ends failed with the
    message "Streaming research not yet supported in background execution";
    the next call with the same key creates another unit. *)
Theorem streaming_research_always_fails c f n k uid (t : Research.Reports) r t1 id
    answer embed tDone tFail c2 f2 n2 uid' :
  Research.type k = Research.streaming ->
  Research.performResearch c f n k uid t = (r, t1, Some id) ->
  let t2 := Research.researchInBackground answer embed tDone tFail id k t1 in
  r = mkResponse id pending false None /\
  t2 !! id =
    Some (Lifecycle.set_result
            (DataError "Streaming research not yet supported in background execution")
            failed tFail (Lifecycle.pending_unit n k uid)) /\
  Research.performResearch c2 f2 n2 k uid' t2 = Lifecycle.created c2 n2 k uid' t2.
Proof.
  intros Hty H1.
  pose proof (findOrCreate_answer _ _ _ _ _ _ _ _ _ _ H1) as [-> _].
  apply findOrCreate_created in H1. unfold Lifecycle.created in H1.
  injection H1 as -> ->.
  destruct (failed_execution_is_replaced sevenDays "Research failed"
              (Research.executeResearch answer embed tDone (length t) k)
              c n k uid t tFail
              "Streaming research not yet supported in background execution"
              c2 f2 n2 uid') as (_ & Hfailed & Hnext).
  { unfold Research.executeResearch. by rewrite Hty. }
  simpl. split; [done|]. split; [exact Hfailed|exact Hnext].
Qed.

(** The call of the mutation updateResearchReport that executeResearch
    makes is never let through: it carries [embedding], [company],
    [position] and [location], which the argument validator does not
    declare. *)
Lemma executeResearch_thrown answer embed now reportId k (t : Research.Reports) :
  exists msg,
    Research.executeResearch answer embed now reportId k t = Thrown msg /\
    (Research.type k <> Research.streaming ->
     (forall m, answer <> Thrown m) ->
     msg = "Failed to update research report").
Proof.
  unfold Research.executeResearch, Research.storeReport.
  replace (Research.accepted Research.sent) with false by (by vm_compute).
  destruct (Research.type k), answer as [r|m], embed as [[]|e];
    eexists; (split; [reflexivity|]); intros Hty Hanswer;
    solve [done | by destruct (Hanswer m)].
Qed.

(** X29. performResearch, of whatever type: the call creates a pending
    unit and answers pending, and its background execution throws whatever
    the providers return.  When the provider answers, the exception is that
    of updateResearchReport of research-storage.ts, whose call of the
    mutation Convex rejects.  The unit ends failed with the message, no
    research report is ever written complete by the execution, and the next
    call with the same key creates another unit. *)
Theorem research_execution_always_fails c f n k uid (t : Research.Reports) r t1 id
    answer embed tDone tFail c2 f2 n2 uid' :
  Research.performResearch c f n k uid t = (r, t1, Some id) ->
  let t2 := Research.researchInBackground answer embed tDone tFail id k t1 in
  r = mkResponse id pending false None /\
  (exists msg,
      Research.executeResearch answer embed tDone id k t1 = Thrown msg /\
      (Research.type k <> Research.streaming ->
       (forall m, answer <> Thrown m) ->
       msg = "Failed to update research report") /\
      t2 !! id =
        Some (Lifecycle.set_result
                (DataError (Lifecycle.error_text "Research failed" msg))
                failed tFail (Lifecycle.pending_unit n k uid))) /\
  Research.performResearch c2 f2 n2 k uid' t2 = Lifecycle.created c2 n2 k uid' t2.
Proof.
  intros H1.
  pose proof (findOrCreate_answer _ _ _ _ _ _ _ _ _ _ H1) as [-> _].
  apply findOrCreate_created in H1. unfold Lifecycle.created in H1.
  injection H1 as -> ->.
  destruct (executeResearch_thrown answer embed tDone (length t) k
              (Lifecycle.cleanupExpired c t ++ [Lifecycle.pending_unit n k uid]))
    as (msg & Hrun & Hmsg).
  destruct (failed_execution_is_replaced sevenDays "Research failed"
              (Research.executeResearch answer embed tDone (length t) k)
              c n k uid t tFail msg c2 f2 n2 uid' Hrun) as (_ & Hfailed & Hnext).
  simpl. split; [done|]. split; [|exact Hnext].
  exists msg. split; [exact Hrun|]. split; [exact Hmsg|exact Hfailed].
Qed.

(** The clock invariant after a call on the store with the week-old report
    and after a lookup on the store with the day-old job search. *)
Lemma search_units_keep_clock_invariants_witness :
  Forall (well_timed (Scenario.day 8))
    (snd (fst (Research.performResearch (Scenario.day 8) (Scenario.day 8) (Scenario.day 8)
                 Scenario.acme None [Scenario.old_report]))) /\
  Forall (well_timed (Scenario.day 2))
    (snd (Jobs.findOrCreateJobSearch (Scenario.day 2) Scenario.barista None
            [Scenario.old_jobs])).
Proof.
  destruct search_units_keep_clock_invariants as (HL & _ & HJ & _).
  split.
  - generalize (HL Research.ResearchKey Research.Report _ sevenDays
                  (Scenario.day 8) (Scenario.day 8) (Scenario.day 8) Scenario.acme None
                  [Scenario.old_report]
                  ltac:(repeat constructor; vm_compute; discriminate)
                  ltac:(vm_compute; discriminate)).
    unfold Research.performResearch.
    destruct (Lifecycle.findOrCreate _ _ _ _ _ _ _) as [[r t'] bg].
    intros [Hw _]. exact Hw.
  - apply HJ. repeat constructor; vm_compute; discriminate.
Defined.

(** A second call one second after the unit was created. *)
Lemma second_call_joins_the_pending_unit_witness :
  fst (fst (Research.performResearch 1000 1000 1000 Scenario.acme None
              [Lifecycle.pending_unit 0 Scenario.acme None]))
    = mkResponse 0%nat pending true None /\
  fst (fst (LinkedIn.searchLinkedInProfessionals 1000 1000 1000 Scenario.engineers None
              [Lifecycle.pending_unit 0 Scenario.engineers None]))
    = mkResponse 0%nat pending true None.
Proof.
  destruct second_call_joins_the_pending_unit as (HR & HL).
  split.
  - generalize (HR 0 0 0 1000 1000 1000 Scenario.acme None None []
                  (mkResponse 0%nat pending false None)
                  [Lifecycle.pending_unit 0 Scenario.acme None] 0%nat eq_refl
                  ltac:(vm_compute; discriminate) ltac:(vm_compute; discriminate)).
    destruct (Research.performResearch _ _ _ _ _ _) as [[r2 t2] bg2].
    intros (Hr & _). exact Hr.
  - generalize (HL 0 0 0 1000 1000 1000 Scenario.engineers None None []
                  (mkResponse 0%nat pending false None)
                  [Lifecycle.pending_unit 0 Scenario.engineers None] 0%nat eq_refl
                  ltac:(vm_compute; discriminate) ltac:(vm_compute; discriminate)).
    destruct (LinkedIn.searchLinkedInProfessionals _ _ _ _ _ _) as [[r2 t2] bg2].
    intros (Hr & _). exact Hr.
Defined.

(** A call within the threshold after the background execution, for which
    Exa found two profiles, has written its result. *)
Lemma finished_linkedin_search_is_served_from_the_store_witness :
  fst (fst (LinkedIn.searchLinkedInProfessionals 5000000 5000000 5000000
              Scenario.engineers None
              (LinkedIn.searchInBackground (Returned [Returned 0%nat; Returned 1%nat])
                 5000 5001 0 [Lifecycle.pending_unit 0 Scenario.engineers None])))
    = mkResponse 0%nat complete true (Some (DataResult 0%nat)).
Proof.
  generalize (finished_linkedin_search_is_served_from_the_store
                0 0 0 Scenario.engineers None [] (mkResponse 0%nat pending false None)
                [Lifecycle.pending_unit 0 Scenario.engineers None] 0%nat
                [Returned 0%nat; Returned 1%nat] 5000 5001
                5000000 5000000 5000000 None eq_refl ltac:(vm_compute; discriminate)).
  cbv zeta.
  destruct (LinkedIn.searchLinkedInProfessionals _ _ _ _ _ _) as [[r3 t3] bg3].
  intros (_ & _ & Hr & _). exact Hr.
Defined.

(** A streaming request whose providers would both return. *)
Lemma streaming_research_always_fails_witness :
  let k := Research.mkKey "Acme" "Engineer" "Berlin" Research.streaming in
  let t2 :=
    Research.researchInBackground (Returned "report") (Returned tt) 1000 1001 0 k
      [Lifecycle.pending_unit 0 k None] in
  mkResponse 0%nat pending false None = mkResponse 0%nat pending false (@None (Data Research.Report)) /\
  t2 !! 0%nat =
    Some (Lifecycle.set_result
            (DataError "Streaming research not yet supported in background execution")
            failed 1001 (Lifecycle.pending_unit 0 k None)) /\
  Research.performResearch 2000 2000 2000 k None t2 = Lifecycle.created 2000 2000 k None t2.
Proof.
  exact (streaming_research_always_fails 0 0 0
           (Research.mkKey "Acme" "Engineer" "Berlin" Research.streaming) None []
           (mkResponse 0%nat pending false None)
           [Lifecycle.pending_unit 0
              (Research.mkKey "Acme" "Engineer" "Berlin" Research.streaming) None]
           0%nat (Returned "report") (Returned tt) 1000 1001 2000 2000 2000 None
           eq_refl eq_refl).
Defined.

(** A structured request whose providers both return. *)
Lemma research_execution_always_fails_witness :
  let t2 :=
    Research.researchInBackground (Returned "report") (Returned tt) 1000 1001 0
      Scenario.acme [Lifecycle.pending_unit 0 Scenario.acme None] in
  t2 = [Lifecycle.set_result (DataError "Failed to update research report") failed 1001
          (Lifecycle.pending_unit 0 Scenario.acme None)] /\
  Research.performResearch 2000 2000 2000 Scenario.acme None t2 =
    Lifecycle.created 2000 2000 Scenario.acme None t2.
Proof.
  destruct (research_execution_always_fails 0 0 0 Scenario.acme None []
              (mkResponse 0%nat pending false None)
              [Lifecycle.pending_unit 0 Scenario.acme None]
              0%nat (Returned "report") (Returned tt) 1000 1001 2000 2000 2000 None
              eq_refl) as (_ & _ & Hnext).
  split; [reflexivity|exact Hnext].
Defined.

(** ** searchJobs: invalid parameters, and the second call *)




Lemma or_undefined_id (cc : option string) :
  cc <> Some EmptyString -> or_undefined cc = cc.
Proof.
  intros Hne. destruct cc as [c|]; simpl; [|done].
  rewrite bool_decide_eq_false_2; [done|]. congruence.
Qed.

(** X9. searchJobs, when no unit is in the range of the key, the country
    code is not the empty string and the provider returns: the call stores a
    complete unit with the summary; a second call with the same parameters
    whose lookup runs within 24 hours of that update is answered from the
    store, complete and [isExisting], with the same summary; it does not
    consult the provider and changes nothing. *)
Theorem searchJobs_second_call_is_cached schema raws generated clock1 serp2 generated2
    clock2 p vp uid uid' db :
  Jobs.validateJobSearchParams p = Returned vp ->
  Db.first
    (Jobs.search_range (Jobs.mkKey (Jobs.p_query p) (Jobs.p_location p) 30 (Jobs.p_countryCode p)))
    (Jobs.searches db) = None ->
  Jobs.p_countryCode p <> Some EmptyString ->
  0 < Jobs.tUpdate clock1 ->
  Jobs.tFind clock2 - oneDay < Jobs.tUpdate clock1 ->
  let id := length (Jobs.searches db) in
  let summary := Jobs.mkSummary (length raws) (length (take 30 raws)) in
  let '(r1, db1) := Jobs.searchJobs schema (Returned raws) generated clock1 p uid db in
  let '(r2, db2) := Jobs.searchJobs schema serp2 generated2 clock2 p uid' db1 in
  r1 = mkResponse (Jobs.Stored id) complete false (Some (DataResult summary)) /\
  r2 = mkResponse (Jobs.Stored id) complete true (Some (DataResult summary)) /\
  db2 = db1.
Proof.
  intros Hv Hl Hcc Hpos Hfresh. simpl.
  set (key := Jobs.mkKey (Jobs.p_query p) (Jobs.p_location p) 30 (Jobs.p_countryCode p)) in *.
  set (summary := Jobs.mkSummary (length raws) (length (take 30 raws))).
  set (finished := Jobs.set_result (DataResult summary) complete (Jobs.tUpdate clock1)
                     (Jobs.pending_search (Jobs.tFind clock1) key uid)).
  assert (Jobs.searchJobs schema (Returned raws) generated clock1 p uid db =
          (mkResponse (Jobs.Stored (length (Jobs.searches db))) complete false
             (Some (DataResult summary)),
           Jobs.mkDb (Jobs.searches db ++ [finished])
             (Jobs.store_all schema generated (Jobs.tStore clock1) 0
                (length (Jobs.searches db)) uid
                (Jobs.p_countryCode p) raws (Jobs.results db)))) as ->.
  { unfold Jobs.searchJobs. rewrite Hv.
    rewrite (validateJobSearchParams_returned _ _ Hv). simpl. fold key.
    rewrite (findOrCreateJobSearch_none _ _ _ _ Hl). simpl.
    unfold Jobs.updateJobSearchResults, Db.patch.
    rewrite lookup_app_r, Nat.sub_diag by done. simpl.
    rewrite insert_app_r_alt, Nat.sub_diag by done. done. }
  assert (Jobs.search_range key finished = true) as Hin.
  { unfold Jobs.search_range, Jobs.by_search_unique. simpl.
    rewrite (or_undefined_id _ Hcc). by rewrite !bool_decide_eq_true_2. }
  unfold Jobs.searchJobs at 1. rewrite Hv.
  rewrite (validateJobSearchParams_returned _ _ Hv). simpl. fold key.
  unfold Jobs.findOrCreateJobSearch. rewrite first_app, Hl, Hin. simpl.
  unfold Jobs.completedAt. simpl.
  replace (Jobs.tUpdate clock1 =? 0) with false by (symmetry; apply Z.eqb_neq; lia).
  replace (Jobs.tUpdate clock1 >? Jobs.tFind clock2 - oneDay) with true
    by (symmetry; rewrite Z.gtb_ltb; apply Z.ltb_lt; lia).
  simpl. unfold Db.get. rewrite lookup_app_r, Nat.sub_diag by done. simpl. done.
Qed.

(** ** Storing raw jobs *)

Lemma saveJobIfNotExists_unique schema now args (t : list Jobs.JobRow) :
  Jobs.arg_countryCode args <> Some EmptyString ->
  unique_jobs t -> unique_jobs (Jobs.saveJobIfNotExists schema now args t).2.
Proof.
  intros Hcc Huniq.
  destruct (saveJobIfNotExists_cases schema now args t)
    as [(i & d & _ & ->)|[Hnone ->]]; [done|].
  destruct (Results.accepts schema Results.Pfalse); [|done].
  simpl. pose proof (proj1 (scan_None _ _ _) Hnone) as Hfresh.
  assert (forall i d, t !! i = Some d ->
            Jobs.jobId (Results.identity d) = Jobs.arg_jobId args ->
            Jobs.provider (Results.identity d) = Jobs.arg_provider args ->
            Jobs.jobCountry (Results.identity d) = Jobs.arg_countryCode args -> False)
    as Hclash.
  { intros i d Hd Hj Hp Hc. specialize (Hfresh i d Hd).
    unfold Jobs.job_range, Jobs.by_job_unique in Hfresh.
    rewrite (or_undefined_id _ Hcc), !bool_decide_eq_true_2 in Hfresh by done. done. }
  intros i j di dj Hi Hj Hid Hprov Hcountry. unfold Jobs.JobRow in *.
  destruct (decide (i < length t)%nat) as [Hil|Hil];
    destruct (decide (j < length t)%nat) as [Hjl|Hjl].
  - rewrite lookup_app_l in Hi, Hj by done. by eapply Huniq.
  - rewrite lookup_app_l in Hi by done. rewrite lookup_app_r in Hj by lia.
    apply list_lookup_singleton_Some in Hj as [_ <-]. simpl in *.
    exfalso. by eapply (Hclash i di).
  - rewrite lookup_app_l in Hj by done. rewrite lookup_app_r in Hi by lia.
    apply list_lookup_singleton_Some in Hi as [_ <-]. simpl in *.
    exfalso. by eapply (Hclash j dj).
  - rewrite lookup_app_r in Hi, Hj by lia.
    apply list_lookup_singleton_Some in Hi as [Hi _].
    apply list_lookup_singleton_Some in Hj as [Hj _]. lia.
Qed.

(** The table storeRawJobResult leaves is the one saveJobIfNotExists
    leaves. *)
Lemma storeRawJobResult_args schema generated now raw search uid cc (t : list Jobs.JobRow) :
  (Jobs.storeRawJobResult schema generated now raw search uid cc t).2 =
  (Jobs.saveJobIfNotExists schema now (Jobs.raw_args generated raw search uid cc) t).2.
Proof.
  unfold Jobs.storeRawJobResult.
  by destruct (Jobs.saveJobIfNotExists _ _ _ _) as [[[i isNew]|msg] t'].
Qed.

(** X10. The loop of searchJobs that stores raw jobs keeps job results
    unique by job id, provider and country code, provided the country code of
    the search is not the empty string. *)
Theorem store_all_keeps_jobs_unique schema generated now k search uid cc raws
    (t : list Jobs.JobRow) :
  cc <> Some EmptyString ->
  unique_jobs t ->
  unique_jobs (Jobs.store_all schema generated now k search uid cc raws t).
Proof.
  intros Hcc. revert k t.
  induction raws as [|raw raws IH]; intros k t Huniq; simpl; [done|].
  apply IH. rewrite storeRawJobResult_args. by apply saveJobIfNotExists_unique.
Qed.

(** The loop only appends, one record at most for each raw job, and none
    under a schema that has not the string "false". *)
Lemma store_all_added schema generated now k search uid cc raws (t : list Jobs.JobRow) :
  exists added,
    Jobs.store_all schema generated now k search uid cc raws t = t ++ added /\
    (length added <= length raws)%nat /\
    (Results.accepts schema Results.Pfalse = false -> added = []) /\
    Forall (fun d => exists j raw, raws !! j = Some raw /\
                       d = Jobs.new_job (now (k + j)%nat)
                             (Jobs.raw_args (generated (k + j)%nat) raw search uid cc))
      added.
Proof.
  revert k t.
  induction raws as [|raw raws IH]; intros k t; simpl.
  - exists []. by rewrite app_nil_r.
  - rewrite storeRawJobResult_args.
    assert (forall added,
              Forall (fun d => exists j raw', raws !! j = Some raw' /\
                         d = Jobs.new_job (now (S k + j)%nat)
                               (Jobs.raw_args (generated (S k + j)%nat) raw' search uid cc))
                added ->
              Forall (fun d => exists j raw', (raw :: raws) !! j = Some raw' /\
                         d = Jobs.new_job (now (k + j)%nat)
                               (Jobs.raw_args (generated (k + j)%nat) raw' search uid cc))
                added) as Hshift.
    { intros added Hall. eapply Forall_impl; [exact Hall|]. simpl.
      intros x (j & raw' & Hj & ->). exists (S j), raw'. split; [done|].
      by replace (k + S j)%nat with (S k + j)%nat by lia. }
    destruct (saveJobIfNotExists_cases schema (now k)
                (Jobs.raw_args (generated k) raw search uid cc) t)
      as [(i & d & _ & ->)|[_ ->]]; simpl.
    + destruct (IH (S k) t) as (added & -> & Hlen & Hnone & Hall).
      exists added. split; [done|]. split; [lia|]. split; [done|]. by apply Hshift.
    + destruct (Results.accepts schema Results.Pfalse) eqn:Hok; simpl.
      * destruct (IH (S k)
                    (t ++ [Jobs.new_job (now k)
                             (Jobs.raw_args (generated k) raw search uid cc)]))
          as (added & -> & Hlen & _ & Hall).
        exists (Jobs.new_job (now k) (Jobs.raw_args (generated k) raw search uid cc)
                  :: added).
        rewrite <- app_assoc. split; [done|]. split; [simpl; lia|]. split; [done|].
        constructor; [|by apply Hshift].
        exists 0%nat, raw. split; [done|]. by rewrite Nat.add_0_r.
      * destruct (IH (S k) t) as (added & -> & Hlen & Hnone & Hall).
        exists added. split; [done|]. split; [lia|]. split; [done|]. by apply Hshift.
Qed.

(** X11. The loop of searchJobs that stores raw jobs only appends: the
    records stored before are as they were and at most one record is added
    for each raw job.  Under a schema that has not the string "false", as
    convex/schema.ts, every insert is rejected and no record is added.  Each
    record that is added carries a raw job of the search, the clock of the
    mutation that stored that raw job, the id of the search, its country
    code, no AI data and [isProcessed = "false"]; it passes the selection
    filters of the batch run and of the enrichment route. *)
Theorem store_all_only_appends_unprocessed_jobs schema generated now k search uid cc raws
    (t : list Jobs.JobRow) :
  exists added,
    Jobs.store_all schema generated now k search uid cc raws t = t ++ added /\
    (length added <= length raws)%nat /\
    (Results.accepts schema Results.Pfalse = false -> added = []) /\
    Forall (fun d =>
              Results.isProcessed d = Some Results.Pfalse /\
              Results.aiData d = None /\
              (exists j raw, raws !! j = Some raw /\ Results.rawData d = JsObject raw /\
                 Results.createdAt d = now (k + j)%nat) /\
              Jobs.ownerSearch (Results.identity d) = Some search /\
              Jobs.jobCountry (Results.identity d) = cc /\
              Results.unprocessed d = true /\ Jobs.eligible d = true) added.
Proof.
  destruct (store_all_added schema generated now k search uid cc raws t)
    as (added & Heq & Hlen & Hnone & Hall).
  exists added. split; [exact Heq|]. split; [exact Hlen|]. split; [exact Hnone|].
  eapply Forall_impl; [exact Hall|]. simpl.
  intros d (j & raw & Hin & ->). simpl. repeat split; try done.
  exists j, raw. done.
Qed.

(** Two calls a minute apart on an empty store; the provider is down at the
    second one. *)
Lemma searchJobs_second_call_is_cached_witness :
  let p := Jobs.mkParams "barista" "Leeds" (Some 10) (Some "gb") in
  let '(r1, db1) :=
    Jobs.searchJobs Results.shipped (Returned [Scenario.raw_barista]) (fun _ => "job-1")
      (Jobs.mkClock 1000 2000 (fun _ => 3000) 4000) p None (Jobs.mkDb [] []) in
  let '(r2, db2) :=
    Jobs.searchJobs Results.shipped (Thrown "SerpAPI returned status 500")
      (fun _ => "job-2") (Jobs.mkClock 60000 61000 (fun _ => 62000) 63000) p None db1 in
  r1 = mkResponse (Jobs.Stored 0) complete false (Some (DataResult (Jobs.mkSummary 1 1))) /\
  r2 = mkResponse (Jobs.Stored 0) complete true (Some (DataResult (Jobs.mkSummary 1 1))) /\
  db2 = db1.
Proof.
  exact (searchJobs_second_call_is_cached Results.shipped [Scenario.raw_barista]
           (fun _ => "job-1") (Jobs.mkClock 1000 2000 (fun _ => 3000) 4000)
           (Thrown "SerpAPI returned status 500") (fun _ => "job-2")
           (Jobs.mkClock 60000 61000 (fun _ => 62000) 63000)
           (Jobs.mkParams "barista" "Leeds" (Some 10) (Some "gb"))
           (Jobs.mkParams "barista" "Leeds" (Some 30) (Some "gb")) None None
           (Jobs.mkDb [] []) eq_refl eq_refl ltac:(discriminate) eq_refl eq_refl).
Defined.

(** The same raw job found twice by one search, under a schema with the
    three strings. *)
Lemma store_all_keeps_jobs_unique_witness :
  unique_jobs
    (Jobs.store_all Results.tri_state (fun _ => "job-1") (fun _ => 1000) 0 0 None
       (Some "gb") [Scenario.raw_barista; Scenario.raw_barista] []).
Proof.
  apply store_all_keeps_jobs_unique; [discriminate|].
  intros i j di dj Hi. rewrite lookup_nil in Hi. discriminate.
Defined.

(** Two raw jobs of one search: under a schema with the three strings both
    are appended, each with the clock of its own mutation; under
    convex/schema.ts as it is none is. *)
Lemma store_all_only_appends_unprocessed_jobs_witness :
  let other := Jobs.mkRaw "job-43" None "Waiter" "serpapi" in
  (Results.createdAt <$>
     Jobs.store_all Results.tri_state (fun _ => "generated") (fun k => 1000 + Z.of_nat k) 0
       0 None (Some "gb") [Scenario.raw_barista; other] []) = [1000; 1001] /\
  Jobs.store_all Results.shipped (fun _ => "generated") (fun k => 1000 + Z.of_nat k) 0
    0 None (Some "gb") [Scenario.raw_barista; other] [] = [].
Proof.
  split; [reflexivity|].
  destruct (store_all_only_appends_unprocessed_jobs Results.shipped (fun _ => "generated")
              (fun k => 1000 + Z.of_nat k) 0%nat 0%nat None (Some "gb")
              [Scenario.raw_barista; Jobs.mkRaw "job-43" None "Waiter" "serpapi"] [])
    as (added & Heq & _ & Hnone & _).
  rewrite Heq, (Hnone eq_refl). reflexivity.
Defined.

(** ** The order and the size of a batch *)

Section SelectionFacts.
Context {A : Type}.
Implicit Types (t : list A) (p : A -> bool).

Lemma filter_imap_bound p (f : nat -> nat) t off i d :
  (forall k, (off <= f k)%nat) ->
  (i, d) ∈ List.filter (fun x => p (snd x)) (imap (fun k x => (f k, x)) t) -> (off <= i)%nat.
Proof.
  intros Hf Hin. apply list_elem_of_In, filter_In in Hin as [Hin _].
  apply list_elem_of_In, elem_of_lookup_imap in Hin as (k & y & [= -> ->] & _). apply Hf.
Qed.

(** [filter(pred).take(n)] over a table read in creation order takes the
    oldest matching documents: no matching document older than a taken one is
    left out. *)
Lemma filter_take_oldest_gen p n t (g : nat -> nat) off i j d d' :
  (forall k, g k = (off + k)%nat) ->
  (i, d) ∈ take n (List.filter (fun x => p (snd x)) (imap (fun k x => (g k, x)) t)) ->
  (j, d') ∈ List.filter (fun x => p (snd x)) (imap (fun k x => (g k, x)) t) ->
  (j < i)%nat ->
  (j, d') ∈ take n (List.filter (fun x => p (snd x)) (imap (fun k x => (g k, x)) t)).
Proof.
  revert n g off. induction t as [|x t IH]; intros n g off Hg; simpl; [by rewrite take_nil|].
  intros Hi Hj Hlt.
  assert (forall q, (q, d') ∈ List.filter (fun x => p (snd x))
                      (imap (fun k x => (g (S k), x)) t) -> (S off <= q)%nat)
    as Hbound.
  { intros q Hq. apply (filter_imap_bound p (fun k => g (S k)) t (S off) q d');
      [intros k; rewrite Hg; lia|exact Hq]. }
  assert (forall k, g (S k) = (S off + k)%nat) as Hg' by (intros k; rewrite Hg; lia).
  destruct (p x) eqn:Hx.
  - destruct n as [|n]; [by apply elem_of_nil in Hi|]. simpl in *.
    apply elem_of_cons in Hj as [[= -> ->]|Hj]; [by left|].
    apply elem_of_cons in Hi as [[= -> ->]|Hi].
    + apply Hbound in Hj. rewrite Hg in Hlt. lia.
    + right. exact (IH n (fun k => g (S k)) (S off) Hg' Hi Hj Hlt).
  - exact (IH n (fun k => g (S k)) (S off) Hg' Hi Hj Hlt).
Qed.

Lemma filter_take_oldest p n t i j d d' :
  (i, d) ∈ Db.filter_take p n t -> t !! j = Some d' -> p d' = true -> (j < i)%nat ->
  (j, d') ∈ Db.filter_take p n t.
Proof.
  unfold Db.filter_take, Db.docs. intros Hi Hj Hp Hlt.
  apply (filter_take_oldest_gen p n t (fun k => k) 0%nat i j d d');
    [done|exact Hi| |exact Hlt].
  apply (docs_filter_elem p). done.
Qed.

Lemma filter_docs_length_gen p (g : nat -> nat) t :
  length (List.filter (fun x => p (snd x)) (imap (fun k x => (g k, x)) t)) =
  length (List.filter p t).
Proof.
  revert g. induction t as [|x t IH]; intros g; simpl; [done|].
  destruct (p x); simpl; [f_equal|]; exact (IH (fun k => g (S k))).
Qed.

Lemma filter_docs_length p t :
  length (List.filter (fun x => p (snd x)) (Db.docs t)) = length (List.filter p t).
Proof. exact (filter_docs_length_gen p (fun k => k) t). Qed.

Lemma filter_take_count p n t :
  length (Db.filter_take p n t) = (n `min` length (List.filter p t))%nat.
Proof. unfold Db.filter_take. by rewrite length_take, filter_docs_length. Qed.
End SelectionFacts.

Section BatchFacts.
Context {P Raw AI : Type}.
Implicit Types (t : list (Results.ResultRecord P Raw AI))
  (d : Results.ResultRecord P Raw AI)
  (sel : list (nat * Results.ResultRecord P Raw AI)).

(** X12. processUnprocessedJobs and processUnprocessedLinkedInProfiles
    do not throw.  With batch size [n] (the argument, or the default when it
    is absent or 0) they select [min n u] records, [u] being the number of
    records that pass the selection filter.  Under a schema that lets a
    record be marked pending they schedule every selected record, report that
    number as processed and 0 errors, and mark each selected record pending
    with [updatedAt = now].  Under a schema that does not, as
    convex/schema.ts, they schedule none, report 0 processed and that number
    of errors, and note the error of the patch on each selected record, which
    stays unprocessed.  Every other record is left as it was. *)
Theorem batch_run_marks_exactly_the_scheduled_records schema default now batchSize t :
  exists t' queue,
    let selected :=
      (Db.filter_take Results.unprocessed (Results.batch_size batchSize default) t).*1 in
    Results.processUnprocessed schema default now batchSize t =
      Some (t', queue,
            Results.mkSummary (length queue) (length selected - length queue)) /\
    length selected =
      (Results.batch_size batchSize default `min`
         length (List.filter Results.unprocessed t))%nat /\
    queue = (if Results.accepts schema Results.Ppending then selected else []) /\
    length t' = length t /\
    (forall i, i ∈ selected ->
       t' !! i =
         (if Results.accepts schema Results.Ppending
          then Results.mark_pending now
          else Results.note_error Results.schema_violation now) <$> t !! i) /\
    (forall i, i ∉ selected -> t' !! i = t !! i).
Proof.
  destruct (processUnprocessed_run schema default now batchSize t)
    as (t' & Hrun & Hlen & Hlk).
  eexists t', _. cbv zeta. rewrite Hrun.
  split; [|split; [|split; [reflexivity|split; [done|split]]]].
  - destruct (Results.accepts _ _); simpl; rewrite ?length_fmap; repeat f_equal; lia.
  - rewrite length_fmap. apply filter_take_count.
  - intros i Hi. rewrite Hlk, bool_decide_eq_true_2 by done.
    unfold Results.round. by destruct (Results.accepts _ _).
  - intros i Hi. by rewrite Hlk, bool_decide_eq_false_2.
Qed.

(** X13. The batch selection is oldest first: when a record is
    scheduled, every older record that passes the selection filter is
    scheduled too. *)
Theorem batch_selection_is_oldest_first schema default now batchSize t t' queue s :
  Results.processUnprocessed schema default now batchSize t = Some (t', queue, s) ->
  forall i j d,
    i ∈ queue -> (j < i)%nat -> t !! j = Some d -> Results.unprocessed d = true ->
    j ∈ queue.
Proof.
  destruct (processUnprocessed_run schema default now batchSize t) as (t0 & Hrun & _).
  rewrite Hrun. intros [= <- <- <-] i j d Hi Hlt Hd Hun.
  destruct (Results.accepts schema Results.Ppending); [|by apply elem_of_nil in Hi].
  apply list_elem_of_fmap in Hi as ([i' di] & -> & Hin).
  apply list_elem_of_fmap. exists (j, d). split; [done|].
  by eapply filter_take_oldest.
Qed.

(** X14. Two batch runs in a row schedule disjoint sets of records,
    whatever their batch sizes: the second run does not throw, schedules none
    of the records the first one scheduled, and schedules only records that
    passed the selection filter before the first run. *)
Theorem consecutive_batch_runs_are_disjoint schema default now1 now2 batch1 batch2
    t t1 queue1 s1 :
  Results.processUnprocessed schema default now1 batch1 t = Some (t1, queue1, s1) ->
  exists t2 queue2 s2,
    Results.processUnprocessed schema default now2 batch2 t1 = Some (t2, queue2, s2) /\
    (forall i, i ∈ queue1 -> i ∉ queue2) /\
    (forall i, i ∈ queue2 ->
       exists d, t !! i = Some d /\ Results.unprocessed d = true).
Proof.
  intros Hfirst.
  destruct (processUnprocessed_run schema default now1 batch1 t)
    as (t0 & Hrun1 & Hlen1 & Hlk1).
  rewrite Hrun1 in Hfirst. injection Hfirst as <- <- <-.
  destruct (processUnprocessed_run schema default now2 batch2 t0) as (t2 & Hrun2 & _ & _).
  eexists t2, _, _. split; [exact Hrun2|].
  unfold Results.round in Hlk1.
  destruct (Results.accepts schema Results.Ppending) eqn:Hok;
    [|split; intros i Hi; [apply not_elem_of_nil|by apply elem_of_nil in Hi]].
  assert (forall i, i ∈ (Db.filter_take Results.unprocessed
                           (Results.batch_size batch2 default) t0).*1 ->
            exists d0, t0 !! i = Some d0 /\ Results.unprocessed d0 = true) as Hsel2.
  { intros i Hi. apply list_elem_of_fmap in Hi as ([i' di] & -> & Hin).
    apply filter_take_elem in Hin. eauto. }
  split.
  - intros i Hi1 Hi2. destruct (Hsel2 i Hi2) as (d0 & Hd0 & Hun).
    rewrite Hlk1, bool_decide_eq_true_2 in Hd0 by done.
    destruct (t !! i) as [d|]; simpl in Hd0; [|done]. injection Hd0 as <-.
    unfold Results.unprocessed in Hun. simpl in Hun. done.
  - intros i Hi2. destruct (Hsel2 i Hi2) as (d0 & Hd0 & Hun).
    rewrite Hlk1 in Hd0. case_bool_decide as Hin1.
    + destruct (t !! i) as [d|]; simpl in Hd0; [|done]. injection Hd0 as <-.
      unfold Results.unprocessed in Hun. simpl in Hun. done.
    + eauto.
Qed.
End BatchFacts.

(** ** The enrichment route *)

Section RouteFacts.
Implicit Types (t : list Jobs.JobRow) (row : Jobs.JobRow) (jobs : list (nat * Jobs.JobRow)).

Lemma jobsToProcess_elem jobIds limit t i job :
  (i, job) ∈ Jobs.jobsToProcess jobIds limit t ->
  t !! i = Some job /\ Jobs.eligible job = true.
Proof.
  unfold Jobs.jobsToProcess. destruct jobIds as [|j0 rest].
  - intros Hin. apply list_elem_of_In, filter_In in Hin as [Hin He]. split; [|done].
    apply list_elem_of_In in Hin. unfold Db.take_desc in Hin.
    apply subseteq_take, list_elem_of_In in Hin. rewrite <- in_rev in Hin.
    by apply list_elem_of_In, docs_lookup in Hin.
  - intros Hin. apply list_elem_of_In, in_flat_map in Hin as (j & _ & Hin).
    unfold Db.get in Hin. destruct (t !! j) as [job'|] eqn:Hj; [|done].
    destruct (Jobs.eligible job') eqn:He; [|done].
    destruct Hin as [[= <- <-]|[]]. done.
Qed.

Lemma enrich_each_spec schema x k t0 (ids : list nat) jobs t done failures :
  (forall i job, (i, job) ∈ jobs -> t0 !! i = Some job /\ i ∈ ids) ->
  length t = length t0 ->
  (forall i row, t0 !! i = Some row ->
     exists row', t !! i = Some row' /\ enriched_or_same schema x row row' /\
       (i ∉ ids -> row' = row)) ->
  exists t' done' failures',
    Jobs.enrich_each schema x k jobs t done failures = (t', done', failures') /\
    (done' + failures' = done + failures + length jobs)%nat /\
    length t' = length t0 /\
    (forall i row, t0 !! i = Some row ->
       exists row', t' !! i = Some row' /\ enriched_or_same schema x row row' /\
         (i ∉ ids -> row' = row)).
Proof.
  revert k t done failures.
  induction jobs as [|[i job] rest IH]; intros k t done failures Hjobs Hlen Hinv.
  - exists t, done, failures. simpl. split; [done|]. split; [lia|]. done.
  - destruct (Hjobs i job) as [Hjob Hid]; [by left|].
    assert (forall i' job', (i', job') ∈ rest -> t0 !! i' = Some job' /\ i' ∈ ids) as Hrest.
    { intros i' job' Hin. apply Hjobs. by right. }
    destruct (Hinv i job Hjob) as (cur & Hcur & Hrel & _).
    cbn [Jobs.enrich_each].
    assert (exists t' done' failures',
              Jobs.enrich_each schema x (S k) rest t done (S failures) =
                (t', done', failures') /\
              (done' + failures' = done + failures + length ((i, job) :: rest))%nat /\
              length t' = length t0 /\
              (forall i row, t0 !! i = Some row ->
                 exists row', t' !! i = Some row' /\ enriched_or_same schema x row row' /\
                   (i ∉ ids -> row' = row))) as Hfailed.
    { destruct (IH (S k) t done (S failures) Hrest Hlen Hinv)
        as (t' & d' & f' & -> & Hsum & Hrest').
      exists t', d', f'. split; [done|]. split; [simpl; lia|done]. }
    destruct (Results.rawData job) as [| |raw] eqn:Hraw; [exact Hfailed|exact Hfailed|].
    destruct (Jobs.parse x k raw) as [ai|msg] eqn:Hparse; [|exact Hfailed].
    unfold Jobs.storeEnriched.
    destruct (Jobs.embed x k) as [[]|msg] eqn:Hembed; [|exact Hfailed].
    unfold Results.updateWithAI. rewrite (write_lookup _ _ _ _ _ Hcur).
    destruct (Results.accepts schema Results.Ptrue && Results.embeddings schema) eqn:Hok;
      [|exact Hfailed].
    destruct (IH (S k) (<[i := Results.mark_processed ai (Jobs.tPatch x k) cur]> t)
                 (S done) failures Hrest)
      as (t' & d' & f' & Hrun & Hsum & Hrest').
    { by rewrite length_insert. }
    { intros j row Hrow. destruct (decide (j = i)) as [->|Hne].
      - rewrite list_lookup_insert_eq by (by eapply lookup_lt_Some).
        eexists. split; [done|]. split; [|done].
        rewrite Hjob in Hrow. injection Hrow as <-.
        right. exists k, raw, ai. repeat split; try done.
        destruct Hrel as [->|(k' & raw' & ai' & _ & _ & _ & _ & ->)]; done.
      - rewrite list_lookup_insert_ne by done. by apply Hinv. }
    exists t', d', f'. split; [exact Hrun|]. split; [simpl; lia|done].
Qed.

(** Under a schema that rejects the patch of updateJobResultWithAI every
    round of the loop ends in the catch block. *)
Lemma enrich_each_rejected schema x k jobs t done failures :
  Results.accepts schema Results.Ptrue && Results.embeddings schema = false ->
  Jobs.enrich_each schema x k jobs t done failures =
    (t, done, (failures + length jobs)%nat).
Proof.
  intros Hok. revert k failures.
  induction jobs as [|[i job] rest IH]; intros k failures; simpl.
  - by rewrite Nat.add_0_r.
  - replace (failures + S (length rest))%nat with (S failures + length rest)%nat by lia.
    unfold Jobs.storeEnriched, Results.updateWithAI, Results.write. rewrite Hok.
    destruct (Results.rawData job); try apply IH.
    destruct (Jobs.parse x k a); try apply IH.
    destruct (Jobs.embed x k); try apply IH.
    destruct (Db.patch _ _ _); apply IH.
Qed.

(** X15. POST /api/jobs/process-unprocessed answers [success: true]
    with [processed + failed] equal to the number of jobs it selected; it
    adds and removes no record, leaves every record that is processed ("true")
    or has no raw data as it was, and changes a record only by the patch of
    updateJobResultWithAI, with what the language model returned for the raw
    data of that record.  Under a schema that rejects that patch, as
    convex/schema.ts, which has neither the string "true" nor the three
    embedding fields the patch writes, the route changes nothing, counts
    every selected job as failed and still answers [success: true]. *)
Theorem route_counts_and_touches_only_eligible_jobs schema x jobIds limit t :
  exists t' done failures,
    Jobs.processUnprocessedRoute schema x jobIds limit t =
      (Results.mkBody true None done failures, t') /\
    (done + failures = length (Jobs.jobsToProcess jobIds limit t))%nat /\
    length t' = length t /\
    (forall i row, t !! i = Some row ->
       exists row', t' !! i = Some row' /\
         enriched_or_same schema x row row' /\
         (Jobs.eligible row = false -> row' = row)) /\
    (Results.accepts schema Results.Ptrue && Results.embeddings schema = false ->
     t' = t /\ done = 0%nat).
Proof.
  unfold Jobs.processUnprocessedRoute.
  destruct (enrich_each_spec schema x 0%nat t (Jobs.jobsToProcess jobIds limit t).*1
              (Jobs.jobsToProcess jobIds limit t) t 0%nat 0%nat)
    as (t' & d' & f' & Hrun & Hsum & Hlen & Hrows).
  - intros i job Hin. split; [by apply jobsToProcess_elem in Hin as [? _]|].
    apply list_elem_of_fmap. by exists (i, job).
  - done.
  - intros i row Hrow. exists row. split; [done|]. split; [by left|done].
  - exists t', d', f'. rewrite Hrun. split; [done|]. split; [lia|]. split; [done|].
    split.
    + intros i row Hrow. destruct (Hrows i row Hrow) as (row' & Hrow' & Hrel & Hout).
      exists row'. split; [done|]. split; [done|]. intros Hne. apply Hout.
      intros Hin. apply list_elem_of_fmap in Hin as ([i' job] & -> & Hin).
      apply jobsToProcess_elem in Hin as [Hjob He]. simpl in Hrow.
      rewrite Hrow in Hjob. injection Hjob as <-. congruence.
    + intros Hok. rewrite (enrich_each_rejected _ _ _ _ _ _ _ Hok) in Hrun.
      by injection Hrun as <- <- _.
Qed.
End RouteFacts.

Section NewestFacts.
Context {A : Type}.

Lemma take_desc_elem n (t : list A) i d :
  (i, d) ∈ Db.take_desc n t -> t !! i = Some d /\ (length t < i + S n)%nat.
Proof.
  unfold Db.take_desc. intros Hin.
  apply list_elem_of_lookup in Hin as [k Hk].
  apply lookup_take_Some in Hk as [Hk Hkn].
  replace (rev (Db.docs t)) with (reverse (Db.docs t)) in Hk
    by (unfold reverse; symmetry; apply rev_alt).
  apply reverse_lookup_Some in Hk as [Hk Hlen].
  unfold Db.docs in Hk, Hlen. rewrite length_imap in Hk, Hlen.
  apply list_lookup_imap_Some in Hk as (y & Hy & [= -> ->]).
  split; [done|]. lia.
Qed.
End NewestFacts.

(** X16. POST /api/jobs/process-unprocessed without job ids looks only
    at the newest [limit] records (2 when absent): a record with at least
    that many newer records is left as it was, whether or not it is
    processed. *)
Theorem route_default_looks_at_newest_only schema x limit (t : list Jobs.JobRow) i row :
  t !! i = Some row ->
  (i + Results.batch_size limit 2 < length t)%nat ->
  (Jobs.processUnprocessedRoute schema x [] limit t).2 !! i = Some row.
Proof.
  intros Hrow Hold. unfold Jobs.processUnprocessedRoute.
  destruct (enrich_each_spec schema x 0%nat t (Jobs.jobsToProcess [] limit t).*1
              (Jobs.jobsToProcess [] limit t) t 0%nat 0%nat)
    as (t' & d' & f' & -> & _ & _ & Hrows).
  - intros j job Hin. split; [by apply jobsToProcess_elem in Hin as [? _]|].
    apply list_elem_of_fmap. by exists (j, job).
  - done.
  - intros j r Hr. exists r. split; [done|]. split; [by left|done].
  - simpl. destruct (Hrows i row Hrow) as (row' & -> & _ & Hout). f_equal. apply Hout.
    intros Hin. apply list_elem_of_fmap in Hin as ([i' job] & -> & Hin).
    unfold Jobs.jobsToProcess in Hin.
    apply list_elem_of_In, filter_In in Hin as [Hin _].
    apply list_elem_of_In, take_desc_elem in Hin as [_ Hnew]. simpl in Hold.
    unfold Jobs.JobRow in *. lia.
Qed.

(** X17. processJobWithAI, for a job that exists, returns normally when
    its request reaches the route, with the store the route left, whatever
    the language model and the embedding did.  Its try block throws exactly
    when CS_API_BASE_URL or VERCEL_AUTOMATION_BYPASS_SECRET is not set, or
    the request does not reach the route and what comes back is a rejection
    of [fetch], a response that is not [ok], a body that is not JSON or a body
    whose [success] is falsy; the route has then not run.  The catch block
    runs markJobError: under a schema that has the string "false" the job is
    reset to "false" with the message and the action throws the message;
    under one that has not, as convex/schema.ts, the patch is rejected, the
    job is as it was and the action throws the exception of the patch. *)
Theorem processJobWithAI_throws_unless_the_route_answers schema env delivery x tMark
    job (t : list Jobs.JobRow) d :
  t !! job = Some d ->
  Jobs.processJobWithAI schema env delivery x tMark job t =
    match
      (if Results.env_missing (Results.CS_API_BASE_URL env)
       then Some "CS_API_BASE_URL environment variable not set"
       else if Results.env_missing (Results.VERCEL_AUTOMATION_BYPASS_SECRET env)
       then Some "VERCEL_AUTOMATION_BYPASS_SECRET environment variable not set"
       else match delivery with
            | Jobs.Reached => None
            | Jobs.Missed (Results.FetchRejected msg) => Some msg
            | Jobs.Missed (Results.NotOk status statusText errorText) =>
                Some ("API call failed: " ++ pretty status ++ " " ++ statusText
                      ++ " - " ++ errorText)%string
            | Jobs.Missed (Results.Ok (Thrown msg)) => Some msg
            | Jobs.Missed (Results.Ok (Returned body)) =>
                if Results.success body then None
                else Some (match Results.error body with
                           | Some e => str_or e "Failed to process job"
                           | None => "Failed to process job"
                           end)
            end)
    with
    | Some msg =>
        if Results.accepts schema Results.Pfalse
        then (Thrown msg, <[job := Results.mark_error msg tMark d]> t)
        else (Thrown Results.schema_violation, t)
    | None =>
        (Returned tt,
         match delivery with
         | Jobs.Reached =>
             (Jobs.processUnprocessedRoute schema x [job] (Some 1%nat) t).2
         | Jobs.Missed _ => t
         end)
    end.
Proof.
  intros Hd. unfold Jobs.processJobWithAI, Results.processWithAI, Results.call_api,
    Results.markError.
  destruct (Results.env_missing (Results.CS_API_BASE_URL env)) eqn:Hbase; simpl.
  { rewrite (write_lookup _ _ _ _ _ Hd). by destruct (Results.accepts _ _). }
  destruct (Results.env_missing (Results.VERCEL_AUTOMATION_BYPASS_SECRET env)) eqn:Hsecret;
    simpl.
  { rewrite (write_lookup _ _ _ _ _ Hd). by destruct (Results.accepts _ _). }
  destruct delivery as [|[msg|status statusText errorText|[body|msg]]].
  - unfold Jobs.processUnprocessedRoute.
    destruct (Jobs.enrich_each _ _ _ _ _ _ _) as [[t' done] failures]. done.
  - rewrite (write_lookup _ _ _ _ _ Hd). by destruct (Results.accepts _ _).
  - rewrite (write_lookup _ _ _ _ _ Hd). by destruct (Results.accepts _ _).
  - destruct (Results.success body); simpl; [done|].
    rewrite (write_lookup _ _ _ _ _ Hd). by destruct (Results.accepts _ _).
  - rewrite (write_lookup _ _ _ _ _ Hd). by destruct (Results.accepts _ _).
Qed.

(** ** Cosine similarity of a vector whose squares vanish *)

Section VanishingFacts.
Local Open Scope float_scope.

Lemma accumulate_vanishing_left a b d nb :
  Forall (fun x => x * x = 0) a ->
  exists d' nb', Embeddings.accumulate a b d 0 nb = (d', 0, nb').
Proof.
  intros Ha. revert b d nb. induction Ha as [|x a Hx Ha IH]; intros [|y b] d nb; simpl; eauto.
  rewrite Hx. change (0 + 0) with 0. apply IH.
Qed.

Lemma accumulate_vanishing_right a b d na :
  Forall (fun y => y * y = 0) b ->
  exists d' na', Embeddings.accumulate a b d na 0 = (d', na', 0).
Proof.
  intros Hb. revert a d na. induction Hb as [|y b Hy Hb IH]; intros [|x a] d na; simpl; eauto.
  rewrite Hy. change (0 + 0) with 0. apply IH.
Qed.

(** X18. A vector all of whose components have a square that underflows
    to zero is treated as the zero vector: cosineSimilarity returns 0 against
    any vector, and calculateCosineSimilarity returns 0 against any vector of
    the same length. *)
Theorem cosine_of_vanishing_vector_is_zero (a b : list float) :
  Forall (fun x => x * x = 0) a \/ Forall (fun y => y * y = 0) b ->
  Embeddings.cosineSimilarity a b = 0 /\
  (length a = length b -> Embeddings.calculateCosineSimilarity a b = Returned 0).
Proof.
  intros Hzero.
  assert (Embeddings.finish (Embeddings.accumulate a b 0 0 0) = 0) as Hfin.
  { destruct Hzero as [Ha|Hb].
    - destruct (accumulate_vanishing_left a b 0 0 Ha) as (d' & nb' & ->). done.
    - destruct (accumulate_vanishing_right a b 0 0 Hb) as (d' & na' & ->).
      unfold Embeddings.finish. change (PrimFloat.sqrt 0) with 0.
      change (PrimFloat.eqb 0 0) with true. by rewrite orb_true_r. }
  unfold Embeddings.cosineSimilarity, Embeddings.calculateCosineSimilarity.
  rewrite Hfin. split; [by destruct (negb _)|].
  intros Hlen. apply Nat.eqb_eq in Hlen. by rewrite Hlen.
Qed.

(** Two components whose squares are below the least positive binary64
    number. *)
Lemma cosine_of_vanishing_vector_is_zero_witness :
  Embeddings.cosineSimilarity [0x1p-600; -0x1p-540] [1; 2] = 0 /\
  Embeddings.calculateCosineSimilarity [0x1p-600; -0x1p-540] [1; 2] = Returned 0.
Proof.
  destruct (cosine_of_vanishing_vector_is_zero [0x1p-600; -0x1p-540] [1; 2]) as [Hc Hr].
  - left. repeat constructor.
  - split; [exact Hc|]. apply Hr. reflexivity.
Defined.
End VanishingFacts.

(** Three fresh jobs and a batch of two, under a schema with the three
    strings: the oldest is scheduled. *)
Lemma batch_selection_is_oldest_first_witness :
  let job := Jobs.new_job 1000 (Scenario.save_barista 0 (Some "gb")) in
  match Jobs.processUnprocessedJobs Results.tri_state 2000 (Some 2%nat) [job; job; job] with
  | Some (_, queue, _) => 0%nat ∈ queue
  | None => False
  end.
Proof.
  cbv zeta.
  assert (Results.processUnprocessed Results.tri_state 50 2000 (Some 2%nat)
            [Jobs.new_job 1000 (Scenario.save_barista 0 (Some "gb"));
             Jobs.new_job 1000 (Scenario.save_barista 0 (Some "gb"));
             Jobs.new_job 1000 (Scenario.save_barista 0 (Some "gb"))]
          = Some ([Results.mark_pending 2000
                     (Jobs.new_job 1000 (Scenario.save_barista 0 (Some "gb")));
                   Results.mark_pending 2000
                     (Jobs.new_job 1000 (Scenario.save_barista 0 (Some "gb")));
                   Jobs.new_job 1000 (Scenario.save_barista 0 (Some "gb"))],
                  [0%nat; 1%nat], Results.mkSummary 2 0)) as Hrun by reflexivity.
  unfold Jobs.processUnprocessedJobs. rewrite Hrun.
  apply (batch_selection_is_oldest_first _ _ _ _ _ _ _ _ Hrun 1%nat 0%nat
           (Jobs.new_job 1000 (Scenario.save_barista 0 (Some "gb")))).
  - right. left.
  - lia.
  - reflexivity.
  - reflexivity.
Defined.

(** A second run after the first one has scheduled two of three jobs. *)
Lemma consecutive_batch_runs_are_disjoint_witness :
  let job := Jobs.new_job 1000 (Scenario.save_barista 0 (Some "gb")) in
  exists t2 queue2 s2,
    Results.processUnprocessed Results.tri_state 50 3000 (Some 2%nat)
      [Results.mark_pending 2000 job; Results.mark_pending 2000 job; job]
      = Some (t2, queue2, s2) /\
    (forall i, i ∈ [0%nat; 1%nat] -> i ∉ queue2) /\
    (forall i, i ∈ queue2 ->
       exists d, [job; job; job] !! i = Some d /\ Results.unprocessed d = true).
Proof.
  exact (consecutive_batch_runs_are_disjoint Results.tri_state 50 2000 3000
           (Some 2%nat) (Some 2%nat)
           [Jobs.new_job 1000 (Scenario.save_barista 0 (Some "gb"));
            Jobs.new_job 1000 (Scenario.save_barista 0 (Some "gb"));
            Jobs.new_job 1000 (Scenario.save_barista 0 (Some "gb"))]
           _ _ _ eq_refl).
Defined.

(** Three jobs stored without [isProcessed]: the default call of the route
    leaves the oldest. *)
Lemma route_default_looks_at_newest_only_witness :
  let x :=
    Jobs.mkEnrichment (fun _ _ => Returned "structured") (fun _ => Returned tt)
      (fun _ => 3000) in
  (Jobs.processUnprocessedRoute Results.shipped x [] None
     [Scenario.imported_job; Scenario.imported_job; Scenario.imported_job]).2 !! 0%nat
  = Some Scenario.imported_job.
Proof.
  exact (route_default_looks_at_newest_only Results.shipped
           (Jobs.mkEnrichment (fun _ _ => Returned "structured") (fun _ => Returned tt)
              (fun _ => 3000))
           None
           [Scenario.imported_job; Scenario.imported_job; Scenario.imported_job]
           0%nat Scenario.imported_job eq_refl ltac:(simpl; lia)).
Defined.

(** Under convex/schema.ts as it is, for a job stored without
    [isProcessed]: a language model that is down does not make the action
    throw; a missing base URL does, with the exception of the rejected patch.
    Under a schema with the three strings, for a pending job: an answer 401
    of the deployment protection resets the job with its message. *)
Lemma processJobWithAI_throws_unless_the_route_answers_witness :
  let model_down :=
    Jobs.mkEnrichment (fun _ _ => Thrown "model timed out") (fun _ => Returned tt)
      (fun _ => 3000) in
  let pending_job :=
    Results.mark_pending 2000 (Jobs.new_job 1000 (Scenario.save_barista 0 (Some "gb"))) in
  Jobs.processJobWithAI Results.shipped Scenario.env Jobs.Reached model_down 3001 0
    [Scenario.imported_job] =
    (Returned tt,
     (Jobs.processUnprocessedRoute Results.shipped model_down [0%nat] (Some 1%nat)
        [Scenario.imported_job]).2) /\
  Jobs.processJobWithAI Results.shipped (Results.mkEnv None (Some "secret")) Jobs.Reached
    model_down 3001 0 [Scenario.imported_job] =
    (Thrown Results.schema_violation, [Scenario.imported_job]) /\
  Jobs.processJobWithAI Results.tri_state Scenario.env
    (Jobs.Missed (Results.NotOk 401 "Unauthorized" "Authentication Required"))
    model_down 3001 0 [pending_job] =
    (Thrown "API call failed: 401 Unauthorized - Authentication Required",
     [Results.mark_error "API call failed: 401 Unauthorized - Authentication Required"
        3001 pending_job]).
Proof.
  split; [|split].
  - exact (processJobWithAI_throws_unless_the_route_answers Results.shipped Scenario.env
             Jobs.Reached
             (Jobs.mkEnrichment (fun _ _ => Thrown "model timed out") (fun _ => Returned tt)
                (fun _ => 3000))
             3001 0%nat [Scenario.imported_job] Scenario.imported_job eq_refl).
  - exact (processJobWithAI_throws_unless_the_route_answers Results.shipped
             (Results.mkEnv None (Some "secret")) Jobs.Reached
             (Jobs.mkEnrichment (fun _ _ => Thrown "model timed out") (fun _ => Returned tt)
                (fun _ => 3000))
             3001 0%nat [Scenario.imported_job] Scenario.imported_job eq_refl).
  - exact (processJobWithAI_throws_unless_the_route_answers Results.tri_state Scenario.env
             (Jobs.Missed (Results.NotOk 401 "Unauthorized" "Authentication Required"))
             (Jobs.mkEnrichment (fun _ _ => Thrown "model timed out") (fun _ => Returned tt)
                (fun _ => 3000))
             3001 0%nat
             [Results.mark_pending 2000
                (Jobs.new_job 1000 (Scenario.save_barista 0 (Some "gb")))]
             (Results.mark_pending 2000
                (Jobs.new_job 1000 (Scenario.save_barista 0 (Some "gb"))))
             eq_refl).
Defined.

(** The route on a job stored without [isProcessed], the language model
    and the embeddings answering: under convex/schema.ts as it is the job is
    counted as failed and left as it was. *)
Lemma route_counts_and_touches_only_eligible_jobs_witness :
  let x :=
    Jobs.mkEnrichment (fun _ _ => Returned "structured") (fun _ => Returned tt)
      (fun _ => 3000) in
  Jobs.processUnprocessedRoute Results.shipped x [0%nat] (Some 1%nat)
    [Scenario.imported_job] = (Results.mkBody true None 0 1, [Scenario.imported_job]).
Proof.
  cbv zeta.
  destruct (route_counts_and_touches_only_eligible_jobs Results.shipped
              (Jobs.mkEnrichment (fun _ _ => Returned "structured") (fun _ => Returned tt)
                 (fun _ => 3000))
              [0%nat] (Some 1%nat) [Scenario.imported_job])
    as (t' & done & failures & -> & Hsum & _ & _ & Hshipped).
  destruct (Hshipped eq_refl) as [-> ->]. simpl in Hsum. by rewrite Hsum.
Defined.

Section UpkeepFacts.
Implicit Types (t : list Profiles.ProfileRow) (d : Profiles.ProfileRow).

Lemma touch_each_lookup now (sel : list (nat * Profiles.ProfileRow)) t s :
  (forall i d, (i, d) ∈ sel -> is_Some (t !! i)) ->
  exists t',
    Upkeep.touch_each now sel t s =
      Some (t', Results.mkSummary (Results.processed s + length sel) (Results.errors s)) /\
    length t' = length t /\
    forall i, t' !! i =
      if bool_decide (i ∈ sel.*1) then Upkeep.touch now <$> t !! i else t !! i.
Proof.
  revert t s. induction sel as [|[j d0] rest IH]; intros t s Hex.
  - exists t. split; [simpl; rewrite Nat.add_0_r; by destruct s|].
    split; [done|]. intros i.
    rewrite bool_decide_eq_false_2; [done|]. rewrite fmap_nil. apply not_elem_of_nil.
  - destruct (Hex j d0) as [d Hd]; [by left|].
    cbn [Upkeep.touch_each]. rewrite (patch_Some _ _ _ _ Hd).
    destruct (IH (<[j := Upkeep.touch now d]> t)
                 (Results.mkSummary (S (Results.processed s)) (Results.errors s)))
      as (t' & Hrun & Hlen & Hlk).
    { intros i d' Hi. apply lookup_lt_is_Some. rewrite length_insert.
      apply lookup_lt_is_Some. apply (Hex i d'). by right. }
    exists t'. rewrite Hrun. cbn [Results.processed Results.errors length].
    replace (S (Results.processed s) + length rest)%nat
      with (Results.processed s + S (length rest))%nat by lia.
    split; [done|]. rewrite length_insert in Hlen. split; [done|].
    intros i. rewrite Hlk, fmap_cons. cbn [fst].
    destruct (decide (i = j)) as [->|Hne].
    + rewrite list_lookup_insert_eq by (by eapply lookup_lt_Some). rewrite Hd.
      rewrite (bool_decide_eq_true_2 (j ∈ j :: rest.*1)) by (by left).
      by destruct (bool_decide _).
    + rewrite list_lookup_insert_ne by done.
      destruct (decide (i ∈ rest.*1)) as [Hin|Hnin].
      * rewrite !bool_decide_eq_true_2; [done|by right|done].
      * rewrite !bool_decide_eq_false_2; [done| |done].
        intros [?|?]%elem_of_cons; done.
Qed.

Lemma updateStale_run now batchSize t :
  let sel := Db.filter_take (Upkeep.stale now) (Results.batch_size batchSize 3) t in
  exists t',
    Upkeep.updateStaleLinkedInProfiles now batchSize t =
      Some (t', Results.mkSummary (length sel) 0) /\
    length t' = length t /\
    forall i, t' !! i =
      if bool_decide (i ∈ sel.*1) then Upkeep.touch now <$> t !! i else t !! i.
Proof.
  simpl. unfold Upkeep.updateStaleLinkedInProfiles.
  set (sel := Db.filter_take (Upkeep.stale now) (Results.batch_size batchSize 3) t).
  destruct (touch_each_lookup now sel t (Results.mkSummary 0 0)) as (t' & Hrun & Hlen & Hlk).
  { intros i d Hin. apply filter_take_elem in Hin as [Hd _]. eauto. }
  destruct sel as [|x rest] eqn:Hsel.
  - exists t. split; [done|]. split; [done|]. intros i.
    rewrite bool_decide_eq_false_2; [done|]. apply not_elem_of_nil.
  - exists t'. rewrite Hrun. done.
Qed.

(** X19. updateStaleLinkedInProfiles does not throw; with batch size
    [n] (3 when absent or 0) it reports [min n s] updated and 0 errors, [s]
    being the number of profiles last updated more than 90 days before [now].
    It changes [updatedAt] of the profiles it selected to [now] and nothing
    else: raw data, AI data and [isProcessed] of every profile are as before.
    A profile it touched is not selected by a later run that starts within 90
    days. *)
Theorem stale_update_only_resets_the_age now batchSize t :
  exists t' updated,
    Upkeep.updateStaleLinkedInProfiles now batchSize t =
      Some (t', Results.mkSummary updated 0) /\
    updated =
      (Results.batch_size batchSize 3 `min` length (List.filter (Upkeep.stale now) t))%nat /\
    length t' = length t /\
    (forall i d, t !! i = Some d ->
       exists d', t' !! i = Some d' /\
         (d' = d \/ (Upkeep.stale now d = true /\ d' = Upkeep.touch now d)) /\
         Results.isProcessed d' = Results.isProcessed d /\
         Results.rawData d' = Results.rawData d /\
         Results.aiData d' = Results.aiData d) /\
    (forall now' batch', now' - Upkeep.threeMonths <= now ->
       exists t'' again,
         Upkeep.updateStaleLinkedInProfiles now' batch' t' =
           Some (t'', Results.mkSummary again 0) /\
         forall i d, t !! i = Some d -> t' !! i = Some (Upkeep.touch now d) ->
           t'' !! i = Some (Upkeep.touch now d)).
Proof.
  destruct (updateStale_run now batchSize t) as (t' & Hrun & Hlen & Hlk).
  exists t', (length (Db.filter_take (Upkeep.stale now) (Results.batch_size batchSize 3) t)).
  split; [exact Hrun|]. split; [apply filter_take_count|]. split; [done|]. split.
  - intros i d Hd. rewrite Hlk, Hd. case_bool_decide as Hin; simpl.
    + exists (Upkeep.touch now d). split; [done|]. split; [|done]. right. split; [|done].
      apply list_elem_of_fmap in Hin as ([i' d0] & -> & Hin).
      apply filter_take_elem in Hin as [Hd0 Hstale]. simpl in Hd.
      unfold Profiles.ProfileRow in *. rewrite Hd in Hd0. by injection Hd0 as <-.
    + exists d. split; [done|]. split; [by left|done].
  - intros now' batch' Hnear.
    destruct (updateStale_run now' batch' t') as (t'' & Hrun' & _ & Hlk').
    eexists t'', _. split; [exact Hrun'|].
    intros i d Hd Htouched. rewrite Hlk', Htouched.
    rewrite bool_decide_eq_false_2; [done|]. intros Hin.
    apply list_elem_of_fmap in Hin as ([i' d0] & -> & Hin).
    apply filter_take_elem in Hin as [Hd0 Hstale]. simpl in Htouched.
    unfold Profiles.ProfileRow in *. rewrite Htouched in Hd0. injection Hd0 as <-.
    unfold Upkeep.stale in Hstale. simpl in Hstale. apply Z.ltb_lt in Hstale. lia.
Qed.

(** X20. POST /api/linkedin/stale, through triggerStaleProfileUpdates:
    whatever batch size the body gives, at most 10 profiles are updated, and
    none exactly when no profile is stale. *)
Theorem stale_route_updates_at_most_ten now batchSize t :
  exists t' updated,
    Upkeep.staleRoute now batchSize t = Some (t', Results.mkSummary updated 0) /\
    (updated <= 10)%nat /\
    (updated = 0%nat <-> forall i d, t !! i = Some d -> Upkeep.stale now d = false).
Proof.
  unfold Upkeep.staleRoute, Upkeep.triggerStaleProfileUpdates.
  set (n := Upkeep.safeBatchSize batchSize).
  assert (1 <= n <= 10)%nat as Hn.
  { unfold n, Upkeep.safeBatchSize. destruct batchSize as [b|]; simpl; lia. }
  assert (Results.batch_size (Some (Results.batch_size (Some n) 5)) 3 = n) as Hsize.
  { destruct n as [|n']; [lia|done]. }
  destruct (updateStale_run now (Some (Results.batch_size (Some n) 5)) t)
    as (t' & Hrun & _ & _).
  rewrite Hsize in Hrun.
  exists t', (length (Db.filter_take (Upkeep.stale now) n t)).
  split; [exact Hrun|]. rewrite filter_take_count. split; [lia|].
  split.
  - intros Hzero i d Hd. destruct (Upkeep.stale now d) eqn:Hs; [|done].
    assert (d ∈ List.filter (Upkeep.stale now) t) as Hin.
    { apply list_elem_of_In, filter_In. split; [|done].
      apply list_elem_of_In. by eapply list_elem_of_lookup_2. }
    destruct (List.filter (Upkeep.stale now) t); [by apply elem_of_nil in Hin|].
    simpl in Hzero. lia.
  - intros Hnone.
    assert (List.filter (Upkeep.stale now) t = []) as ->; [|simpl; lia].
    apply elem_of_nil_inv. intros d Hin.
    apply list_elem_of_In, filter_In in Hin as [Hin Hs].
    apply list_elem_of_In, list_elem_of_lookup_1 in Hin as [i Hi].
    rewrite (Hnone i d Hi) in Hs. done.
Qed.
End UpkeepFacts.

Section IntroFacts.
Context {A : Type}.
Implicit Types (t : list A) (p : A -> bool).

(** A matching document is taken when fewer than [n] matching documents
    are older. *)
Lemma filter_take_intro p n t i d :
  t !! i = Some d -> p d = true ->
  (length (List.filter p (take i t)) < n)%nat ->
  (i, d) ∈ Db.filter_take p n t.
Proof.
  intros Hd Hp Hfew. unfold Db.filter_take, Db.docs.
  pose proof (lookup_lt_Some _ _ _ Hd) as Hlt.
  rewrite <- (take_drop_middle t i d Hd) at 1.
  rewrite imap_app, List.filter_app. simpl. rewrite Hp.
  rewrite length_take, Nat.min_l, Nat.add_0_r by lia.
  apply (list_elem_of_lookup_2 _
           (length (List.filter (fun x => p (snd x)) (imap pair (take i t))))).
  rewrite lookup_take_lt.
  - by rewrite list_lookup_middle.
  - rewrite (filter_docs_length_gen p (fun k => k)). exact Hfew.
Qed.
End IntroFacts.

Section RequeueFacts.
Implicit Types (t : list Profiles.ProfileRow) (d : Profiles.ProfileRow).

(** X21. markProfileForProcessing throws when the profile does not
    exist.  Under a schema that has not the string "false", as
    convex/schema.ts, it throws for every profile that exists too: its patch
    is rejected and the profile is not written.  Under a schema that has the
    string it sets [isProcessed] to "false" and [updatedAt]; when the schema
    also lets a profile be marked pending, a profile with raw data is then
    scheduled by the next batch run whose batch size exceeds the number of
    older profiles that pass the selection filter. *)
Theorem markProfileForProcessing_requeues_or_throws schema now profile t :
  match t !! profile with
  | None => Upkeep.markProfileForProcessing schema now profile t = None
  | Some d =>
      if Results.accepts schema Results.Pfalse
      then
        let t' := <[profile := Upkeep.requeue now d]> t in
        Upkeep.markProfileForProcessing schema now profile t = Some t' /\
        (Results.accepts schema Results.Ppending = true ->
         Results.rawData d <> JsNull ->
         forall now2 batchSize,
           (length (List.filter Results.unprocessed (take profile t))
            < Results.batch_size batchSize 5)%nat ->
           exists t2 queue s,
             Profiles.processUnprocessedLinkedInProfiles schema now2 batchSize t' =
               Some (t2, queue, s) /\
             profile ∈ queue)
      else Upkeep.markProfileForProcessing schema now profile t = None
  end.
Proof.
  unfold Upkeep.markProfileForProcessing, Db.get.
  destruct (t !! profile) as [d|] eqn:Hd; [|done].
  rewrite (write_lookup _ _ _ _ _ Hd).
  destruct (Results.accepts schema Results.Pfalse); [|done].
  simpl. split; [done|].
  intros Hok Hraw now2 batchSize Hfew.
  destruct (processUnprocessed_run schema 5 now2 batchSize
              (<[profile := Upkeep.requeue now d]> t))
    as (t2 & Hrun & _).
  rewrite Hok in Hrun.
  eexists t2, _, _. split; [exact Hrun|].
  apply list_elem_of_fmap. exists (profile, Upkeep.requeue now d). split; [done|].
  pose proof (lookup_lt_Some _ _ _ Hd) as Hlt.
  apply filter_take_intro.
  - by apply list_lookup_insert_eq.
  - apply unprocessed_true. done.
  - rewrite take_insert_ge by lia. exact Hfew.
Qed.

(** X22. POST /api/linkedin/process-unprocessed selects only profiles
    that have no [isProcessed] field, since each of "false", "pending" and
    "true" is truthy: no profile that processUnprocessedLinkedInProfiles has
    scheduled is among the profiles the route works on. *)
Theorem linkedin_route_skips_scheduled_profiles :
  (forall limit t i d,
      (i, d) ∈ Upkeep.profilesToProcess limit t ->
      t !! i = Some d /\ Results.isProcessed d = None) /\
  (forall schema now batchSize limit t t' queue s,
      Profiles.processUnprocessedLinkedInProfiles schema now batchSize t =
        Some (t', queue, s) ->
      forall i, i ∈ queue -> i ∉ (Upkeep.profilesToProcess limit t').*1).
Proof.
  assert (forall limit t i d,
            (i, d) ∈ Upkeep.profilesToProcess limit t ->
            t !! i = Some d /\ Results.isProcessed d = None) as Hsel.
  { intros limit t i d Hin. unfold Upkeep.profilesToProcess in Hin.
    apply list_elem_of_In, filter_In in Hin as [Hin Hp].
    apply list_elem_of_In, take_desc_elem in Hin as [Hd _]. split; [done|].
    simpl in Hp. apply andb_true_iff in Hp as [Hp _].
    by destruct (Results.isProcessed d). }
  split; [exact Hsel|].
  intros schema now batchSize limit t t' queue s Hrun i Hi Hin.
  apply list_elem_of_fmap in Hin as ([i' d'] & -> & Hin).
  apply Hsel in Hin as [Hd' Hnone]. simpl in Hi.
  pose proof (processUnprocessed_checked schema 5 now batchSize t) as Hsound.
  unfold Profiles.processUnprocessedLinkedInProfiles in Hrun.
  unfold Results.checked_batch in Hsound. rewrite Hrun in Hsound.
  destruct Hsound as (t0 & q0 & s0 & [= <- <- <-] & _ & _ & _ & _ & Hpending & _).
  destruct (Hpending i' Hi) as (_ & d0 & Hd0 & Hp).
  unfold Profiles.ProfileRow in *. rewrite Hd' in Hd0. injection Hd0 as <-. congruence.
Qed.
End RequeueFacts.

(** The profile the route selects from a one-profile table has no
    [isProcessed] field; a stored profile that the batch run has scheduled,
    under a schema with the three strings, is not selected. *)
Lemma linkedin_route_skips_scheduled_profiles_witness :
  let fresh : Profiles.ProfileRow :=
    Results.mkRecord (Profiles.mkIdentity "https://linkedin.example/in/ada" "Ada")
      (JsObject "raw profile") None None None 1000 1000 in
  let stored : Profiles.ProfileRow :=
    Results.mkRecord (Profiles.mkIdentity "https://linkedin.example/in/ada" "Ada")
      (JsObject "raw profile") None (Some Results.Pfalse) None 1000 1000 in
  ([fresh] !! 0%nat = Some fresh /\ Results.isProcessed fresh = None) /\
  0%nat ∉ (Upkeep.profilesToProcess (Some 1%nat) [Results.mark_pending 2000 stored]).*1.
Proof.
  cbv zeta. destruct linkedin_route_skips_scheduled_profiles as (Hsel & Hskip).
  split.
  - apply (Hsel None). left.
  - apply (Hskip Results.tri_state 2000 None (Some 1%nat)
             [Results.mkRecord (Profiles.mkIdentity "https://linkedin.example/in/ada" "Ada")
                (JsObject "raw profile") None (Some Results.Pfalse) None 1000 1000]
             _ [0%nat] (Results.mkSummary 1 0) eq_refl).
    left.
Defined.

(** A profile that does not exist, and one that does: under
    convex/schema.ts as it is the mutation throws for both; under a schema
    with the three strings the profile is unprocessed again and the next
    batch run schedules it. *)
Lemma markProfileForProcessing_requeues_or_throws_witness :
  let ada : Profiles.ProfileRow :=
    Results.mkRecord (Profiles.mkIdentity "https://linkedin.example/in/ada" "Ada")
      (JsObject "raw profile") None None None 1000 1000 in
  Upkeep.markProfileForProcessing Results.shipped 2000 1 [ada] = None /\
  Upkeep.markProfileForProcessing Results.shipped 2000 0 [ada] = None /\
  Upkeep.markProfileForProcessing Results.tri_state 2000 0 [ada] =
    Some [Upkeep.requeue 2000 ada] /\
  exists t2 queue s,
    Profiles.processUnprocessedLinkedInProfiles Results.tri_state 3000 None
      [Upkeep.requeue 2000 ada] = Some (t2, queue, s) /\
    0%nat ∈ queue.
Proof.
  cbv zeta.
  pose (ada := Results.mkRecord (Profiles.mkIdentity "https://linkedin.example/in/ada" "Ada")
                 (JsObject "raw profile") None None None 1000 1000 : Profiles.ProfileRow).
  split; [exact (markProfileForProcessing_requeues_or_throws Results.shipped 2000 1%nat [ada])|].
  split; [exact (markProfileForProcessing_requeues_or_throws Results.shipped 2000 0%nat [ada])|].
  destruct (markProfileForProcessing_requeues_or_throws Results.tri_state 2000 0%nat [ada])
    as [Hmark Hnext].
  split; [exact Hmark|].
  apply (Hnext eq_refl ltac:(discriminate) 3000 None). simpl. lia.
Defined.

(** ** Stored result records pass the schema *)

Section ValidFacts.
Variable schema : Results.Schema.

Lemma write_passes {P Raw AI} ok i
    (f : Results.ResultRecord P Raw AI -> Results.ResultRecord P Raw AI) t t' :
  (forall d, ok = true -> Results.valid schema (f d) = true) ->
  passes schema t -> Results.write ok i f t = Returned t' -> passes schema t'.
Proof.
  unfold passes. intros Hf Ht. unfold Results.write, Db.patch.
  destruct (t !! i) as [d|] eqn:Hd; [|done].
  destruct ok; [|done]. intros [= <-]. apply Forall_insert; [done|]. by apply Hf.
Qed.

Lemma saveJobIfNotExists_passes now args (t : list Jobs.JobRow) :
  passes schema t -> passes schema (Jobs.saveJobIfNotExists schema now args t).2.
Proof.
  unfold passes. intros Ht.
  destruct (saveJobIfNotExists_cases schema now args t) as [(i & d & _ & ->)|[_ ->]];
    [done|].
  destruct (Results.accepts schema Results.Pfalse) eqn:Hok; [|done].
  simpl. apply Forall_app. split; [done|]. by repeat constructor.
Qed.

(** X30. Every stored job result and LinkedIn profile passes schema the schema,
    whatever the schema is: a table in which every record passes schema it is left
    as one by saveJobResult, by saveJobIfNotExists and the loop of searchJobs
    that stores raw jobs, by a batch run, by the enrichment route, by the
    enrichment action with its error handler and by
    markProfileForProcessing.  Under convex/schema.ts as it is, no stored
    record therefore carries any of the three strings in [isProcessed], and
    no batch run selects a record. *)
Theorem stored_records_pass_the_schema :
  (forall now args state (t : list Jobs.JobRow),
      passes schema t -> passes schema (Jobs.saveJobResult schema now args state t).2) /\
  (forall now args (t : list Jobs.JobRow),
      passes schema t -> passes schema (Jobs.saveJobIfNotExists schema now args t).2) /\
  (forall generated now k search uid cc raws (t : list Jobs.JobRow),
      passes schema t -> passes schema (Jobs.store_all schema generated now k search uid cc raws t)) /\
  (forall (P Raw AI : Type) default now batchSize
          (t t' : list (Results.ResultRecord P Raw AI)) queue s,
      passes schema t ->
      Results.processUnprocessed schema default now batchSize t = Some (t', queue, s) ->
      passes schema t') /\
  (forall x jobIds limit (t : list Jobs.JobRow),
      passes schema t -> passes schema (Jobs.processUnprocessedRoute schema x jobIds limit t).2) /\
  (forall (P Raw AI : Type) fallback env reply now id
          (t : list (Results.ResultRecord P Raw AI)),
      passes schema t -> passes schema (Results.processWithAI schema fallback env reply now id t).2) /\
  (forall now profile (t t' : list Profiles.ProfileRow),
      passes schema t -> Upkeep.markProfileForProcessing schema now profile t = Some t' ->
      passes schema t') /\
  (schema = Results.shipped ->
   forall (P Raw AI : Type) n (t : list (Results.ResultRecord P Raw AI)),
     passes schema t ->
     Forall (fun d => Results.isProcessed d = None) t /\
     Db.filter_take Results.unprocessed n t = []).
Proof.
  pose proof saveJobIfNotExists_passes as Hsaved.
  pose proof (fun P Raw AI => @write_passes P Raw AI) as Hwritten.
  unfold passes in *.
  split; [|split; [|split; [|split; [|split; [|split; [|split]]]]]].
  - intros now args state t Ht. unfold Jobs.saveJobResult, Jobs.insert_job.
    destruct (Results.valid schema _) eqn:Hv; [|done].
    simpl. apply Forall_app. split; [done|]. by repeat constructor.
  - apply Hsaved.
  - intros generated now k search uid cc raws. revert k.
    induction raws as [|raw raws IH]; intros k t Ht; simpl; [done|].
    apply IH. rewrite storeRawJobResult_args. by apply Hsaved.
  - intros P Raw AI default now batchSize t t' queue s Ht Hrun.
    destruct (processUnprocessed_run schema default now batchSize t)
      as (t0 & Hrun0 & _ & Hlk).
    rewrite Hrun0 in Hrun. injection Hrun as <- _ _.
    apply Forall_lookup. intros i d' Hd'. rewrite Hlk in Hd'.
    rewrite Forall_lookup in Ht.
    destruct (bool_decide _); [|by eapply Ht].
    destruct (t !! i) as [d|] eqn:Hd; [|done]. injection Hd' as <-.
    specialize (Ht i d Hd). unfold Results.round.
    destruct (Results.accepts schema Results.Ppending) eqn:Hok; [|exact Ht].
    unfold Results.valid. simpl. exact Hok.
  - intros x jobIds limit t Ht. unfold Jobs.processUnprocessedRoute.
    destruct (enrich_each_spec schema x 0%nat t (Jobs.jobsToProcess jobIds limit t).*1
                (Jobs.jobsToProcess jobIds limit t) t 0%nat 0%nat)
      as (t' & d' & f' & -> & _ & Hlen & Hrows).
    + intros i job Hin. split; [by apply jobsToProcess_elem in Hin as [? _]|].
      apply list_elem_of_fmap. by exists (i, job).
    + done.
    + intros i row Hrow. exists row. split; [done|]. split; [by left|done].
    + simpl. apply Forall_lookup. intros i row' Hrow'.
      rewrite Forall_lookup in Ht.
      destruct (t !! i) as [row|] eqn:Hrow.
      * destruct (Hrows i row Hrow) as (row2 & Hrow2 & Hrel & _).
        unfold Jobs.JobRow in *. rewrite Hrow' in Hrow2. injection Hrow2 as <-.
        destruct Hrel as [->|(k & raw & ai & _ & _ & _ & Hok & ->)]; [by eapply Ht|].
        unfold Results.valid. simpl. by apply andb_true_iff in Hok as [Hok _].
      * apply lookup_ge_None in Hrow. apply lookup_lt_Some in Hrow'.
        unfold Jobs.JobRow in *. lia.
  - intros P Raw AI fallback env reply now id t Ht. unfold Results.processWithAI.
    destruct (Results.call_api fallback env reply) as [[]|msg]; [done|].
    unfold Results.markError.
    destruct (Results.write _ id _ t) as [t'|failure] eqn:Hw; [|done].
    simpl. eapply Hwritten; [|exact Ht|exact Hw]. by intros d Hok.
  - intros now profile t t' Ht. unfold Upkeep.markProfileForProcessing.
    destruct (Db.get t profile); [|done].
    destruct (Results.write _ profile _ t) as [t0|failure] eqn:Hw; [|done].
    intros [= <-]. eapply Hwritten; [|exact Ht|exact Hw]. by intros d Hok.
  - intros -> P Raw AI n t Ht.
    assert (Forall (fun d => Results.isProcessed d = None) t) as Hnone.
    { eapply Forall_impl; [exact Ht|]. intros d. unfold Results.valid. simpl.
      by destruct (Results.isProcessed d). }
    split; [exact Hnone|].
    apply elem_of_nil_inv. intros [i d] Hin.
    apply filter_take_elem in Hin as [Hd Hun]. apply unprocessed_true in Hun as [Hf _].
    rewrite Forall_lookup in Hnone. rewrite (Hnone i d Hd) in Hf. done.
Qed.
End ValidFacts.

(** The table two public calls leave under convex/schema.ts as it is: the
    job saved without [isProcessed] is stored, the raw job of a search is
    not, and every stored record passes the schema. *)
Lemma stored_records_pass_the_schema_witness :
  let t1 :=
    (Jobs.saveJobResult Results.shipped 1000 (Scenario.save_barista 0 (Some "gb")) None
       []).2 in
  let t2 :=
    (Jobs.saveJobIfNotExists Results.shipped 2000 (Scenario.save_barista 1 (Some "us"))
       t1).2 in
  Forall (fun d => Results.valid Results.shipped d = true) t2 /\
  Forall (fun d : Jobs.JobRow => Results.isProcessed d = None) t2 /\
  Db.filter_take (@Results.unprocessed Jobs.JobIdentity _ _) 50 t2 = [].
Proof.
  cbv zeta.
  destruct (stored_records_pass_the_schema Results.shipped)
    as (Hsave & Hstore & _ & _ & _ & _ & _ & Hshipped).
  assert (Forall (fun d => Results.valid Results.shipped d = true)
            (Jobs.saveJobIfNotExists Results.shipped 2000
               (Scenario.save_barista 1 (Some "us"))
               (Jobs.saveJobResult Results.shipped 1000
                  (Scenario.save_barista 0 (Some "gb")) None []).2).2) as Hvalid.
  { apply Hstore, Hsave. constructor. }
  split; [exact Hvalid|]. exact (Hshipped eq_refl _ _ _ 50%nat _ Hvalid).
Defined.

Section TextFacts.
Implicit Types (s : list Ascii.ascii) (c : Ascii.ascii).

Lemma collapse_spaced b s : Text.spaced b (Text.collapse_from b s) = true.
Proof.
  revert b. induction s as [|c s IH]; intros b; simpl; [done|].
  destruct (Jobs.is_space c) eqn:Hc.
  - destruct b; simpl; [apply IH|]. apply IH.
  - simpl. rewrite Hc. apply IH.
Qed.

Lemma spaced_collapse b s : Text.spaced b s = true -> Text.collapse_from b s = s.
Proof.
  revert b. induction s as [|c s IH]; intros b; simpl; [done|].
  destruct (Jobs.is_space c) eqn:Hc.
  - intros [[Hsp Hb]%andb_true_iff Hs]%andb_true_iff.
    apply Ascii.eqb_eq in Hsp as ->. apply negb_true_iff in Hb as ->.
    by rewrite (IH true Hs).
  - intros Hs. by rewrite (IH false Hs).
Qed.

Lemma spaced_newlines b b' s : Text.spaced b s = true -> Text.newlines_from b' s = s.
Proof.
  revert b b'. induction s as [|c s IH]; intros b b'; simpl; [done|].
  destruct (Jobs.is_space c) eqn:Hc.
  - intros [[Hsp Hb]%andb_true_iff Hs]%andb_true_iff.
    apply Ascii.eqb_eq in Hsp as ->. simpl. by rewrite (IH true false Hs).
  - intros Hs. destruct (Ascii.eqb c Text.newline) eqn:Hn.
    + apply Ascii.eqb_eq in Hn as ->. done.
    + by rewrite (IH false false Hs).
Qed.

Lemma spaced_weaken b s : Text.spaced b s = true -> Text.spaced false s = true.
Proof.
  destruct s as [|c s]; simpl; [done|]. destruct (Jobs.is_space c); [|done].
  intros [[-> _]%andb_true_iff ->]%andb_true_iff. done.
Qed.

Lemma spaced_tail b c s : Text.spaced b (c :: s) = true -> Text.spaced false s = true.
Proof.
  simpl. destruct (Jobs.is_space c).
  - intros [_ Hs]%andb_true_iff. by eapply spaced_weaken.
  - done.
Qed.

Lemma spaced_trimStart b s : Text.spaced b s = true -> Text.spaced false (Text.trimStart s) = true.
Proof.
  revert b. induction s as [|c s IH]; intros b Hs; [done|].
  simpl. destruct (Jobs.is_space c) eqn:Hc.
  - apply (IH false). by eapply spaced_tail.
  - simpl. rewrite Hc. simpl in Hs. by rewrite Hc in Hs.
Qed.

Lemma trimEnd_cons c s :
  Text.trimEnd (c :: s) =
    if Jobs.is_space c && bool_decide (Text.trimEnd s = []) then [] else c :: Text.trimEnd s.
Proof.
  simpl. destruct (Text.trimEnd s) as [|x r]; simpl.
  - by destruct (Jobs.is_space c).
  - by rewrite andb_false_r.
Qed.

Lemma spaced_trimEnd b s : Text.spaced b s = true -> Text.spaced b (Text.trimEnd s) = true.
Proof.
  revert b. induction s as [|c s IH]; intros b Hs; [done|].
  rewrite trimEnd_cons. destruct (Jobs.is_space c && _) eqn:Hdrop; [done|].
  simpl in *. destruct (Jobs.is_space c).
  - apply andb_true_iff in Hs as [-> Hs]. simpl. by apply IH.
  - by apply IH.
Qed.

Lemma trimEnd_twice s : Text.trimEnd (Text.trimEnd s) = Text.trimEnd s.
Proof.
  induction s as [|c s IH]; [done|].
  rewrite trimEnd_cons. destruct (Jobs.is_space c && _) eqn:Hdrop; [done|].
  rewrite trimEnd_cons, IH, Hdrop. done.
Qed.

Lemma trimStart_starts_clean s : starts_clean (Text.trimStart s).
Proof.
  induction s as [|c s IH]; simpl; [done|].
  destruct (Jobs.is_space c) eqn:Hc; [done|]. simpl. done.
Qed.

Lemma starts_clean_trimStart s : starts_clean s -> Text.trimStart s = s.
Proof. destruct s as [|c s]; simpl; [done|]. by intros ->. Qed.

Lemma starts_clean_trimEnd s : starts_clean s -> starts_clean (Text.trimEnd s).
Proof.
  destruct s as [|c s]; [done|]. simpl. intros Hc. rewrite Hc.
  by destruct (Text.trimEnd s).
Qed.

Lemma trimEnd_app s q :
  Text.trimEnd q <> [] -> Text.trimEnd (s ++ q) = s ++ Text.trimEnd q.
Proof.
  intros Hq. induction s as [|c s IH]; [done|].
  rewrite <- app_comm_cons, trimEnd_cons, IH.
  rewrite bool_decide_eq_false_2, andb_false_r; [done|].
  destruct s; simpl; [done|]. done.
Qed.

Lemma spaced_take b n s : Text.spaced b s = true -> Text.spaced b (take n s) = true.
Proof.
  revert b n. induction s as [|c s IH]; intros b [|n] Hs; simpl in *; try done.
  destruct (Jobs.is_space c).
  - apply andb_true_iff in Hs as [-> Hs]. simpl. by apply IH.
  - by apply IH.
Qed.

Lemma spaced_ellipsis b s : Text.spaced b s = true -> Text.spaced b (s ++ Text.ellipsis) = true.
Proof.
  revert b. induction s as [|c s IH]; intros b Hs; simpl in *; [done|].
  destruct (Jobs.is_space c).
  - apply andb_true_iff in Hs as [-> Hs]. simpl. by apply IH.
  - by apply IH.
Qed.

(** A text that is tidy is left as it is by the three cleaning steps. *)
Lemma tidy_fixed s :
  Text.spaced false s = true -> starts_clean s -> Text.trimEnd s = s ->
  Text.trim (Text.newlines_from false (Text.collapse_from false s)) = s.
Proof.
  intros Hs Hstart Hend.
  rewrite (spaced_collapse false s Hs), (spaced_newlines false false s Hs).
  unfold Text.trim. by rewrite (starts_clean_trimStart s Hstart).
Qed.

Lemma cleaned_tidy text :
  let s := Text.trim (Text.newlines_from false (Text.collapse_from false text)) in
  Text.spaced false s = true /\ starts_clean s /\ Text.trimEnd s = s.
Proof.
  simpl. rewrite (spaced_newlines false false _ (collapse_spaced false text)).
  unfold Text.trim. split; [|split].
  - apply spaced_trimEnd. eapply spaced_trimStart. apply collapse_spaced.
  - apply starts_clean_trimEnd, trimStart_starts_clean.
  - apply trimEnd_twice.
Qed.

(** X23. prepareTextForEmbedding is idempotent for a given maximal
    length: preparing a prepared text returns it unchanged, truncated or not. *)
Theorem prepareTextForEmbedding_is_idempotent text maxLength :
  Text.prepareTextForEmbedding (Text.prepareTextForEmbedding text maxLength) maxLength =
  Text.prepareTextForEmbedding text maxLength.
Proof.
  unfold Text.prepareTextForEmbedding. cbv zeta.
  set (m := default (80 * 100)%nat maxLength).
  set (s := Text.trim (Text.newlines_from false (Text.collapse_from false text))).
  destruct (cleaned_tidy text) as (Hs & Hstart & Hend). fold s in Hs, Hstart, Hend.
  destruct (m <? length s)%nat eqn:Hlong.
  - apply Nat.ltb_lt in Hlong.
    assert (length (take m s) = m) as Hlen by (rewrite length_take; lia).
    rewrite (tidy_fixed (take m s ++ Text.ellipsis)).
    + rewrite length_app, Hlen. cbn [length Text.ellipsis].
      replace (m <? m + 3)%nat with true by (symmetry; apply Nat.ltb_lt; lia).
      by rewrite take_app_length'.
    + apply spaced_ellipsis, spaced_take, Hs.
    + destruct s as [|c s']; [simpl in Hlong; lia|].
      destruct m as [|m']; [done|exact Hstart].
    + by rewrite trimEnd_app.
  - rewrite (tidy_fixed s Hs Hstart Hend). by rewrite Hlong.
Qed.

(** X24. The text prepareTextForEmbedding returns is at most
    [maxLength + 3] code units long (8000 when absent) and holds white space
    only as single spaces; it is at most [maxLength] long, or the first
    [maxLength] code units of the cleaned text followed by "...".  The second
    replacement, of line feeds, never changes the text the first one made. *)
Theorem prepareTextForEmbedding_is_clean_and_bounded text maxLength :
  let m := default (80 * 100)%nat maxLength in
  let out := Text.prepareTextForEmbedding text maxLength in
  (length out <= m + 3)%nat /\
  Text.spaced false out = true /\
  Text.newlines_from false (Text.collapse_from false text) = Text.collapse_from false text /\
  ((length out <= m)%nat \/ exists kept, length kept = m /\ out = kept ++ Text.ellipsis).
Proof.
  cbv zeta. unfold Text.prepareTextForEmbedding. cbv zeta.
  set (m := default (80 * 100)%nat maxLength).
  destruct (cleaned_tidy text) as (Hs & Hstart & Hend).
  set (s := Text.trim (Text.newlines_from false (Text.collapse_from false text))) in *.
  split; [|split; [|split]].
  - destruct (m <? length s)%nat eqn:Hlong.
    + rewrite length_app, length_take. simpl. lia.
    + apply Nat.ltb_ge in Hlong. lia.
  - destruct (m <? length s)%nat; [|done]. apply spaced_ellipsis, spaced_take, Hs.
  - apply (spaced_newlines false false), collapse_spaced.
  - destruct (m <? length s)%nat eqn:Hlong.
    + apply Nat.ltb_lt in Hlong. right. exists (take m s).
      split; [rewrite length_take; lia|done].
    + apply Nat.ltb_ge in Hlong. by left.
Qed.
End TextFacts.

(** ** Cosine similarity is symmetric *)

Section SymmetryFacts.
Local Open Scope float_scope.

Lemma SFmul_comm prec emax x y : SFmul prec emax x y = SFmul prec emax y x.
Proof.
  destruct x as [sx|sx| |sx mx ex], y as [sy|sy| |sy my ey]; simpl;
    rewrite ?(xorb_comm sx sy); try done.
  by rewrite (Pos.mul_comm mx my), (Z.add_comm ex ey).
Qed.

Lemma float_mul_comm (x y : float) : x * y = y * x.
Proof. apply Prim2SF_inj. rewrite !mul_spec. apply SFmul_comm. Qed.

Lemma accumulate_swap a b d na nb :
  Embeddings.accumulate b a d nb na =
    (let '(d', na', nb') := Embeddings.accumulate a b d na nb in (d', nb', na')).
Proof.
  revert b d na nb. induction a as [|x a IH]; intros [|y b] d na nb; simpl; try done.
  rewrite (float_mul_comm y x). apply IH.
Qed.

(** X25. cosineSimilarity and calculateCosineSimilarity are symmetric
    in their arguments, in binary64 arithmetic. *)
Theorem cosine_similarity_is_symmetric (a b : list float) :
  Embeddings.cosineSimilarity a b = Embeddings.cosineSimilarity b a /\
  Embeddings.calculateCosineSimilarity a b = Embeddings.calculateCosineSimilarity b a.
Proof.
  unfold Embeddings.cosineSimilarity, Embeddings.calculateCosineSimilarity.
  rewrite (Nat.eqb_sym (length b) (length a)), (accumulate_swap a b).
  destruct (Embeddings.accumulate a b 0 0 0) as [[d na] nb]. simpl.
  rewrite (orb_comm (PrimFloat.eqb (PrimFloat.sqrt nb) 0)),
    (float_mul_comm (PrimFloat.sqrt nb)).
  done.
Qed.
End SymmetryFacts.

Section ListingFacts.
Implicit Types (t : list Jobs.JobRow) (d : Jobs.JobRow).

Lemma newest_elem (p : Jobs.JobRow -> bool) limit t i d :
  (i, d) ∈ Listing.newest p limit t -> t !! i = Some d /\ p d = true.
Proof.
  unfold Listing.newest. intros Hin.
  apply subseteq_take, list_elem_of_In, filter_In in Hin as [Hin Hp].
  rewrite <- in_rev in Hin. by apply list_elem_of_In, docs_lookup in Hin.
Qed.

Lemma raw_args_range g1 g2 raw s1 s2 u1 u2 cc :
  Jobs.id raw <> EmptyString ->
  Jobs.job_range (Jobs.raw_args g1 raw s1 u1 cc) =
  Jobs.job_range (Jobs.raw_args g2 raw s2 u2 cc).
Proof.
  intros Hid. unfold Jobs.job_range, Jobs.raw_args, str_or. simpl.
  by rewrite bool_decide_eq_false_2.
Qed.

Lemma first_app_Some {A} (p : A -> bool) (l l' : list A) r :
  Db.first p l = Some r -> Db.first p (l ++ l') = Some r.
Proof.
  unfold Db.first. generalize 0%nat.
  induction l as [|x l IH]; intros n; simpl; [done|].
  destruct (p x); [done|]. apply IH.
Qed.

(** After a raw job with an id is stored its range is not empty, and it
    stays so. *)
Lemma store_all_known schema generated now k search uid cc raws t raw g s u :
  Results.accepts schema Results.Pfalse = true ->
  cc <> Some EmptyString ->
  Jobs.id raw <> EmptyString ->
  (raw ∈ raws \/ is_Some (Db.first (Jobs.job_range (Jobs.raw_args g raw s u cc)) t)) ->
  is_Some (Db.first (Jobs.job_range (Jobs.raw_args g raw s u cc))
             (Jobs.store_all schema generated now k search uid cc raws t)).
Proof.
  intros Hok Hcc Hid. revert k t.
  induction raws as [|r raws IH]; intros k t Hin; simpl.
  - destruct Hin as [Hin|Hin]; [by apply elem_of_nil in Hin|done].
  - apply IH. rewrite storeRawJobResult_args.
    destruct (saveJobIfNotExists_cases schema (now k)
                (Jobs.raw_args (generated k) r search uid cc) t)
      as [(i & d & Hl & ->)|[Hl ->]]; rewrite ?Hok; simpl.
    + destruct Hin as [[->|Hin]%elem_of_cons|Hin]; [|by left|by right].
      right. by rewrite (raw_args_range g (generated k) r s search u uid cc), Hl.
    + destruct Hin as [[->|Hin]%elem_of_cons|Hin]; [|by left|].
      * right. rewrite (raw_args_range g (generated k) r s search u uid cc) by done.
        rewrite first_app, Hl.
        rewrite new_job_in_range; [done|done|done|done|]. by apply or_undefined_id.
      * right. destruct Hin as [x Hx]. rewrite (first_app_Some _ _ _ _ Hx). done.
Qed.

Lemma store_all_nothing_new schema generated now k search uid cc raws t :
  (forall raw, raw ∈ raws ->
     forall g, is_Some (Db.first (Jobs.job_range (Jobs.raw_args g raw search uid cc)) t)) ->
  Jobs.store_all schema generated now k search uid cc raws t = t.
Proof.
  revert k. induction raws as [|r raws IH]; intros k Hknown; simpl; [done|].
  rewrite storeRawJobResult_args.
  destruct (Hknown r ltac:(by left) (generated k)) as [[i d] Hl].
  unfold Jobs.saveJobIfNotExists. rewrite Hl. simpl.
  apply IH. intros raw Hin. apply Hknown. by right.
Qed.

(** X26. Raw jobs that carry an id are stored by one search; a later
    search for the same country code, not the empty string, finds the same
    raw jobs.  Storing them again adds no record, and the records keep the id
    of the first search: getJobResults for the later search returns no job. *)
Theorem search_that_finds_known_jobs_lists_none schema g1 g2 now1 now2 k1 k2 s1 s2 u1 u2
    cc raws t :
  cc <> Some EmptyString ->
  Forall (fun raw => Jobs.id raw <> EmptyString) raws ->
  (forall i d, t !! i = Some d -> Jobs.ownerSearch (Results.identity d) <> Some s2) ->
  s1 <> s2 ->
  let t1 := Jobs.store_all schema g1 now1 k1 s1 u1 cc raws t in
  let t2 := Jobs.store_all schema g2 now2 k2 s2 u2 cc raws t1 in
  t2 = t1 /\ Listing.getJobResults (Listing.of_search s2) t2 = [].
Proof.
  intros Hcc Hids Hfresh Hne. simpl.
  destruct (store_all_added schema g1 now1 k1 s1 u1 cc raws t)
    as (added & Heq & _ & Hnone & Hadded).
  assert (Jobs.store_all schema g2 now2 k2 s2 u2 cc raws
            (Jobs.store_all schema g1 now1 k1 s1 u1 cc raws t)
          = Jobs.store_all schema g1 now1 k1 s1 u1 cc raws t) as ->.
  { destruct (Results.accepts schema Results.Pfalse) eqn:Hok.
    - apply store_all_nothing_new. intros raw Hin g.
      pose proof (proj1 (Forall_forall _ _) Hids raw Hin) as Hid.
      apply store_all_known; [done|done|done|by left].
    - rewrite Heq, (Hnone eq_refl), app_nil_r.
      destruct (store_all_added schema g2 now2 k2 s2 u2 cc raws t)
        as (added2 & -> & _ & Hnone2 & _).
      by rewrite (Hnone2 Hok), app_nil_r. }
  split; [done|].
  apply elem_of_nil_inv. intros [i d] Hin.
  unfold Listing.getJobResults, Listing.of_search in Hin. simpl in Hin.
  apply newest_elem in Hin as [Hd Hown]. apply bool_decide_eq_true in Hown.
  rewrite Heq in Hd. apply lookup_app_Some in Hd as [Hd|[_ Hd]].
  - by eapply Hfresh.
  - pose proof (proj1 (Forall_lookup _ _) Hadded _ _ Hd) as (j & raw & _ & ->).
    simpl in Hown. congruence.
Qed.

(** X27. getJobResults with a search id and no user id applies that
    filter only, whatever title, provider and state filters are given: every
    record it returns belongs to the search, and it returns [min limit k]
    records (limit 50 when absent), [k] being the number of records of the
    search. *)
Theorem listing_of_a_search_ignores_later_filters s byTitle byProvider byState limit t :
  let out :=
    Listing.getJobResults (Listing.mkFilters None (Some s) byTitle byProvider byState limit) t in
  (forall i d, (i, d) ∈ out ->
     t !! i = Some d /\ Jobs.ownerSearch (Results.identity d) = Some s) /\
  length out =
    (default 50%nat limit `min`
     length (List.filter
               (fun d => bool_decide (Jobs.ownerSearch (Results.identity d) = Some s)) t))%nat /\
  out = Listing.getJobResults (Listing.mkFilters None (Some s) None None None limit) t.
Proof.
  simpl. split; [|split; [|done]].
  - intros i d Hin. unfold Listing.getJobResults in Hin. simpl in Hin.
    apply newest_elem in Hin as [Hd Hown]. by apply bool_decide_eq_true in Hown.
  - unfold Listing.getJobResults, Listing.newest. simpl.
    rewrite length_take. f_equal.
    rewrite List.filter_rev, length_rev.
    exact (filter_docs_length
             (fun d : Jobs.JobRow =>
                bool_decide (Jobs.ownerSearch (Results.identity d) = Some s)) t).
Qed.
End ListingFacts.

(** Two searches that find the same job, under a schema with the three
    strings. *)
Lemma search_that_finds_known_jobs_lists_none_witness :
  let t1 :=
    Jobs.store_all Results.tri_state (fun _ => "job-1") (fun _ => 1000) 0 0 None (Some "gb")
      [Scenario.raw_barista] [] in
  let t2 :=
    Jobs.store_all Results.tri_state (fun _ => "job-2") (fun _ => 2000) 0 1 None (Some "gb")
      [Scenario.raw_barista] t1 in
  t2 = t1 /\ Listing.getJobResults (Listing.of_search 1) t2 = [].
Proof.
  apply (search_that_finds_known_jobs_lists_none Results.tri_state
           (fun _ => "job-1") (fun _ => "job-2") (fun _ => 1000) (fun _ => 2000)
           0%nat 0%nat 0%nat 1%nat
           None None (Some "gb") [Scenario.raw_barista] []).
  - discriminate.
  - repeat constructor. discriminate.
  - intros i d Hd. rewrite lookup_nil in Hd. discriminate.
  - discriminate.
Defined.

Section DistanceFacts.
Implicit Types (p q : list Ascii.ascii) (row above : list nat).

Lemma fill_ok c1 p q (s2 : list Ascii.ascii) above left diag :
  length above = length s2 ->
  ((diag <= Nat.max (length p) (length q))%nat /\ (diag = 0%nat <-> p = q)) ->
  (forall k v, above !! k = Some v ->
     (v <= Nat.max (length p) (length q + S k))%nat /\
     (v = 0%nat <-> p = q ++ take (S k) s2)) ->
  length (Locations.fill c1 s2 above left diag) = length s2 /\
  forall k v, Locations.fill c1 s2 above left diag !! k = Some v ->
    (v <= Nat.max (S (length p)) (length q + S k))%nat /\
    (v = 0%nat <-> p ++ [c1] = q ++ take (S k) s2).
Proof.
  revert q above left diag.
  induction s2 as [|c2 s2 IH]; intros q above left diag Hlen [Hdb Hdz] Hup.
  - destruct above; simpl; split; done.
  - destruct above as [|up above]; [done|]. simpl in Hlen.
    destruct (Hup 0%nat up eq_refl) as [Hub Huz].
    destruct (IH (q ++ [c2]) above
                (Nat.min (Nat.min (up + 1) (left + 1))
                   (diag + (if Ascii.eqb c1 c2 then 0 else 1)))
                up) as [Hlen' Hcells].
    { lia. }
    { rewrite length_app. simpl. split; [lia|]. rewrite Huz. simpl. done. }
    { intros k v Hk. destruct (Hup (S k) v Hk) as [Hb Hz].
      rewrite length_app. simpl. split; [lia|].
      rewrite Hz. simpl. by rewrite <- app_assoc. }
    simpl. split; [by rewrite Hlen'|].
    intros [|k] v Hv; simpl in Hv.
    + injection Hv as <-. split.
      * destruct (Ascii.eqb c1 c2); lia.
      * simpl. destruct (Ascii.eqb c1 c2) eqn:Hc.
        -- apply Ascii.eqb_eq in Hc as ->. split.
           ++ intros Hz. assert (diag = 0)%nat as Hd by lia.
              apply Hdz in Hd as ->. done.
           ++ intros Heq. apply app_inj_tail in Heq as [-> _].
              assert (diag = 0)%nat as -> by (by apply Hdz). lia.
        -- apply Ascii.eqb_neq in Hc. split; [lia|].
           intros Heq. apply app_inj_tail in Heq as [_ Heq]. done.
    + destruct (Hcells k v Hv) as [Hb Hz]. rewrite length_app in Hb. simpl in Hb.
      split; [lia|]. rewrite Hz. simpl. by rewrite <- app_assoc.
Qed.

Lemma first_row_ok (s2 : list Ascii.ascii) : row_ok [] s2 (Locations.first_row (length s2)).
Proof.
  unfold row_ok, Locations.first_row. split; [by rewrite length_seq|].
  intros j v Hv. apply lookup_seq in Hv as [-> Hj]. simpl. split; [lia|].
  split.
  - intros ->. done.
  - intros Hnil. destruct j as [|j]; [done|].
    destruct s2 as [|c2 s2]; [simpl in Hj; lia|done].
Qed.

Lemma next_row_ok c1 p (s2 : list Ascii.ascii) above :
  row_ok p s2 above ->
  row_ok (p ++ [c1]) s2 (Locations.next_row (S (length p)) c1 s2 above).
Proof.
  intros [Hlen Hcells]. destruct above as [|diag above]; [done|].
  simpl in Hlen. unfold Locations.next_row.
  destruct (Hcells 0%nat diag eq_refl) as [Hdb Hdz].
  destruct (fill_ok c1 p [] s2 above (S (length p)) diag) as [Hlen' Hnew].
  { lia. }
  { simpl. split; [lia|]. rewrite Hdz. by rewrite take_0. }
  { intros k v Hk. destruct (Hcells (S k) v Hk) as [Hb Hz]. simpl. split; [lia|done]. }
  split; [simpl; by rewrite Hlen'|].
  intros [|j] v Hv; simpl in Hv.
  - injection Hv as <-. rewrite length_app. simpl. split; [lia|].
    split; [done|]. rewrite take_0. intros Heq. by destruct p.
  - destruct (Hnew j v Hv) as [Hb Hz]. rewrite length_app. simpl in *.
    split; [lia|done].
Qed.

Lemma last_row_ok p (s1 s2 : list Ascii.ascii) above :
  row_ok p s2 above -> row_ok (p ++ s1) s2 (Locations.last_row (length p) s1 s2 above).
Proof.
  revert p above. induction s1 as [|c1 s1 IH]; intros p above Hok; simpl.
  - by rewrite app_nil_r.
  - replace (p ++ c1 :: s1) with ((p ++ [c1]) ++ s1) by (by rewrite <- app_assoc).
    replace (S (length p)) with (length (p ++ [c1])) at 1 by (rewrite length_app; simpl; lia).
    apply IH. by apply next_row_ok.
Qed.

Lemma distance_ok (s1 s2 : list Ascii.ascii) :
  (Locations.distance s1 s2 <= Nat.max (length s1) (length s2))%nat /\
  (Locations.distance s1 s2 = 0%nat <-> s1 = s2).
Proof.
  pose proof (last_row_ok [] s1 s2 _ (first_row_ok s2)) as [Hlen Hcells].
  simpl in Hlen, Hcells. unfold Locations.distance.
  destruct (lookup_lt_is_Some_2
              (Locations.last_row 0 s1 s2 (Locations.first_row (length s2)))
              (length s2)) as [v Hv]; [lia|].
  rewrite (nth_lookup_Some _ _ 0%nat _ Hv).
  destruct (Hcells _ _ Hv) as [Hb Hz]. split; [done|].
  by rewrite Hz, firstn_all.
Qed.
End DistanceFacts.

(** X28. The edit distance calculateSimilarity computes is at most the
    length of the longer string and is 0 exactly for equal strings.
    calculateSimilarity returns 1 when the two strings are equal once put in
    lower case and trimmed, 0 when exactly one of them is then empty, and
    otherwise the quotient [(m - d) / m] for the length [m] of the longer one
    and a distance [d] with [1 <= d <= m]. *)
Theorem calculateSimilarity_cases :
  (forall s1 s2 : list Ascii.ascii,
      (Locations.distance s1 s2 <= Nat.max (length s1) (length s2))%nat /\
      (Locations.distance s1 s2 = 0%nat <-> s1 = s2)) /\
  (forall str1 str2 : list Ascii.ascii,
      let s1 := Locations.normalise str1 in
      let s2 := Locations.normalise str2 in
      let d := Locations.distance s1 s2 in
      let m := Nat.max (length s1) (length s2) in
      (s1 = s2 -> Locations.calculateSimilarity str1 str2 = 1%float) /\
      (s1 <> s2 -> s1 = [] \/ s2 = [] -> Locations.calculateSimilarity str1 str2 = 0%float) /\
      (s1 <> s2 -> s1 <> [] -> s2 <> [] ->
         (1 <= d <= m)%nat /\
         Locations.calculateSimilarity str1 str2 =
           (Locations.number (Z.of_nat m - Z.of_nat d) / Locations.number (Z.of_nat m))%float)).
Proof.
  split; [exact distance_ok|].
  intros str1 str2. cbv zeta. unfold Locations.calculateSimilarity.
  set (s1 := Locations.normalise str1). set (s2 := Locations.normalise str2).
  split; [|split].
  - intros Heq. by rewrite bool_decide_eq_true_2.
  - intros Hne Hempty. rewrite bool_decide_eq_false_2 by done.
    destruct Hempty as [H1|H2].
    + rewrite H1 in *. destruct s2; [done|]. done.
    + rewrite H2 in *. destruct s1; [done|]. done.
  - intros Hne H1 H2. rewrite bool_decide_eq_false_2 by done.
    destruct (distance_ok s1 s2) as [Hb Hz].
    split.
    + split; [|exact Hb].
      destruct (Locations.distance s1 s2) eqn:Hd; [|lia].
      exfalso. apply Hne. by apply Hz.
    + destruct s1; [done|]. destruct s2; [done|]. done.
Qed.

(** The three cases: equal up to case and white space, one side blank, one
    substitution in five code units. *)
Lemma calculateSimilarity_cases_witness :
  Locations.calculateSimilarity (list_ascii_of_string "Leeds") (list_ascii_of_string " LEEDS ")
    = 1%float /\
  Locations.calculateSimilarity (list_ascii_of_string "Leeds") (list_ascii_of_string "  ")
    = 0%float /\
  Locations.calculateSimilarity (list_ascii_of_string "Leeds") (list_ascii_of_string "Leads")
    = (4 / 5)%float.
Proof.
  destruct calculateSimilarity_cases as [_ Hcases].
  split; [|split].
  - apply (proj1 (Hcases (list_ascii_of_string "Leeds") (list_ascii_of_string " LEEDS "))).
    reflexivity.
  - apply (proj1 (proj2 (Hcases (list_ascii_of_string "Leeds") (list_ascii_of_string "  ")))).
    + vm_compute. discriminate.
    + right. reflexivity.
  - destruct (proj2 (proj2 (Hcases (list_ascii_of_string "Leeds")
                              (list_ascii_of_string "Leads")))) as [_ Hq].
    + vm_compute. discriminate.
    + vm_compute. discriminate.
    + vm_compute. discriminate.
    + rewrite Hq. vm_compute. reflexivity.
Defined.
